(** * timer_cui: a shallow embedding of [src/timer.py]

    The development follows the source file top to bottom: the duration
    parser ([parse_duration] and the regular expression [DURATION_PATTERN]),
    the clock formatter ([format_time]), the header's percentage
    ([build_header]), the range check ([validate_duration]), the interactive
    loop ([run_timer]) and the command ([main]); then the display (the
    refresh rate, the line below the clock, [render_big_time]) and the
    terminal mode of the key reader ([KeyReader]).

    Conventions.
    - A Python [str] is a [string]; a character is read as the code point
      of the same number, so the model covers the code points below 256,
      and what is said of every text is said of the texts made of these.
    - A Python [int] is a [Z].  The limit of 4300 digits that the
      interpreter puts on the text of an integer is not part of [int]:
      what is said of a run of digits is said within that limit
      ([Vocabulary.short]).
    - A Python [float] is a rational number; every floating-point operation
      is the exact operation followed by a rounding [rnd], about which only
      the laws of the class [Rounding] are assumed.  [Binary64.binary64] is
      the rounding of the machine, to the nearest float and to the even
      one on a tie.  Overflow to an infinity and NaN are outside the
      model: [in_range] is the duration that converts to a float and the
      tick that [time.sleep] takes, on which a run raises no
      [OverflowError].
    - A raised exception is a value of [exn] in the error monad [result].
    - The loop reads the monotonic clock and the key reader once per
      iteration; a run is given these readings as a list, and returns the
      calls it makes on the display as a list of events.
    - The big digits are drawn from a table of glyphs that is not part of
      the source file: it is a parameter, and a text to draw is a list of
      code points.  The terminal of the key reader is its attributes, or
      nothing when standard input is not a terminal; [main_on] is the
      command on a platform and a terminal.  The panel, the styles and
      the reading of one key are not modelled. *)

From Stdlib Require Import ZArith Zdiv QArith Qround Qminmax Qabs Qpower.
From Stdlib Require Import List String Ascii Bool Lia Lqa Sorted.
From Stdlib Require Import Setoid Morphisms.
Import ListNotations.

Local Open Scope string_scope.
Local Open Scope Z_scope.

(** ** Exceptions *)

Inductive exn : Type :=
| ValueError (msg : string).

Inductive result (A : Type) : Type :=
| Ok (a : A)
| Raise (e : exn).

Arguments Ok {A} a.
Arguments Raise {A} e.

Definition bind {A B : Type} (r : result A) (k : A -> result B) : result B :=
  match r with
  | Ok a => k a
  | Raise e => Raise e
  end.

Notation "x <- r ;; k" := (bind r (fun x => k))
  (at level 61, r at next level, right associativity).

(** ** Python strings *)

Module PyStr.

(** [str.isspace] on one character: the Unicode white space below 256. *)
Definition is_space (c : ascii) : bool :=
  let n := N_of_ascii c in
  ((9 <=? n) && (n <=? 13) || (28 <=? n) && (n <=? 32)
   || (n =? 133) || (n =? 160))%N.

(** The decimal digits [0-9]: what [\d] matches and [int] reads. *)
Definition is_decimal (c : ascii) : bool :=
  let n := N_of_ascii c in ((48 <=? n) && (n <=? 57))%N.

(** [str.isdigit] on one character: the decimal digits and the superscript
    digits U+00B2, U+00B3 and U+00B9, which [int] does not read. *)
Definition is_digit (c : ascii) : bool :=
  let n := N_of_ascii c in
  (is_decimal c || (n =? 178) || (n =? 179) || (n =? 185))%N.

Fixpoint forallb_str (p : ascii -> bool) (s : string) : bool :=
  match s with
  | EmptyString => true
  | String c s' => p c && forallb_str p s'
  end.

Definition is_empty (s : string) : bool :=
  match s with
  | EmptyString => true
  | String _ _ => false
  end.

(** [s.isdigit()]: at least one character, and all of them digits. *)
Definition isdigit (s : string) : bool :=
  negb (is_empty s) && forallb_str is_digit s.

(** At least one character, and all of them in [0-9]. *)
Definition isdecimal (s : string) : bool :=
  negb (is_empty s) && forallb_str is_decimal s.

Fixpoint lstrip (s : string) : string :=
  match s with
  | EmptyString => EmptyString
  | String c s' => if is_space c then lstrip s' else s
  end.

Fixpoint rstrip (s : string) : string :=
  match s with
  | EmptyString => EmptyString
  | String c s' =>
      let r := rstrip s' in
      if is_space c && is_empty r then EmptyString else String c r
  end.

(** [s.strip()] *)
Definition strip (s : string) : string := rstrip (lstrip s).

(** [sep in s], for a separator of one character. *)
Fixpoint contains (sep : ascii) (s : string) : bool :=
  match s with
  | EmptyString => false
  | String c s' => Ascii.eqb c sep || contains sep s'
  end.

(** [s.split(sep)], for a separator of one character. *)
Fixpoint split (sep : ascii) (s : string) : list string :=
  match s with
  | EmptyString => [EmptyString]
  | String c s' =>
      if Ascii.eqb c sep then EmptyString :: split sep s'
      else match split sep s' with
           | hd :: tl => String c hd :: tl
           | [] => [String c EmptyString]
           end
  end.

Definition digit_value (c : ascii) : Z := Z.of_N (N_of_ascii c) - 48.

Fixpoint decimal_value_from (acc : Z) (s : string) : Z :=
  match s with
  | EmptyString => acc
  | String c s' => decimal_value_from (10 * acc + digit_value c) s'
  end.

(** The number a string of decimal digits denotes. *)
Definition decimal_value (s : string) : Z := decimal_value_from 0 s.

(** [int(s)] for the strings the program passes to it: those that satisfy
    [isdigit], and those matched by [\d+].  A superscript digit passes
    [isdigit] and makes [int] raise.  (The interpreter's limit on the
    number of digits of a literal, 4300 unless it is configured otherwise,
    is not modelled: a property that reads a run of digits is stated for
    runs within that limit.) *)
Definition int (s : string) : result Z :=
  if isdecimal s then Ok (decimal_value s)
  else Raise (ValueError
    ("invalid literal for int() with base 10: '" ++ s ++ "'")).

(** [c.lower()] on one character below 256. *)
Definition lower_char (c : ascii) : ascii :=
  let n := N_of_ascii c in
  if ((65 <=? n) && (n <=? 90)
      || (192 <=? n) && (n <=? 222) && negb (n =? 215))%N
  then ascii_of_N (n + 32) else c.

(** [s.lower()] *)
Fixpoint lower (s : string) : string :=
  match s with
  | EmptyString => EmptyString
  | String c s' => String (lower_char c) (lower s')
  end.

End PyStr.

(** ** Regular expressions

    The fragment of Python's [re] that [DURATION_PATTERN] is written in,
    with a backtracking matcher: greedy repetition and option, named
    groups, and the anchors.  Literals are matched as under
    [re.IGNORECASE]. *)

Module Re.

Inductive regex : Type :=
| Bol                                   (* ^ *)
| Eol                                   (* $ *)
| Lit (c : ascii)                       (* a letter, case-insensitive *)
| Star (p : ascii -> bool)              (* [p]* *)
| Plus (p : ascii -> bool)              (* [p]+ *)
| Cat (r1 r2 : regex)                   (* r1 r2 *)
| Opt (r : regex)                       (* (?:r)? *)
| Group (name : string) (r : regex).    (* (?P<name>r) *)

(** The groups that took part in the match, latest first. *)
Definition captures : Type := list (string * string).

Fixpoint group (name : string) (caps : captures) : option string :=
  match caps with
  | [] => None
  | (n, v) :: caps' => if String.eqb n name then Some v else group name caps'
  end.

(** A continuation receives the position reached, the text left there and
    the captures so far. *)
Definition cont : Type := nat -> string -> captures -> option captures.

(** [p]* from [pos]: the longest run first, then shorter ones. *)
Fixpoint star (p : ascii -> bool) (pos : nat) (s : string)
  (caps : captures) (k : cont) : option captures :=
  match s with
  | String c s' =>
      if p c then
        match star p (S pos) s' caps k with
        | Some r => Some r
        | None => k pos s caps
        end
      else k pos s caps
  | EmptyString => k pos s caps
  end.

Definition newline : ascii := ascii_of_N 10.

(** [run whole r pos s caps k]: match [r] at position [pos] of [whole],
    where [s] is the text from [pos] on, then continue with [k]. *)
Fixpoint run (whole : string) (r : regex) (pos : nat) (s : string)
  (caps : captures) (k : cont) : option captures :=
  match r with
  | Bol => if Nat.eqb pos 0 then k pos s caps else None
  | Eol =>
      match s with
      | EmptyString => k pos s caps
      | String c EmptyString =>
          if Ascii.eqb c newline then k pos s caps else None
      | _ => None
      end
  | Lit c =>
      match s with
      | String c' s' =>
          if Ascii.eqb (PyStr.lower_char c') (PyStr.lower_char c)
          then k (S pos) s' caps else None
      | EmptyString => None
      end
  | Star p => star p pos s caps k
  | Plus p =>
      match s with
      | String c s' => if p c then star p (S pos) s' caps k else None
      | EmptyString => None
      end
  | Cat r1 r2 =>
      run whole r1 pos s caps (fun pos' s' caps' => run whole r2 pos' s' caps' k)
  | Opt r' =>
      match run whole r' pos s caps k with
      | Some res => Some res
      | None => k pos s caps
      end
  | Group name r' =>
      run whole r' pos s caps
        (fun pos' s' caps' =>
           k pos' s' ((name, substring pos (pos' - pos) whole) :: caps'))
  end.

(** [pattern.match(s)] *)
Definition rmatch (r : regex) (s : string) : option captures :=
  run s r 0 s [] (fun _ _ caps => Some caps).

End Re.

Notation "r1 >> r2" := (Re.Cat r1 r2) (at level 60, right associativity).

(** ** Parsing a duration *)

(** [^\s*(?:(?P<hours>\d+)h)?\s*(?:(?P<minutes>\d+)m)?\s*(?:(?P<seconds>\d+)s)?\s*$]
    with [re.IGNORECASE]. *)
Definition DURATION_PATTERN : Re.regex :=
  Re.Bol >> Re.Star PyStr.is_space
  >> Re.Opt (Re.Group "hours" (Re.Plus PyStr.is_decimal) >> Re.Lit "h")
  >> Re.Star PyStr.is_space
  >> Re.Opt (Re.Group "minutes" (Re.Plus PyStr.is_decimal) >> Re.Lit "m")
  >> Re.Star PyStr.is_space
  >> Re.Opt (Re.Group "seconds" (Re.Plus PyStr.is_decimal) >> Re.Lit "s")
  >> Re.Star PyStr.is_space
  >> Re.Eol.

Fixpoint map_result {A B : Type} (f : A -> result B) (l : list A)
  : result (list B) :=
  match l with
  | [] => Ok []
  | a :: l' => b <- f a ;; bs <- map_result f l' ;; Ok (b :: bs)
  end.

(** The branch of [parse_duration] taken when the text has a colon. *)
Definition colon_form (value : string) : result Z :=
  let parts := map PyStr.strip (PyStr.split ":" value) in
  if negb (forallb PyStr.isdigit parts)
  then Raise (ValueError ("Invalid time format: " ++ value))
  else
    numbers <- map_result PyStr.int parts ;;
    match numbers with
    | [minutes; seconds] => Ok (minutes * 60 + seconds)
    | [hours; minutes; seconds] => Ok (hours * 3600 + minutes * 60 + seconds)
    | _ => Raise (ValueError ("Invalid time format: " ++ value))
    end.

(** [int(match.group(name) or 0)] *)
Definition group_or_zero (name : string) (caps : Re.captures) : result Z :=
  match Re.group name caps with
  | Some (String c s) => PyStr.int (String c s)
  | _ => Ok 0
  end.

(** The last branch of [parse_duration]: the text against the pattern. *)
Definition suffix_form (value : string) : result Z :=
  match Re.rmatch DURATION_PATTERN value with
  | None => Raise (ValueError ("Invalid duration: " ++ value))
  | Some caps =>
      hours <- group_or_zero "hours" caps ;;
      minutes <- group_or_zero "minutes" caps ;;
      seconds <- group_or_zero "seconds" caps ;;
      Ok (hours * 3600 + minutes * 60 + seconds)
  end.

Definition parse_duration (value : string) : result Z :=
  let value := PyStr.strip value in
  if PyStr.is_empty value then Raise (ValueError "Empty duration")
  else if PyStr.contains ":" value then colon_form value
  else if PyStr.isdigit value then PyStr.int value
  else suffix_form value.

Definition validate_duration (seconds : Z) : result unit :=
  if seconds <=? 0 then Raise (ValueError "Duration must be greater than 0")
  else Ok tt.

(** ** Vocabulary of the parser's properties *)

Module Vocabulary.
Import PyStr Re.

(** The text does not start with a character of the class [p]. *)
Definition stops (p : ascii -> bool) (s : string) : Prop :=
  match s with
  | String c _ => p c = false
  | EmptyString => True
  end.

(** The text of one group of the suffix form: digits and a unit letter,
    or nothing. *)
Definition group_text (digits : option string) (unit : ascii) : string :=
  match digits with
  | Some d => d ++ String unit ""
  | None => ""
  end.

Definition group_value (digits : option string) : Z :=
  match digits with
  | Some d => decimal_value d
  | None => 0%Z
  end.

Definition group_digits (digits : option string) : Prop :=
  match digits with
  | Some d => isdecimal d = true
  | None => True
  end.

Definition entry (name : string) (digits : option string) : captures :=
  match digits with
  | Some d => [(name, d)]
  | None => []
  end.

(** [x] is the letter [u] in either case. *)
Definition unit_letter (u x : ascii) : Prop :=
  lower_char x = u.

(** Digits followed by a character other than the unit [u], or nothing:
    where the group of [u] cannot match. *)
Definition blocked (u : ascii) (s : string) : Prop :=
  s = "" \/
  exists d x rest, s = d ++ String x rest
    /\ forallb_str is_decimal d = true /\ is_decimal x = false
    /\ Ascii.eqb (lower_char x) (lower_char u) = false.

Definition not_decimal (u : ascii) : Prop :=
  forall y, is_decimal y = true ->
            Ascii.eqb (lower_char y) (lower_char u) = false.

(** Neither white space nor a colon. *)
Definition plain (c : ascii) : bool :=
  negb (is_space c) && negb (Ascii.eqb c ":").

(** A run of digits within the limit that the interpreter puts on the
    text of an integer. *)
Definition int_max_str_digits : nat := 4300.

Definition short (digits : string) : Prop :=
  (String.length digits <= int_max_str_digits)%nat.

Definition group_short (digits : option string) : Prop :=
  match digits with
  | Some d => short d
  | None => True
  end.

(** The first character of a message, if any. *)
Definition initial (msg : string) : option ascii :=
  match msg with
  | String c _ => Some c
  | EmptyString => None
  end.

End Vocabulary.

(** ** Floating point *)

Local Open Scope Q_scope.

(** Rounding to a float.  The laws are those of rounding to nearest in a
    binary format with 53 bits of precision, away from overflow: it is
    monotone, it leaves a float unchanged, and a number [m * 2^e] with
    fewer than 54 bits in [m] is a float. *)
Class Rounding : Type := {
  rnd : Q -> Q;
  rnd_monotone : forall x y : Q, x <= y -> rnd x <= rnd y;
  rnd_idempotent : forall x : Q, rnd (rnd x) == rnd x;
  rnd_representable : forall m e : Z,
    (Z.abs m < 2 ^ 53)%Z -> (-1074 <= e <= 971)%Z ->
    rnd (inject_Z m * 2 ^ e) == inject_Z m * 2 ^ e
}.

Definition Qltb (x y : Q) : bool :=
  match x ?= y with
  | Lt => true
  | _ => false
  end.

(** [int(x)] for a float [x]: truncation toward zero. *)
Definition trunc (x : Q) : Z := Z.quot (Qnum x) (Zpos (Qden x)).

(** [min(a, b)]: the first argument unless the second is smaller. *)
Definition py_min (a b : Q) : Q := if Qltb b a then b else a.

(** ** Formatting *)

Definition digit_char (d : Z) : ascii := ascii_of_N (Z.to_N (48 + d)).

Fixpoint digits_from (fuel : nat) (n : Z) (acc : string) : string :=
  match fuel with
  | O => acc
  | S fuel' =>
      let acc' := String (digit_char (n mod 10)) acc in
      if (n <? 10)%Z then acc' else digits_from fuel' (n / 10) acc'
  end.

(** [str(n)] for [n >= 0]. *)
Definition decimal (n : Z) : string :=
  digits_from (S (Z.to_nat (Z.log2 n))) n EmptyString.

(** [f"{n:02d}"] *)
Definition format_02d (n : Z) : string :=
  if (n <? 0)%Z then String "-" (decimal (- n))
  else if (n <? 10)%Z then String "0" (decimal n)
  else decimal n.

(** The clock text of a whole number of seconds: the last five lines of
    [format_time]. *)
Definition clock (total_seconds : Z) : string :=
  let hours := (total_seconds / 3600)%Z in
  let minutes := ((total_seconds mod 3600) / 60)%Z in
  let seconds := (total_seconds mod 60)%Z in
  if (hours >? 0)%Z
  then format_02d hours ++ ":" ++ format_02d minutes ++ ":" ++ format_02d seconds
  else format_02d minutes ++ ":" ++ format_02d seconds.

Section Timer.

Context {R : Rounding}.

Definition fadd (x y : Q) : Q := rnd (x + y).
Definition fsub (x y : Q) : Q := rnd (x - y).
Definition fmul (x y : Q) : Q := rnd (x * y).
Definition fdiv (x y : Q) : Q := rnd (x / y).

(** The conversion of an [int] operand in mixed arithmetic. *)
Definition of_int (n : Z) : Q := rnd (inject_Z n).

Definition format_time (total_seconds : Q) : string :=
  clock (Z.max 0 (trunc (fadd total_seconds (1 # 2)))).

(** ** The header *)

(** The first line of [build_header].  [total] is the [int] that
    [run_timer] passes; the literals 1 and 100 are floats as they stand. *)
Definition percent (remaining : Q) (total : Z) : Q :=
  if (total =? 0)%Z then 0
  else py_min 100 (fmul (fsub 1 (fdiv remaining (of_int total))) 100).

(** What [build_header] shows: the clock text handed to [render_big_time],
    and the label, percentage and status of the line below it. *)
Record Header : Type := {
  time_text : string;
  header_label : string;
  header_percent : Q;
  status : string
}.

Definition build_header (label : string) (remaining : Q) (total : Z)
  (paused : bool) : Header :=
  {| time_text := format_time remaining;
     header_label := label;
     header_percent := percent remaining total;
     status := if paused then "Paused" else "Running" |}.

(** ** The loop *)

(** The three variables of [run_timer] that the loop updates. *)
Record TimerState : Type := {
  start : Q;
  elapsed_before_pause : Q;
  paused : bool
}.

(** The [if key:] block of one iteration; [None] is its [return]. *)
Definition handle_key (now : Q) (key : option string) (st : TimerState)
  : option TimerState :=
  match key with
  | None => Some st
  | Some key =>
      if PyStr.is_empty key then Some st
      else
        let key := PyStr.lower key in
        if String.eqb key "q" then None
        else
          let st1 :=
            if String.eqb key "p" || String.eqb key " " then
              if paused st
              then {| start := now;
                      elapsed_before_pause := elapsed_before_pause st;
                      paused := false |}
              else {| start := start st;
                      elapsed_before_pause :=
                        fadd (elapsed_before_pause st) (fsub now (start st));
                      paused := true |}
            else st in
          Some (if String.eqb key "s" && paused st1
                then {| start := now;
                        elapsed_before_pause := elapsed_before_pause st1;
                        paused := false |}
                else st1)
  end.

(** [elapsed] as the iteration computes it after the key. *)
Definition elapsed_at (now : Q) (st : TimerState) : Q :=
  if paused st then elapsed_before_pause st
  else fadd (elapsed_before_pause st) (fsub now (start st)).

(** One redraw: the header, and the progress task's [completed]. *)
Record Frame : Type := {
  header : Header;
  completed : Q
}.

Inductive Event : Type :=
| Add_task (total : Z)        (* progress.add_task *)
| Update (f : Frame)          (* progress.update and live.update *)
| Sleep (seconds : Q)         (* time.sleep *)
| Message (text : string).    (* console.print *)

(** How the loop was left; [Waiting] is a loop that has consumed all the
    clock and key readings it was given and is about to take the next. *)
Inductive Exit : Type :=
| Returned
| Broke
| Waiting (st : TimerState).

(** What one iteration reads: the clock, then the key reader. *)
Definition Reading : Type := (Q * option string)%type.

Definition frame_at (duration : Z) (label : string) (now : Q)
  (st : TimerState) : Frame :=
  let elapsed := elapsed_at now st in
  let remaining := fsub (of_int duration) elapsed in
  {| header := build_header label remaining duration (paused st);
     completed := py_min elapsed (inject_Z duration) |}.

Definition remaining_at (duration : Z) (now : Q) (st : TimerState) : Q :=
  fsub (of_int duration) (elapsed_at now st).

Fixpoint loop (duration : Z) (label : string) (tick : Q) (st : TimerState)
  (readings : list Reading) : list Event * Exit :=
  match readings with
  | [] => ([], Waiting st)
  | (now, key) :: readings' =>
      match handle_key now key st with
      | None => ([], Returned)
      | Some st' =>
          let frame := frame_at duration label now st' in
          if Qle_bool (remaining_at duration now st') 0
          then ([Update frame], Broke)
          else
            let (events, exit) := loop duration label tick st' readings' in
            (Update frame :: Sleep tick :: events, exit)
      end
  end.

(** [run_timer], given the first clock reading and the later readings. *)
Definition run_timer (duration : Z) (label : string) (tick : Q)
  (clock0 : Q) (readings : list Reading) : list Event * Exit :=
  let st0 := {| start := clock0; elapsed_before_pause := 0; paused := false |} in
  let (events, exit) := loop duration label tick st0 readings in
  match exit with
  | Broke => (Add_task duration :: (events ++ [Message "Time's up!"])%list, exit)
  | _ => (Add_task duration :: events, exit)
  end.

(** ** The command *)

Inductive Outcome : Type :=
| BadParameter (msg : string)
| Ran (events : list Event) (exit : Exit).

Definition main (duration : string) (label : string) (tick : Q)
  (clock0 : Q) (readings : list Reading) : Outcome :=
  match (seconds <- parse_duration duration ;;
         _ <- validate_duration seconds ;;
         Ok seconds) with
  | Raise (ValueError msg) => BadParameter msg
  | Ok seconds =>
      if Qle_bool tick 0
      then BadParameter "--tick must be greater than 0"
      else let (events, exit) := run_timer seconds label tick clock0 readings in
           Ran events exit
  end.

(** ** Vocabulary of the timer's properties *)

Definition is_message (e : Event) : Prop :=
  match e with
  | Message _ => True
  | _ => False
  end.

(** A duration and a tick on which the arithmetic of a run raises no
    [OverflowError]: the duration converts to a float, which every integer
    under [2^1024 - 2^970] does and no other, and the tick to the signed
    64-bit count of nanoseconds that [time.sleep] takes, which every tick
    of at most [2^32] seconds does. *)
Definition in_range (duration : Z) (tick : Q) : Prop :=
  (Z.abs duration < 2 ^ 1024 - 2 ^ 970)%Z /\ tick <= inject_Z (2 ^ 32).

(** The frames among the events, in order. *)
Fixpoint frames (events : list Event) : list Frame :=
  match events with
  | [] => []
  | Update f :: events' => f :: frames events'
  | _ :: events' => frames events'
  end.

Definition pause_at (now : Q) (st : TimerState) : TimerState :=
  {| start := start st;
     elapsed_before_pause := fadd (elapsed_before_pause st) (fsub now (start st));
     paused := true |}.

Definition resume_at (now : Q) (st : TimerState) : TimerState :=
  {| start := now;
     elapsed_before_pause := elapsed_before_pause st;
     paused := false |}.

(** What a key asks for, whatever the state. *)
Inductive Action : Type :=
| Quits
| Toggles
| Starts
| Ignored.

Definition action_of (key : option string) : Action :=
  match key with
  | None => Ignored
  | Some k =>
      if PyStr.is_empty k then Ignored
      else if String.eqb (PyStr.lower k) "q" then Quits
      else if String.eqb (PyStr.lower k) "p" || String.eqb (PyStr.lower k) " "
      then Toggles
      else if String.eqb (PyStr.lower k) "s" then Starts
      else Ignored
  end.

Definition act (a : Action) (now : Q) (st : TimerState) : option TimerState :=
  match a with
  | Quits => None
  | Toggles => Some (if paused st then resume_at now st else pause_at now st)
  | Starts => Some (if paused st then resume_at now st else st)
  | Ignored => Some st
  end.

(** What the loop relies on between iterations: the elapsed time banked so
    far is a float and not negative, and a running timer was started no
    later than the last clock reading. *)
Definition clock_inv (last : Q) (st : TimerState) : Prop :=
  0 <= elapsed_before_pause st
  /\ rnd (elapsed_before_pause st) == elapsed_before_pause st
  /\ (paused st = false -> start st <= last).

(** Two frames one after the other: the percentage does not go down, and
    stays what it is when both show a paused timer. *)
Definition percent_step (f g : Frame) : Prop :=
  header_percent (header f) <= header_percent (header g)
  /\ (status (header f) = "Paused" -> status (header g) = "Paused" ->
      header_percent (header f) = header_percent (header g)).

(** A frame and a later one: the percentage has not gone down. *)
Definition percent_le (f g : Frame) : Prop :=
  header_percent (header f) <= header_percent (header g).

(** What every redraw of a run satisfies: it is the frame of some instant
    and state, its [completed] is the smaller of the elapsed time and the
    duration, and so at most the duration. *)
Definition frame_within (duration : Z) (label : string) (f : Frame) : Prop :=
  (exists now st,
     f = frame_at duration label now st
     /\ completed f = py_min (elapsed_at now st) (inject_Z duration))
  /\ completed f <= inject_Z duration.

(** The same readings with every clock value moved by [d]. *)
Definition delay (d : Q) (r : Reading) : Reading := (fst r + d, snd r).

(** Two states that differ only in that the second was started [d] later. *)
Definition state_shift (d : Q) (st1 st2 : TimerState) : Prop :=
  paused st1 = paused st2
  /\ elapsed_before_pause st1 == elapsed_before_pause st2
  /\ (paused st1 = false -> start st2 == start st1 + d).

Definition header_equiv (h1 h2 : Header) : Prop :=
  time_text h1 = time_text h2 /\ header_label h1 = header_label h2
  /\ header_percent h1 == header_percent h2 /\ status h1 = status h2.

Definition frame_equiv (f g : Frame) : Prop :=
  header_equiv (header f) (header g) /\ completed f == completed g.

(** The same event, up to the representation of its numbers. *)
Definition event_equiv (e1 e2 : Event) : Prop :=
  match e1, e2 with
  | Add_task a, Add_task b => a = b
  | Update f, Update g => frame_equiv f g
  | Sleep a, Sleep b => a == b
  | Message a, Message b => a = b
  | _, _ => False
  end.

Definition exit_shift (d : Q) (x1 x2 : Exit) : Prop :=
  match x1, x2 with
  | Returned, Returned => True
  | Broke, Broke => True
  | Waiting st1, Waiting st2 => state_shift d st1 st2
  | _, _ => False
  end.

(** The time spent running over the readings: the gap before a reading
    counts when the timer was running during it. *)
Fixpoint running_time (st : TimerState) (last : Q) (readings : list Reading)
  : Q :=
  match readings with
  | [] => 0
  | (now, key) :: readings' =>
      (if paused st then 0 else now - last)
      + match handle_key now key st with
        | Some st' => running_time st' now readings'
        | None => 0
        end
  end.

(** The last clock reading. *)
Definition final_clock (last : Q) (readings : list Reading) : Q :=
  List.last (map fst readings) last.

End Timer.

(** Exact arithmetic is a rounding. *)
#[refine] Instance exact_arithmetic : Rounding := {| rnd := fun x => x |}.
Proof.
  - intros x y H. exact H.
  - intros x. reflexivity.
  - intros m e _ _. reflexivity.
Defined.

(** ** Sample runs *)

(** A run that is paused, left paused, resumed with [S] and paused again. *)
Definition sample_readings : list Reading :=
  [(100, None); (101, Some "p"); (105, Some "z"); (110, Some "S");
   (111.5, None); (112.1, Some "P")].

(** A timer paused with one second banked. *)
Definition sample_paused : TimerState :=
  {| start := 100; elapsed_before_pause := 1; paused := true |}.

(** The timer at its first clock reading of 100. *)
Definition sample_started : TimerState :=
  {| start := 100; elapsed_before_pause := 0; paused := false |}.

(** * The display *)

(** [max(a, b)]: the first argument unless the second is larger. *)
Definition py_max (a b : Q) : Q := if Qltb a b then b else a.

(** Rounding to the nearest integer, a tie going to the even one: how a
    float is rounded when it is formatted. *)
Definition round_half_even (q : Q) : Z :=
  let f := Qfloor q in
  match Qcompare (q - inject_Z f) (1 # 2) with
  | Lt => f
  | Gt => (f + 1)%Z
  | Eq => if Z.even f then f else (f + 1)%Z
  end.

(** [f"{x:.1f}"] *)
Definition format_1f (x : Q) : string :=
  let tenths := round_half_even (Qabs x * 10) in
  (if Qltb x 0 then "-" else "")
  ++ decimal (tenths / 10) ++ "." ++ String (digit_char (tenths mod 10)) "".

(** [s.rjust(width)] *)
Definition rjust (width : nat) (s : string) : string :=
  string_of_list_ascii (repeat " "%char (width - String.length s)) ++ s.

(** [f"{x:5.1f}"] *)
Definition format_5_1f (x : Q) : string := rjust 5 (format_1f x).

Fixpoint rfind_from (sub s : string) (i : Z) : Z :=
  match s with
  | EmptyString => if prefix sub "" then i else (-1)%Z
  | String _ s' =>
      let later := rfind_from sub s' (i + 1) in
      if (0 <=? later)%Z then later
      else if prefix sub s then i else (-1)%Z
  end.

(** [s.rfind(sub)]: the highest index at which [sub] starts in [s], or -1. *)
Definition rfind (s sub : string) : Z := rfind_from sub s 0.

(** [s[i:j]] for [0 <= i <= j]. *)
Definition slice (s : string) (i j : Z) : string :=
  substring (Z.to_nat i) (Z.to_nat (j - i)) s.

(** The line below the clock in [build_header], as the text given to
    [Text].  [Text] drops some control characters, which only the label
    can have: its [plain] is this text for the label without them. *)
Definition sub_text (label : string) (percent : Q) (paused : bool) : string :=
  let status := if paused then "Paused" else "Running" in
  label ++ "  |  " ++ format_5_1f percent ++ "%  |  " ++ status.

(** The start and the end of the part of that line that [build_header]
    gives the style of the status. *)
Definition status_span (label : string) (percent : Q) (paused : bool)
  : Z * Z :=
  let status := if paused then "Paused" else "Running" in
  let plain := sub_text label percent paused in
  (rfind plain status, Z.of_nat (String.length plain)).

Section Display.

Context {R : Rounding}.

(** The refresh rate that [run_timer] gives to [Live]:
    [max(4, int(1 / max(tick, 0.05)))], for a tick that is a number: on a
    NaN, which passes the check of [main], [int] raises [ValueError]. *)
Definition refresh_per_second (tick : Q) : Z :=
  Z.max 4 (trunc (fdiv 1 (py_max tick (rnd (1 # 20))))).

End Display.

(** ** Binary64

    The rounding of the interpreter's floats: to the nearest number with
    53 bits, a tie going to the even one, with exponents from -1074 up
    and no upper limit (overflow is outside the model).  It satisfies the
    laws of [Rounding]. *)

Module Binary64.

(** [floor (log2 |q|)] for [q] other than 0. *)
Definition ilog2 (q : Q) : Z :=
  let k := (Z.log2 (Z.abs (Qnum q)) - Z.log2 (Zpos (Qden q)))%Z in
  if Qle_bool (2 ^ k) (Qabs q) then k else (k - 1)%Z.

(** The exponent of the last place of the binary64 numbers around [q]. *)
Definition ulp_exponent (q : Q) : Z := Z.max (-1074) (ilog2 q - 52).

(** Rounding to the nearest binary64 number, a tie going to the even
    one; the exponent has no upper limit. *)
Definition round64 (q : Q) : Q :=
  let e := ulp_exponent q in
  let m := inject_Z (round_half_even (Qabs q / 2 ^ e)) * 2 ^ e in
  if Qltb q 0 then - m else m.

Lemma pow2_pos (e : Z) : 0 < 2 ^ e.
Proof. apply Qpower_0_lt. reflexivity. Qed.

Lemma pow2_plus (a b : Z) : 2 ^ (a + b) == 2 ^ a * 2 ^ b.
Proof. apply Qpower_plus. discriminate. Qed.

Lemma pow2_Z (n : Z) : (0 <= n)%Z -> inject_Z (2 ^ n) == 2 ^ n.
Proof. intros H. rewrite Zpower_Qpower by exact H. reflexivity. Qed.

Lemma pow2_le (a b : Z) : (a <= b)%Z -> 2 ^ a <= 2 ^ b.
Proof. intros H. apply Qpower_le_compat_l; [exact H|discriminate]. Qed.

Lemma pow2_lt (a b : Z) : (a < b)%Z -> 2 ^ a < 2 ^ b.
Proof. intros H. apply Qpower_lt_compat_l; [exact H|reflexivity]. Qed.

Lemma pow2_lt_inv (a b : Z) : 2 ^ a < 2 ^ b -> (a < b)%Z.
Proof. intros H. apply (Qpower_lt_compat_l_inv 2); [exact H|reflexivity]. Qed.

Lemma ilog2_spec (q : Q) :
  ~ q == 0 -> 2 ^ ilog2 q <= Qabs q /\ Qabs q < 2 ^ (ilog2 q + 1).
Proof.
  intros Hq. unfold ilog2. cbv zeta.
  destruct q as [n d]. cbn [Qnum Qden].
  assert (Hn : (0 < Z.abs n)%Z).
  { unfold Qeq in Hq. cbn in Hq. lia. }
  set (a := Z.log2 (Z.abs n)). set (b := Z.log2 (Zpos d)).
  assert (Ha : (2 ^ a <= Z.abs n < 2 ^ (a + 1))%Z).
  { pose proof (Z.log2_spec (Z.abs n) Hn). unfold a. rewrite <- Z.add_1_r in *. lia. }
  assert (Hb : (2 ^ b <= Zpos d < 2 ^ (b + 1))%Z).
  { pose proof (Z.log2_spec (Zpos d) ltac:(lia)). unfold b. rewrite <- Z.add_1_r in *. lia. }
  assert (Ha0 : (0 <= a)%Z) by apply Z.log2_nonneg.
  assert (Hb0 : (0 <= b)%Z) by apply Z.log2_nonneg.
  assert (Eq : Qabs (n # d) * inject_Z (Zpos d) == inject_Z (Z.abs n)).
  { unfold Qabs, Qeq, Qmult, inject_Z. cbn. lia. }
  set (x := Qabs (n # d)) in *.
  assert (Hx : 0 <= x) by apply Qabs_nonneg.
  (* the bounds on numerator and denominator, as rationals *)
  assert (A1 : 2 ^ a <= inject_Z (Z.abs n)).
  { rewrite <- pow2_Z by exact Ha0. rewrite <- Zle_Qle. lia. }
  assert (A2 : inject_Z (Z.abs n) < 2 ^ (a + 1)).
  { rewrite <- pow2_Z by lia. rewrite <- Zlt_Qlt. lia. }
  assert (B1 : 2 ^ b <= inject_Z (Zpos d)).
  { rewrite <- pow2_Z by exact Hb0. rewrite <- Zle_Qle. lia. }
  assert (B2 : inject_Z (Zpos d) < 2 ^ (b + 1)).
  { rewrite <- pow2_Z by lia. rewrite <- Zlt_Qlt. lia. }
  pose proof (pow2_pos b) as Pb.
  assert (Up : x < 2 ^ (a - b + 1)).
  { assert (E : 2 ^ (a + 1) == 2 ^ (a - b + 1) * 2 ^ b).
    { rewrite <- pow2_plus. f_equiv. lia. }
    rewrite E in A2. pose proof (pow2_pos (a - b + 1)).
    set (p := 2 ^ (a - b + 1)) in *. set (pb := 2 ^ b) in *.
    set (dd := inject_Z (Zpos d)) in *. nra. }
  assert (Lo : 2 ^ (a - b - 1) < x).
  { assert (E : 2 ^ a == 2 ^ (a - b - 1) * 2 ^ (b + 1)).
    { rewrite <- pow2_plus. f_equiv. lia. }
    rewrite E in A1. pose proof (pow2_pos (a - b - 1)).
    set (p := 2 ^ (a - b - 1)) in *. set (pb := 2 ^ (b + 1)) in *.
    set (dd := inject_Z (Zpos d)) in *. nra. }
  destruct (Qle_bool (2 ^ (a - b)) x) eqn:E.
  - apply Qle_bool_iff in E. split; assumption.
  - assert (Hlt : x < 2 ^ (a - b)).
    { apply Qnot_le_lt. intros H. apply Qle_bool_iff in H. congruence. }
    split; [apply Qlt_le_weak, Lo|].
    replace (a - b - 1 + 1)%Z with (a - b)%Z by lia. exact Hlt.
Qed.

Lemma ilog2_unique (q : Q) (k : Z) :
  2 ^ k <= Qabs q -> Qabs q < 2 ^ (k + 1) -> ilog2 q = k.
Proof.
  intros Hlo Hhi.
  assert (Hq : ~ q == 0).
  { intros E. rewrite E in Hlo. pose proof (pow2_pos k). cbn in Hlo. lra. }
  destruct (ilog2_spec q Hq) as [Slo Shi].
  assert (ilog2 q < k + 1)%Z.
  { apply pow2_lt_inv. eapply Qle_lt_trans; eassumption. }
  assert (k < ilog2 q + 1)%Z.
  { apply pow2_lt_inv. eapply Qle_lt_trans; eassumption. }
  lia.
Qed.

#[local] Instance round_half_even_proper : Proper (Qeq ==> eq) round_half_even.
Proof.
  intros x y E. unfold round_half_even. cbv zeta.
  assert (Ef : Qfloor x = Qfloor y) by (rewrite E; reflexivity).
  rewrite Ef.
  assert (Ec : (x - inject_Z (Qfloor y) ?= 1 # 2)
               = (y - inject_Z (Qfloor y) ?= 1 # 2)).
  { rewrite E. reflexivity. }
  rewrite Ec. reflexivity.
Qed.

Lemma round_half_even_Z (n : Z) : round_half_even (inject_Z n) = n.
Proof.
  unfold round_half_even. cbv zeta. rewrite Qfloor_Z.
  assert (E : (inject_Z n - inject_Z n ?= 1 # 2) = Lt).
  { apply (proj1 (Qlt_alt _ _)). set (z := inject_Z n). lra. }
  rewrite E. reflexivity.
Qed.

Lemma round_half_even_cases (q : Q) :
  (round_half_even q = Qfloor q /\ q - inject_Z (Qfloor q) <= 1 # 2)
  \/ (round_half_even q = (Qfloor q + 1)%Z /\ 1 # 2 <= q - inject_Z (Qfloor q)).
Proof.
  unfold round_half_even. cbv zeta.
  destruct (q - inject_Z (Qfloor q) ?= 1 # 2) eqn:E.
  - apply Qeq_alt in E. destruct (Z.even (Qfloor q)); [left|right];
      (split; [reflexivity|rewrite E; apply Qle_refl]).
  - apply Qlt_alt in E. left. split; [reflexivity|apply Qlt_le_weak, E].
  - apply Qgt_alt in E. right. split; [reflexivity|apply Qlt_le_weak, E].
Qed.

Lemma round_half_even_monotone (x y : Q) :
  x <= y -> (round_half_even x <= round_half_even y)%Z.
Proof.
  intros H. pose proof (Qfloor_resp_le x y H) as Hf.
  destruct (Z.eq_dec (Qfloor x) (Qfloor y)) as [E|Hne].
  - unfold round_half_even. cbv zeta. rewrite E.
    destruct (x - inject_Z (Qfloor y) ?= 1 # 2) eqn:Ex;
      destruct (y - inject_Z (Qfloor y) ?= 1 # 2) eqn:Ey;
      try (destruct (Z.even (Qfloor y))); try lia;
      repeat match goal with
        | H : (_ ?= _) = Eq |- _ => apply Qeq_alt in H
        | H : (_ ?= _) = Lt |- _ => apply Qlt_alt in H
        | H : (_ ?= _) = Gt |- _ => apply Qgt_alt in H
        end; lra.
  - destruct (round_half_even_cases x) as [[-> _]|[-> _]];
      destruct (round_half_even_cases y) as [[-> _]|[-> _]]; lia.
Qed.

Lemma round_half_even_nonneg (q : Q) : 0 <= q -> (0 <= round_half_even q)%Z.
Proof.
  intros H. rewrite <- (round_half_even_Z 0).
  apply round_half_even_monotone, H.
Qed.

Definition scaled (q : Q) : Q :=
  inject_Z (round_half_even (Qabs q / 2 ^ ulp_exponent q))
  * 2 ^ ulp_exponent q.

Lemma round64_scaled (q : Q) :
  round64 q = if Qltb q 0 then - scaled q else scaled q.
Proof. reflexivity. Qed.

Lemma scaled_nonneg (q : Q) : 0 <= scaled q.
Proof.
  unfold scaled. apply Qmult_le_0_compat; [|apply Qlt_le_weak, pow2_pos].
  change 0 with (inject_Z 0). rewrite <- Zle_Qle.
  apply round_half_even_nonneg.
  apply Qle_shift_div_l; [apply pow2_pos|]. rewrite Qmult_0_l. apply Qabs_nonneg.
Qed.

Lemma Qabs_positive (x : Q) : ~ x == 0 -> 0 < Qabs x.
Proof.
  intros Hx. apply Qabs_case; intros H.
  - destruct (Qlt_le_dec 0 x); [assumption|]. exfalso. apply Hx. lra.
  - destruct (Qlt_le_dec x 0); [lra|]. exfalso. apply Hx. lra.
Qed.

Lemma ulp_exponent_monotone (x y : Q) :
  ~ x == 0 -> Qabs x <= Qabs y -> (ulp_exponent x <= ulp_exponent y)%Z.
Proof.
  intros Hx H.
  assert (Hy : ~ y == 0).
  { intros E. rewrite E in H. change (Qabs 0) with 0 in H.
    pose proof (Qabs_positive x Hx). lra. }
  destruct (ilog2_spec x Hx) as [Xlo Xhi].
  destruct (ilog2_spec y Hy) as [Ylo Yhi].
  assert (ilog2 x < ilog2 y + 1)%Z.
  { apply pow2_lt_inv. lra. }
  unfold ulp_exponent. lia.
Qed.

Lemma scaled_below (q : Q) (n : Z) :
  Qabs q <= inject_Z n * 2 ^ ulp_exponent q ->
  scaled q <= inject_Z n * 2 ^ ulp_exponent q.
Proof.
  intros H. unfold scaled.
  apply Qmult_le_compat_r; [|apply Qlt_le_weak, pow2_pos].
  rewrite <- Zle_Qle.
  apply Z.le_trans with (round_half_even (inject_Z n));
    [|rewrite round_half_even_Z; lia].
  apply round_half_even_monotone.
  apply Qle_shift_div_r; [apply pow2_pos|exact H].
Qed.

Lemma scaled_above (q : Q) (n : Z) :
  inject_Z n * 2 ^ ulp_exponent q <= Qabs q ->
  inject_Z n * 2 ^ ulp_exponent q <= scaled q.
Proof.
  intros H. unfold scaled.
  apply Qmult_le_compat_r; [|apply Qlt_le_weak, pow2_pos].
  rewrite <- Zle_Qle.
  apply Z.le_trans with (round_half_even (inject_Z n));
    [rewrite round_half_even_Z; lia|].
  apply round_half_even_monotone.
  apply Qle_shift_div_l; [apply pow2_pos|exact H].
Qed.

(** A magnitude with [k = ilog2 q] is rounded within [2^k, 2^(k+1)]. *)
Lemma scaled_upper (q : Q) :
  ~ q == 0 -> scaled q <= 2 ^ (ulp_exponent q + 53).
Proof.
  intros Hq. destruct (ilog2_spec q Hq) as [_ Hhi].
  rewrite pow2_plus, Qmult_comm, <- (pow2_Z 53) by lia.
  apply scaled_below. rewrite (pow2_Z 53), Qmult_comm, <- pow2_plus by lia.
  apply Qlt_le_weak. eapply Qlt_le_trans; [exact Hhi|].
  apply pow2_le. unfold ulp_exponent. lia.
Qed.

Lemma scaled_lower (q : Q) :
  ~ q == 0 -> (-1074 < ulp_exponent q)%Z ->
  2 ^ (ulp_exponent q + 52) <= scaled q.
Proof.
  intros Hq He. destruct (ilog2_spec q Hq) as [Hlo _].
  rewrite pow2_plus, Qmult_comm, <- (pow2_Z 52) by lia.
  apply scaled_above. rewrite (pow2_Z 52), Qmult_comm, <- pow2_plus by lia.
  eapply Qle_trans; [|exact Hlo].
  apply pow2_le. unfold ulp_exponent in *. lia.
Qed.

Lemma scaled_monotone (x y : Q) :
  Qabs x <= Qabs y -> scaled x <= scaled y.
Proof.
  intros H. destruct (Qeq_dec x 0) as [Ex|Hx].
  - assert (E0 : scaled x == 0).
    { unfold scaled.
      assert (Ea : Qabs x == 0) by (rewrite Ex; reflexivity).
      assert (E : Qabs x / 2 ^ ulp_exponent x == inject_Z 0)
        by (rewrite Ea; unfold Qdiv; rewrite Qmult_0_l; reflexivity).
      rewrite E, round_half_even_Z. apply Qmult_0_l. }
    rewrite E0. apply scaled_nonneg.
  - assert (Hy : ~ y == 0).
    { intros E. rewrite E in H. change (Qabs 0) with 0 in H.
      pose proof (Qabs_positive x Hx). lra. }
    pose proof (ulp_exponent_monotone x y Hx H) as He.
    destruct (Z.eq_dec (ulp_exponent x) (ulp_exponent y)) as [E|Hne].
    + unfold scaled. rewrite E.
      apply Qmult_le_compat_r; [|apply Qlt_le_weak, pow2_pos].
      rewrite <- Zle_Qle. apply round_half_even_monotone.
      apply Qmult_le_compat_r; [exact H|].
      apply Qinv_le_0_compat, Qlt_le_weak, pow2_pos.
    + eapply Qle_trans; [apply scaled_upper, Hx|].
      eapply Qle_trans; [|apply scaled_lower; [exact Hy|]].
      * apply pow2_le. lia.
      * unfold ulp_exponent in *. lia.
Qed.

Lemma Qltb_lt (x y : Q) : Qltb x y = true <-> x < y.
Proof.
  unfold Qltb. destruct (x ?= y) eqn:E.
  - apply Qeq_alt in E. split; [discriminate|lra].
  - apply Qlt_alt in E. tauto.
  - apply Qgt_alt in E. split; [discriminate|lra].
Qed.

Lemma Qabs_neg_eq (x : Q) : x <= 0 -> Qabs x == - x.
Proof. apply Qabs_neg. Qed.

Lemma round64_monotone (x y : Q) : x <= y -> round64 x <= round64 y.
Proof.
  intros H. rewrite !round64_scaled.
  pose proof (scaled_nonneg x). pose proof (scaled_nonneg y).
  destruct (Qltb x 0) eqn:Ex, (Qltb y 0) eqn:Ey.
  - apply Qltb_lt in Ex, Ey.
    assert (Hs : scaled y <= scaled x).
    { apply scaled_monotone. rewrite !Qabs_neg by lra. lra. }
    lra.
  - lra.
  - apply Qltb_lt in Ey.
    assert (Hx : ~ x < 0) by (intros Hx; apply Qltb_lt in Hx; congruence).
    lra.
  - assert (Hx : ~ x < 0) by (intros Hx; apply Qltb_lt in Hx; congruence).
    apply scaled_monotone. rewrite !Qabs_pos; lra.
Qed.

Lemma scaled_zero (q : Q) : q == 0 -> scaled q == 0.
Proof.
  intros Eq. unfold scaled.
  assert (Ea : Qabs q == 0) by (rewrite Eq; reflexivity).
  assert (E : Qabs q / 2 ^ ulp_exponent q == inject_Z 0)
    by (rewrite Ea; unfold Qdiv; rewrite Qmult_0_l; reflexivity).
  rewrite E, round_half_even_Z. apply Qmult_0_l.
Qed.

Lemma round64_fixed (q : Q) : scaled q == Qabs q -> round64 q == q.
Proof.
  intros E. rewrite round64_scaled.
  destruct (Qltb q 0) eqn:Hq; rewrite E.
  - apply Qltb_lt in Hq. rewrite Qabs_neg by lra. ring.
  - assert (Hn : ~ q < 0) by (intros H; apply Qltb_lt in H; congruence).
    apply Qabs_pos. lra.
Qed.

Lemma Qabs_scaled_int (m e : Z) :
  Qabs (inject_Z m * 2 ^ e) == inject_Z (Z.abs m) * 2 ^ e.
Proof.
  rewrite Qabs_Qmult. rewrite (Qabs_pos (2 ^ e)) by apply Qlt_le_weak, pow2_pos.
  reflexivity.
Qed.

Lemma scaled_representable (q : Q) (m e : Z) :
  q == inject_Z m * 2 ^ e -> (Z.abs m < 2 ^ 53)%Z -> (-1074 <= e)%Z ->
  scaled q == Qabs q.
Proof.
  intros Eq Hm He. destruct (Z.eq_dec m 0) as [->|Hm0].
  - assert (E0 : q == 0) by (rewrite Eq; apply Qmult_0_l).
    rewrite (scaled_zero q E0), E0. reflexivity.
  - assert (Ea : Qabs q == inject_Z (Z.abs m) * 2 ^ e).
    { rewrite Eq. apply Qabs_scaled_int. }
    assert (Hq : ~ q == 0).
    { intros E0. rewrite E0 in Ea. change (Qabs 0) with 0 in Ea.
      pose proof (pow2_pos e).
      assert (1 <= inject_Z (Z.abs m)).
      { change 1 with (inject_Z 1). rewrite <- Zle_Qle. lia. }
      set (a := inject_Z (Z.abs m)) in *. set (p := 2 ^ e) in *. nra. }
    destruct (ilog2_spec q Hq) as [Hlo _].
    assert (Hk : (ilog2 q < e + 53)%Z).
    { apply pow2_lt_inv. eapply Qle_lt_trans; [exact Hlo|].
      rewrite Ea, pow2_plus, (Qmult_comm (2 ^ e)).
      apply Qmult_lt_compat_r; [apply pow2_pos|].
      rewrite <- (pow2_Z 53) by lia. rewrite <- Zlt_Qlt. exact Hm. }
    set (e' := ulp_exponent q).
    assert (He' : (e' <= e)%Z) by (unfold e', ulp_exponent; lia).
    assert (Ep : 2 ^ e == inject_Z (2 ^ (e - e')) * 2 ^ e').
    { rewrite pow2_Z by lia. rewrite <- pow2_plus. f_equiv. lia. }
    assert (Ed : Qabs q / 2 ^ e' == inject_Z (Z.abs m * 2 ^ (e - e'))).
    { rewrite Ea, Ep, inject_Z_mult. field.
      pose proof (pow2_pos e'). lra. }
    unfold scaled. fold e'. rewrite Ed, round_half_even_Z, inject_Z_mult.
    rewrite Ea, Ep. ring.
Qed.

Lemma round64_representable (q : Q) (m e : Z) :
  q == inject_Z m * 2 ^ e -> (Z.abs m < 2 ^ 53)%Z -> (-1074 <= e)%Z ->
  round64 q == q.
Proof.
  intros Eq Hm He. apply round64_fixed.
  apply (scaled_representable q m e); assumption.
Qed.

(** What [round64] returns is a binary64 number. *)
Lemma scaled_is_float (q : Q) :
  exists m e : Z,
    scaled q == inject_Z m * 2 ^ e
    /\ (0 <= m < 2 ^ 53)%Z /\ (-1074 <= e)%Z.
Proof.
  destruct (Qeq_dec q 0) as [E0|Hq].
  - exists 0%Z, 0%Z. rewrite (scaled_zero q E0).
    split; [rewrite Qmult_0_l; reflexivity|]. split; [split; [lia|reflexivity]|lia].
  - set (e := ulp_exponent q).
    set (M := round_half_even (Qabs q / 2 ^ e)).
    assert (He : (-1074 <= e)%Z) by (unfold e, ulp_exponent; lia).
    assert (H0 : (0 <= M)%Z).
    { apply round_half_even_nonneg.
      apply Qle_shift_div_l; [apply pow2_pos|].
      rewrite Qmult_0_l. apply Qabs_nonneg. }
    assert (H1 : (M <= 2 ^ 53)%Z).
    { pose proof (scaled_upper q Hq) as Hu. unfold scaled in Hu. fold e M in Hu.
      rewrite pow2_plus, Qmult_comm in Hu.
      pose proof (pow2_pos e) as Pe.
      rewrite <- (pow2_Z 53) in Hu by lia.
      rewrite Zle_Qle.
      set (a := inject_Z M) in *. set (b := inject_Z (2 ^ 53)) in *.
      set (p := 2 ^ e) in *. nra. }
    destruct (Z.eq_dec M (2 ^ 53)) as [E|Hne].
    + exists (2 ^ 52)%Z, (e + 1)%Z. unfold scaled. fold e M.
      split; [|split; [split; [lia|reflexivity]|lia]].
      rewrite E, pow2_plus, !pow2_Z by lia.
      rewrite <- !pow2_plus. f_equiv. lia.
    + exists M, e. unfold scaled. fold e M.
      split; [reflexivity|]. split; [lia|exact He].
Qed.

Lemma round64_idempotent (q : Q) : round64 (round64 q) == round64 q.
Proof.
  destruct (scaled_is_float q) as (m & e & E & Hm & He).
  rewrite (round64_scaled q). destruct (Qltb q 0).
  - apply (round64_representable _ (- m) e); [|lia|exact He].
    rewrite E, inject_Z_opp. ring.
  - apply (round64_representable _ m e); [exact E|lia|exact He].
Qed.

Definition binary64 : Rounding :=
  {| rnd := round64;
     rnd_monotone := round64_monotone;
     rnd_idempotent := round64_idempotent;
     rnd_representable := fun m e Hm He =>
       round64_representable (inject_Z m * 2 ^ e) m e (Qeq_refl _) Hm (proj1 He) |}.

End Binary64.


(** ** The big clock *)

(** Text with characters beyond Latin-1: a list of code points. *)
Definition text : Type := list N.

Definition of_string (s : string) : text :=
  map N_of_ascii (list_ascii_of_string s).

(** The character between the glyphs, U+2591. *)
Definition gap : N := 9617%N.

Inductive lookup_error : Type :=
| KeyError (key : N)
| IndexError.

(** [sep.join(lines)] *)
Fixpoint join (sep : N) (lines : list text) : text :=
  match lines with
  | [] => []
  | [line] => line
  | line :: lines' => (line ++ sep :: join sep lines')%list
  end.

Section BigTime.

(** The table [BIG_GLYPHS] of the module [glyphs], read at the key of one
    character: the rows of its glyph, if it has one. *)
Variable BIG_GLYPHS : N -> option (list text).

(** [BIG_GLYPHS[key]] *)
Definition subscript (key : N) : lookup_error + list text :=
  match BIG_GLYPHS key with
  | Some glyph => inr glyph
  | None => inl (KeyError key)
  end.

(** [for idx, row in enumerate(glyph): lines[idx] += f"{row}{gap}"] *)
Fixpoint add_glyph (lines glyph : list text) {struct glyph}
  : lookup_error + list text :=
  match glyph with
  | [] => inr lines
  | row :: glyph' =>
      match lines with
      | [] => inl IndexError
      | line :: lines' =>
          match add_glyph lines' glyph' with
          | inr rest => inr ((line ++ row ++ [gap])%list :: rest)
          | inl e => inl e
          end
      end
  end.

(** The loop over the characters; the default [BIG_GLYPHS[" "]] is
    evaluated for each of them before the table is asked. *)
Fixpoint add_glyphs (time_str : text) (lines : list text)
  : lookup_error + list text :=
  match time_str with
  | [] => inr lines
  | ch :: rest =>
      match subscript 32 with
      | inl e => inl e
      | inr blank =>
          let glyph := match BIG_GLYPHS ch with
                       | Some glyph => glyph
                       | None => blank
                       end in
          match add_glyph lines glyph with
          | inr lines' => add_glyphs rest lines'
          | inl e => inl e
          end
      end
  end.

(** The lines of [render_big_time] before they are joined. *)
Definition big_lines (time_str : text) : lookup_error + list text :=
  match subscript 48 with
  | inl e => inl e
  | inr zero => add_glyphs time_str (repeat [gap] (List.length zero))
  end.

(** The text that [render_big_time] gives to [Text]. *)
Definition render_big_time (time_str : text) : lookup_error + text :=
  match big_lines time_str with
  | inl e => inl e
  | inr lines => inr (join 10 lines)
  end.

(** The glyph drawn for a character: its own, or that of the blank. *)
Definition drawn (ch : N) : option (list text) :=
  match BIG_GLYPHS ch with
  | Some glyph => Some glyph
  | None => BIG_GLYPHS 32
  end.

(** The height of the glyph drawn for [ch] is at most [height]. *)
Definition fits (height : nat) (ch : N) : Prop :=
  match drawn ch with
  | Some glyph => (List.length glyph <= height)%nat
  | None => False
  end.


End BigTime.

(** A table of two glyphs, two rows of two characters each. *)
Definition sample_glyphs (ch : N) : option (list text) :=
  if (ch =? 48)%N then Some [[9608; 9608]; [9608; 9608]]%N
  else if (ch =? 32)%N then Some [[32; 32]; [32; 32]]%N
  else None.

(** ** The key reader *)

Inductive os_error : Type :=
| termios_error.

Section KeyReader.

(** The attributes of a terminal, as [termios.tcgetattr] returns them,
    and what [tty.setcbreak] makes of them. *)
Variable Attrs : Type.
Variable cbreak : Attrs -> Attrs.

(** Standard input: the attributes of its terminal, or [None] when it is
    not a terminal. *)
Definition Terminal : Type := option Attrs.

Definition tcgetattr (t : Terminal) : os_error + Attrs :=
  match t with
  | Some a => inr a
  | None => inl termios_error
  end.

Definition tcsetattr (t : Terminal) (a : Attrs) : os_error + Terminal :=
  match t with
  | Some _ => inr (Some a)
  | None => inl termios_error
  end.

Definition setcbreak (t : Terminal) : os_error + Terminal :=
  match tcgetattr t with
  | inr a => tcsetattr t (cbreak a)
  | inl e => inl e
  end.

Record KeyReader : Type := {
  _use_windows : bool;
  _fd : option Z;
  _old_settings : option Attrs
}.

(** [KeyReader()], on a platform that is [win32] or not. *)
Definition KeyReader_init (win32 : bool) : KeyReader :=
  {| _use_windows := win32; _fd := None; _old_settings := None |}.

(** [__enter__], [fileno] being the descriptor of standard input. *)
Definition KeyReader_enter (self : KeyReader) (fileno : Z) (t : Terminal)
  : os_error + KeyReader * Terminal :=
  if _use_windows self then inr (self, t)
  else
    match tcgetattr t with
    | inl e => inl e
    | inr old =>
        match setcbreak t with
        | inl e => inl e
        | inr t' =>
            inr ({| _use_windows := _use_windows self;
                    _fd := Some fileno;
                    _old_settings := Some old |}, t')
        end
    end.

(** [__exit__] *)
Definition KeyReader_exit (self : KeyReader) (t : Terminal)
  : os_error + Terminal :=
  match _use_windows self, _fd self, _old_settings self with
  | false, Some _, Some old => tcsetattr t old
  | _, _, _ => inr t
  end.

(** [with KeyReader() as keys: body]: [__exit__] runs however the body
    is left, and not at all when [__enter__] raises.  The body is what it
    does to the terminal. *)
Definition with_KeyReader (win32 : bool) (fileno : Z)
  (body : KeyReader -> Terminal -> Terminal) (t : Terminal)
  : os_error + Terminal :=
  match KeyReader_enter (KeyReader_init win32) fileno t with
  | inl e => inl e
  | inr (keys, t') => KeyReader_exit keys (body keys t')
  end.

End KeyReader.

(** ** The command on a terminal *)

Section Command.

Variable Attrs : Type.
Variable cbreak : Attrs -> Attrs.

Context {R : Rounding}.

(** How the command ends: with the parameter error of the command-line
    library, with an exception that nothing catches, after the events
    shown so far, or at the end of [run_timer], with the terminal as the
    key reader leaves it. *)
Inductive Ending : Type :=
| Usage (msg : string)
| Crashed (e : os_error) (events : list Event)
| Finished (events : list Event) (exit : Exit) (t : Terminal Attrs).

(** [run_timer] with the key reader around its loop: the progress task is
    opened, then the reader is entered, which fails when standard input is
    not a terminal; the loop itself leaves the attributes as they are. *)
Definition run_timer_on (win32 : bool) (fileno : Z) (t : Terminal Attrs)
  (duration : Z) (label : string) (tick : Q) (clock0 : Q)
  (readings : list Reading) : Ending :=
  match with_KeyReader Attrs cbreak win32 fileno (fun _ t' => t') t with
  | inl e => Crashed e [Add_task duration]
  | inr t' =>
      let (events, exit) := run_timer duration label tick clock0 readings in
      Finished events exit t'
  end.

(** [main] on a platform and a standard input. *)
Definition main_on (win32 : bool) (fileno : Z) (t : Terminal Attrs)
  (duration : string) (label : string) (tick : Q) (clock0 : Q)
  (readings : list Reading) : Ending :=
  match (seconds <- parse_duration duration ;;
         _ <- validate_duration seconds ;;
         Ok seconds) with
  | Raise (ValueError msg) => Usage msg
  | Ok seconds =>
      if Qle_bool tick 0
      then Usage "--tick must be greater than 0"
      else run_timer_on win32 fileno t seconds label tick clock0 readings
  end.

(** The exit status of the process.  It is not computed by the source:
    2 is what the command-line library exits with on a parameter error,
    1 what the interpreter exits with on an exception that nothing
    catches, 0 what it exits with when the command returns. *)
Definition ending_status (e : Ending) : option Z :=
  match e with
  | Usage _ => Some 2%Z
  | Crashed _ _ => Some 1%Z
  | Finished _ Returned _ | Finished _ Broke _ => Some 0%Z
  | Finished _ (Waiting _) _ => None
  end.

End Command.

(** * Vocabulary of the further properties *)

Module Accepts.
Import PyStr Re.

Local Open Scope Z_scope.

(** The characters a pattern can consume. *)
Fixpoint alphabet (r : regex) (c : ascii) : bool :=
  match r with
  | Bol | Eol => false
  | Lit l => Ascii.eqb (lower_char c) (lower_char l)
  | Star p | Plus p => p c
  | Cat r1 r2 => alphabet r1 c || alphabet r2 c
  | Opt r' | Group _ r' => alphabet r' c
  end.

(** The pattern ends with [$]. *)
Fixpoint anchored (r : regex) : bool :=
  match r with
  | Eol => true
  | Cat _ r2 => anchored r2
  | _ => false
  end.

(** The end of the text, or a newline just before it. *)
Definition at_end (s : string) : Prop :=
  s = "" \/ s = String newline "".

(** A decimal digit, white space, a colon, or one of [h], [m] and [s] in
    either case. *)
Definition allowed (c : ascii) : bool :=
  is_decimal c || is_space c || Ascii.eqb c ":"
  || Ascii.eqb (lower_char c) "h" || Ascii.eqb (lower_char c) "m"
  || Ascii.eqb (lower_char c) "s".

(** What the colon form accepts: two or three components that strip to
    runs of decimal digits, read as minutes and seconds, or as hours,
    minutes and seconds. *)
Definition colon_reading (value : string) (n : Z) : Prop :=
  (exists m s,
     map strip (split ":" value) = [m; s]
     /\ isdecimal m = true /\ isdecimal s = true
     /\ n = decimal_value m * 60 + decimal_value s)
  \/ (exists h m s,
        map strip (split ":" value) = [h; m; s]
        /\ isdecimal h = true /\ isdecimal m = true /\ isdecimal s = true
        /\ n = decimal_value h * 3600 + decimal_value m * 60 + decimal_value s).

(** A text that has a character and is not made of digits only. *)
Definition marked (s : string) : Prop :=
  is_empty s = false /\ forallb_str is_digit s = false.

(** What the suffix form accepts: the groups of hours, minutes and
    seconds in that order, at least one of them, each a run of decimal
    digits and its letter in either case, with white space allowed before,
    between and after them. *)
Definition suffix_reading (value : string) (n : Z) : Prop :=
  exists (w0 w1 w2 w3 : string) (oh om os : option string) (xh xm xs : ascii),
    value = w0 ++ Vocabulary.group_text oh xh ++ w1
               ++ Vocabulary.group_text om xm ++ w2
               ++ Vocabulary.group_text os xs ++ w3
    /\ forallb_str is_space w0 = true /\ forallb_str is_space w1 = true
    /\ forallb_str is_space w2 = true /\ forallb_str is_space w3 = true
    /\ Vocabulary.group_digits oh /\ Vocabulary.group_digits om
    /\ Vocabulary.group_digits os
    /\ Vocabulary.unit_letter "h" xh /\ Vocabulary.unit_letter "m" xm
    /\ Vocabulary.unit_letter "s" xs
    /\ (oh <> None \/ om <> None \/ os <> None)
    /\ n = Vocabulary.group_value oh * 3600 + Vocabulary.group_value om * 60
           + Vocabulary.group_value os.

End Accepts.

(** What a run shows, frame after frame. *)

(** The clock text of the second frame reads, as a duration, no more
    seconds than that of the first. *)
Definition clock_step (f g : Frame) : Prop :=
  exists a b : Z,
    parse_duration (time_text (header f)) = Ok a
    /\ parse_duration (time_text (header g)) = Ok b
    /\ (b <= a)%Z.

(** The progress of the second frame is not behind that of the first. *)
Definition completed_step (f g : Frame) : Prop :=
  completed f <= completed g.

(** A frame and a sleep of [tick] for each of the frames. *)
Definition paced (tick : Q) (fs : list Frame) : list Event :=
  flat_map (fun f => [Update f; Sleep tick]) fs.

(** A frame within the scale of the display: a percentage from 0 to 100
    and a progress that is not negative. *)
Definition in_scale (f : Frame) : Prop :=
  0 <= header_percent (header f) <= 100 /\ 0 <= completed f.


(** What closes a run's events: nothing while it goes on or when it is
    quit, the last frame and the message when the time is up. *)
Definition closing (exit : Exit) (f : Frame) : list Event :=
  match exit with
  | Broke => [Update f; Message "Time's up!"]
  | _ => []
  end.

(** The text of a number of tenths: its whole part, a point, and the
    last digit. *)
Definition tenths_text (tenths : Z) : string :=
  decimal (tenths / 10) ++ "." ++ String (digit_char (tenths mod 10)) "".

(** The percentage of a frame as the line below the clock shows it: five
    characters, reading a number of tenths no further than a twentieth
    from the percentage. *)
Definition percent_text_fits (f : Frame) : Prop :=
  let p := header_percent (header f) in
  String.length (format_5_1f p) = 5%nat
  /\ exists tenths : Z,
       (0 <= tenths <= 1000)%Z
       /\ Qabs (inject_Z tenths / 10 - p) <= 1 # 20
       /\ format_5_1f p = rjust 5 (tenths_text tenths).

(** The percentage in the header of a frame is the progress given to the
    bar, as a share of the duration. *)
Definition percent_is_share (duration : Z) (f : Frame) : Prop :=
  header_percent (header f) == completed f / inject_Z duration * 100.

(** The arithmetic of a run, operation by operation. *)

(** The float operation whose result would be [x] gives [x] itself. *)
Definition exact {R : Rounding} (x : Q) : Prop := rnd x == x.

(** The subtraction and the addition that give the time elapsed at [now]
    on a running timer lose nothing. *)
Definition exact_elapsed {R : Rounding} (now : Q) (st : TimerState) : Prop :=
  paused st = false ->
  exact (now - start st)
  /\ exact (elapsed_before_pause st + (now - start st)).

(** The arithmetic on the clock in one iteration, from the state [st]
    before its key to the state [st'] after it: what a pause banks, the
    elapsed time, and the remaining time. *)
Definition exact_clock {R : Rounding} (duration : Z) (now : Q)
  (st st' : TimerState) : Prop :=
  exact_elapsed now st /\ exact_elapsed now st'
  /\ exact (inject_Z duration - elapsed_at now st').

(** The arithmetic of the percentage in one iteration: the conversion of
    the duration, the remaining time, its share of the duration, what is
    left of 1, and the product by 100. *)
Definition exact_percent {R : Rounding} (duration : Z) (now : Q)
  (st st' : TimerState) : Prop :=
  let d := inject_Z duration in
  let r := d - elapsed_at now st' in
  exact d /\ exact r /\ exact (r / d) /\ exact (1 - r / d)
  /\ exact ((1 - r / d) * 100).

(** [P] holds of every iteration that a run goes through: of its reading
    of the clock and of the states before and after its key. *)
Fixpoint each_iteration {R : Rounding}
  (P : Q -> TimerState -> TimerState -> Prop) (duration : Z)
  (st : TimerState) (readings : list Reading) : Prop :=
  match readings with
  | [] => True
  | (now, key) :: readings' =>
      match handle_key now key st with
      | None => True
      | Some st' =>
          P now st st'
          /\ (if Qle_bool (remaining_at duration now st') 0 then True
              else each_iteration P duration st' readings')
      end
  end.

(** A run on floats whose arithmetic loses nothing: a timer of four
    seconds, paused for four seconds after two. *)
Definition dyadic_readings : list Reading :=
  [(101, None); (102, Some "p"); (103.5, None); (106, Some "s");
   (107, None); (108, None); (109, None)].

(** * Properties *)

(** ** Strings *)

Module PyStrFacts.
Import PyStr.

Local Open Scope Z_scope.

Ltac by_cases_on_char c :=
  destruct c as [[] [] [] [] [] [] [] []]; vm_compute; congruence.

Lemma decimal_not_space (c : ascii) : is_decimal c = true -> is_space c = false.
Proof. by_cases_on_char c. Qed.

Lemma decimal_not_colon (c : ascii) :
  is_decimal c = true -> Ascii.eqb c ":" = false.
Proof. by_cases_on_char c. Qed.

Lemma space_not_colon (c : ascii) :
  is_space c = true -> Ascii.eqb c ":" = false.
Proof. by_cases_on_char c. Qed.

Lemma decimal_is_digit (c : ascii) : is_decimal c = true -> is_digit c = true.
Proof. by_cases_on_char c. Qed.

Lemma digit_value_range (c : ascii) :
  is_decimal c = true -> 0 <= digit_value c <= 9.
Proof.
  destruct c as [[] [] [] [] [] [] [] []]; vm_compute;
    intuition congruence.
Qed.

Lemma append_assoc (a b c : string) : (a ++ b) ++ c = a ++ b ++ c.
Proof. induction a as [|x a IH]; simpl; [reflexivity|]. rewrite IH. reflexivity. Qed.

Lemma append_nil_r (a : string) : a ++ "" = a.
Proof. induction a as [|x a IH]; simpl; [reflexivity|]. rewrite IH. reflexivity. Qed.

Lemma length_append (a b : string) :
  String.length (a ++ b) = (String.length a + String.length b)%nat.
Proof. induction a as [|x a IH]; simpl; [reflexivity|]. rewrite IH. reflexivity. Qed.

Lemma forallb_str_app (p : ascii -> bool) (a b : string) :
  forallb_str p (a ++ b) = forallb_str p a && forallb_str p b.
Proof.
  induction a as [|c a IH]; simpl; [reflexivity|].
  rewrite IH, andb_assoc. reflexivity.
Qed.

Lemma forallb_str_impl (p q : ascii -> bool) (s : string) :
  (forall c, p c = true -> q c = true) ->
  forallb_str p s = true -> forallb_str q s = true.
Proof.
  intros Hpq. induction s as [|c s IH]; simpl; [reflexivity|].
  intros H. apply andb_true_iff in H as [Hc Hs].
  rewrite (Hpq c Hc), (IH Hs). reflexivity.
Qed.

Lemma is_empty_app (a b : string) :
  is_empty (a ++ b) = is_empty a && is_empty b.
Proof. destruct a; reflexivity. Qed.

Lemma isdecimal_inv (s : string) :
  isdecimal s = true ->
  exists c s', s = String c s' /\ is_decimal c = true
               /\ forallb_str is_decimal s' = true.
Proof.
  destruct s as [|c s']; [discriminate|].
  unfold isdecimal; simpl. intros H. apply andb_true_iff in H as [Hc Hs].
  exists c, s'. auto.
Qed.

Lemma isdecimal_forall (s : string) :
  isdecimal s = true -> forallb_str is_decimal s = true.
Proof. unfold isdecimal. intros H. apply andb_true_iff in H. tauto. Qed.

Lemma isdecimal_isdigit (s : string) : isdecimal s = true -> isdigit s = true.
Proof.
  unfold isdecimal, isdigit. intros H. apply andb_true_iff in H as [Hne Hall].
  rewrite Hne. simpl.
  apply forallb_str_impl with (p := is_decimal); auto using decimal_is_digit.
Qed.

(** *** [strip] *)

Lemma lstrip_spaces (w x : string) :
  forallb_str is_space w = true -> lstrip (w ++ x) = lstrip x.
Proof.
  induction w as [|c w IH]; simpl; [reflexivity|].
  intros H. apply andb_true_iff in H as [Hc Hw]. rewrite Hc. auto.
Qed.

Lemma lstrip_all_spaces (w : string) :
  forallb_str is_space w = true -> lstrip w = "".
Proof.
  induction w as [|c w IH]; simpl; [reflexivity|].
  intros H. apply andb_true_iff in H as [Hc Hw]. rewrite Hc. auto.
Qed.

Lemma lstrip_head (c : ascii) (x : string) :
  is_space c = false -> lstrip (String c x) = String c x.
Proof. intros H. simpl. rewrite H. reflexivity. Qed.

Lemma rstrip_spaces (w : string) :
  forallb_str is_space w = true -> rstrip w = "".
Proof.
  induction w as [|c w IH]; simpl; [reflexivity|].
  intros H. apply andb_true_iff in H as [Hc Hw].
  rewrite (IH Hw), Hc. reflexivity.
Qed.

Lemma rstrip_app_spaces (x w : string) :
  forallb_str is_space w = true -> rstrip (x ++ w) = rstrip x.
Proof.
  intros Hw. induction x as [|c x IH]; simpl.
  - apply rstrip_spaces, Hw.
  - rewrite IH. reflexivity.
Qed.

Lemma rstrip_app_fixed (x y : string) :
  rstrip y = y -> is_empty y = false -> rstrip (x ++ y) = x ++ y.
Proof.
  intros Hy Hne. induction x as [|c x IH]; simpl; [exact Hy|].
  rewrite IH, is_empty_app, Hne, !andb_false_r. reflexivity.
Qed.

Lemma rstrip_no_space (s : string) :
  forallb_str (fun c => negb (is_space c)) s = true -> rstrip s = s.
Proof.
  induction s as [|c s IH]; simpl; [reflexivity|].
  intros H. apply andb_true_iff in H as [Hc Hs].
  rewrite (IH Hs). apply negb_true_iff in Hc. rewrite Hc. reflexivity.
Qed.

Lemma rstrip_decimal (s : string) :
  forallb_str is_decimal s = true -> rstrip s = s.
Proof.
  intros H. apply rstrip_no_space.
  apply forallb_str_impl with (p := is_decimal); [|exact H].
  intros c Hc. rewrite (decimal_not_space c Hc). reflexivity.
Qed.

Lemma strip_decimal (s : string) : isdecimal s = true -> strip s = s.
Proof.
  intros H. destruct (isdecimal_inv s H) as (c & s' & -> & Hc & Hs).
  unfold strip. rewrite lstrip_head by auto using decimal_not_space.
  apply rstrip_decimal. simpl. rewrite Hc, Hs. reflexivity.
Qed.

(** White space around a text that neither starts nor ends with white
    space comes off. *)
Lemma strip_padded (w1 x w2 : string) :
  forallb_str is_space w1 = true -> forallb_str is_space w2 = true ->
  lstrip x = x -> rstrip x = x ->
  strip (w1 ++ x ++ w2) = x.
Proof.
  intros H1 H2 Hl Hr. unfold strip.
  rewrite lstrip_spaces by exact H1.
  assert (Hx : lstrip (x ++ w2) = x ++ w2 \/ x = "").
  { destruct x as [|c x]; [right; reflexivity|left].
    simpl in *. destruct (is_space c); [|reflexivity].
    exfalso. clear - Hl.
    assert (H : forall s, (String.length (lstrip s) <= String.length s)%nat).
    { induction s as [|a s IH]; simpl; [lia|].
      destruct (is_space a); simpl; lia. }
    specialize (H x). rewrite Hl in H. simpl in H. lia. }
  destruct Hx as [-> | ->].
  - rewrite rstrip_app_spaces by exact H2. exact Hr.
  - simpl. rewrite lstrip_all_spaces by exact H2. reflexivity.
Qed.

(** *** [split] *)

Lemma contains_app (sep : ascii) (a b : string) :
  contains sep (a ++ b) = contains sep a || contains sep b.
Proof.
  induction a as [|c a IH]; simpl; [reflexivity|].
  rewrite IH, orb_assoc. reflexivity.
Qed.

Lemma contains_forallb (sep : ascii) (p : ascii -> bool) (s : string) :
  (forall c, p c = true -> Ascii.eqb c sep = false) ->
  forallb_str p s = true -> contains sep s = false.
Proof.
  intros Hp. induction s as [|c s IH]; simpl; [reflexivity|].
  intros H. apply andb_true_iff in H as [Hc Hs].
  rewrite (Hp c Hc), (IH Hs). reflexivity.
Qed.

Lemma split_none (sep : ascii) (x : string) :
  contains sep x = false -> split sep x = [x].
Proof.
  induction x as [|c x IH]; simpl; [reflexivity|].
  intros H. apply orb_false_iff in H as [Hc Hx].
  rewrite Hc, (IH Hx). reflexivity.
Qed.

Lemma split_app (sep : ascii) (x y : string) :
  contains sep x = false ->
  split sep (x ++ String sep y) = x :: split sep y.
Proof.
  induction x as [|c x IH]; simpl.
  - intros _. rewrite Ascii.eqb_refl. reflexivity.
  - intros H. apply orb_false_iff in H as [Hc Hx].
    rewrite Hc, (IH Hx). reflexivity.
Qed.

(** *** [int] *)

Lemma int_decimal (s : string) :
  isdecimal s = true -> int s = Ok (decimal_value s).
Proof. intros H. unfold int. rewrite H. reflexivity. Qed.

Lemma decimal_value_from_nonneg (s : string) (acc : Z) :
  forallb_str is_decimal s = true -> 0 <= acc ->
  0 <= decimal_value_from acc s.
Proof.
  revert acc.
  induction s as [|c s IH]; cbn [decimal_value_from forallb_str];
    intros acc H Hacc; [exact Hacc|].
  apply andb_true_iff in H as [Hc Hs].
  apply IH; [exact Hs|]. pose proof (digit_value_range c Hc). lia.
Qed.

Lemma decimal_value_nonneg (s : string) :
  isdecimal s = true -> 0 <= decimal_value s.
Proof.
  intros H. apply decimal_value_from_nonneg; [|lia].
  apply isdecimal_forall, H.
Qed.

End PyStrFacts.

(** ** The matcher *)

Module ReFacts.
Import PyStr PyStrFacts Re Vocabulary.

Lemma run_cat whole r1 r2 pos s caps k :
  run whole (r1 >> r2) pos s caps k =
  run whole r1 pos s caps (fun pos' s' caps' => run whole r2 pos' s' caps' k).
Proof. reflexivity. Qed.

Lemma run_bol whole s caps k : run whole Bol 0 s caps k = k 0%nat s caps.
Proof. reflexivity. Qed.

Lemma run_eol_end whole pos caps k :
  run whole Eol pos "" caps k = k pos "" caps.
Proof. reflexivity. Qed.

Lemma run_star_stops whole p pos s caps k :
  stops p s -> run whole (Star p) pos s caps k = k pos s caps.
Proof.
  destruct s as [|c s]; simpl; [reflexivity|].
  intros ->. reflexivity.
Qed.

(** Greedy repetition takes the whole run when the rest then matches. *)
Lemma star_greedy p d : forall pos rest caps k r,
  forallb_str p d = true -> stops p rest ->
  k (pos + String.length d)%nat rest caps = Some r ->
  star p pos (d ++ rest) caps k = Some r.
Proof.
  induction d as [|c d IH]; intros pos rest caps k r Hd Hrest Hk.
  - simpl in Hk. rewrite Nat.add_0_r in Hk.
    destruct rest as [|c rest]; simpl in *; [exact Hk|].
    rewrite Hrest. exact Hk.
  - simpl in Hd. apply andb_true_iff in Hd as [Hc Hd].
    simpl. rewrite Hc.
    rewrite (IH (S pos) rest caps k r); auto.
    simpl in Hk. rewrite Nat.add_succ_r in Hk. exact Hk.
Qed.

(** Repetition fails when the continuation fails wherever it can stop. *)
Lemma star_none (P : string -> Prop) p caps k :
  (forall c s', P (String c s') -> p c = true -> P s') ->
  (forall pos' s', P s' -> k pos' s' caps = None) ->
  forall s pos, P s -> star p pos s caps k = None.
Proof.
  intros Hstep Hk. induction s as [|c s IH]; intros pos HP; simpl.
  - apply Hk, HP.
  - destruct (p c) eqn:Hc; [|apply Hk, HP].
    rewrite IH by (apply (Hstep c); assumption). apply Hk, HP.
Qed.

Lemma substring_middle (pre d post : string) :
  substring (String.length pre) (String.length d) (pre ++ d ++ post) = d.
Proof.
  induction pre as [|c pre IH]; simpl; [|exact IH].
  induction d as [|c d IHd]; simpl.
  - destruct post; reflexivity.
  - rewrite IHd. reflexivity.
Qed.

Lemma group_absent whole name u pos s caps k :
  blocked u s -> not_decimal u ->
  run whole (Opt (Group name (Plus is_decimal) >> Lit u)) pos s caps k =
  k pos s caps.
Proof.
  intros Hb Hu. cbn [run].
  destruct Hb as [-> | (d & x & rest & -> & Hd & Hx & Hxu)]; [reflexivity|].
  destruct d as [|c d]; simpl append.
  - simpl. rewrite Hx. reflexivity.
  - simpl in Hd. apply andb_true_iff in Hd as [Hc Hd]. rewrite Hc.
    rewrite star_none with
      (P := fun s' => exists d', forallb_str is_decimal d' = true
                                 /\ s' = d' ++ String x rest);
      [reflexivity| | |].
    + intros c' s' (d' & Hd' & E) Hc'. destruct d' as [|c'' d'].
      * simpl in E. injection E as -> ->. congruence.
      * simpl in E. injection E as -> ->. simpl in Hd'.
        apply andb_true_iff in Hd' as [_ Hd']. exists d'. auto.
    + intros pos' s' (d' & Hd' & ->). destruct d' as [|c' d']; simpl.
      * rewrite Hxu. reflexivity.
      * simpl in Hd'. apply andb_true_iff in Hd' as [Hc' _].
        rewrite (Hu c' Hc'). reflexivity.
    + exists d. auto.
Qed.

Lemma group_present whole name u pre pos d x post caps k r :
  whole = pre ++ (d ++ String x "") ++ post -> pos = String.length pre ->
  isdecimal d = true -> is_decimal x = false ->
  Ascii.eqb (lower_char x) (lower_char u) = true ->
  k (pos + String.length (d ++ String x ""))%nat post ((name, d) :: caps)
    = Some r ->
  run whole (Opt (Group name (Plus is_decimal) >> Lit u)) pos
    ((d ++ String x "") ++ post) caps k = Some r.
Proof.
  intros Hw Hpos Hd Hx Hxu Hk.
  destruct (isdecimal_inv d Hd) as (c & d' & E & Hc & Hd').
  assert (Hsub : substring pos (String.length d) whole = d).
  { rewrite Hw, Hpos, append_assoc. apply substring_middle. }
  rewrite length_append in Hk. cbn [String.length] in Hk.
  rewrite append_assoc. subst d. cbn [run append]. rewrite Hc.
  erewrite star_greedy; [reflexivity|exact Hd'|exact Hx|].
  cbv beta iota. rewrite Hxu.
  replace (S pos + String.length d' - pos)%nat
    with (String.length (String c d')) by (cbn [String.length]; lia).
  rewrite Hsub.
  replace (S (S pos + String.length d'))
    with (pos + (S (String.length d') + (1 + 0)))%nat by lia.
  exact Hk.
Qed.

(** One group of the pattern against the text of one group. *)
Lemma group_stage whole name u pre pos o x post caps k r :
  whole = pre ++ group_text o x ++ post -> pos = String.length pre ->
  group_digits o -> unit_letter (lower_char u) x -> is_decimal x = false ->
  not_decimal u -> blocked u post ->
  k (pos + String.length (group_text o x))%nat post (entry name o ++ caps)%list
    = Some r ->
  run whole (Opt (Group name (Plus is_decimal) >> Lit u)) pos
    (group_text o x ++ post) caps k = Some r.
Proof.
  intros Hw Hpos Ho Hux Hx Hu Hb Hk.
  destruct o as [d|];
    cbn [group_text entry app append String.length group_digits] in *.
  - eapply group_present; eauto.
    unfold unit_letter in Hux. rewrite Hux. apply Ascii.eqb_refl.
  - rewrite Nat.add_0_r in Hk. rewrite group_absent; auto.
Qed.

Lemma unit_letter_cases (u x : ascii) :
  In u ["h"; "m"; "s"]%char -> unit_letter u x ->
  is_decimal x = false /\ is_space x = false /\ is_digit x = false
  /\ Ascii.eqb x ":" = false.
Proof.
  unfold unit_letter. intros Hu Hx.
  assert (Hcase : In x ["h"; "H"; "m"; "M"; "s"; "S"]%char).
  { simpl in Hu. destruct Hu as [<-|[<-|[<-|[]]]];
      destruct x as [[] [] [] [] [] [] [] []];
      vm_compute in Hx; try discriminate; simpl; tauto. }
  simpl in Hcase.
  repeat split; intuition (subst; reflexivity).
Qed.

Lemma not_decimal_units (u : ascii) : In u ["h"; "m"; "s"]%char -> not_decimal u.
Proof.
  intros Hu y Hy. simpl in Hu.
  destruct Hu as [<-|[<-|[<-|[]]]];
    destruct y as [[] [] [] [] [] [] [] []];
    first [discriminate Hy | reflexivity].
Qed.

Lemma blocked_group_text (u v x : ascii) (o : option string) (post : string) :
  In u ["h"; "m"; "s"]%char -> In v ["h"; "m"; "s"]%char -> v <> u ->
  group_digits o -> unit_letter v x -> blocked u post ->
  blocked u (group_text o x ++ post).
Proof.
  intros Hu Hv Hne Ho Hx Hpost. destruct o as [d|]; [|exact Hpost].
  right. exists d, x, post. cbn [group_text group_digits] in *.
  destruct (unit_letter_cases v x Hv Hx) as (Hdec & _).
  rewrite append_assoc. cbn [append].
  repeat split; auto using isdecimal_forall.
  rewrite Hx. simpl in Hu, Hv.
  destruct Hu as [<-|[<-|[<-|[]]]]; destruct Hv as [<-|[<-|[<-|[]]]];
    try congruence; reflexivity.
Qed.

Lemma stops_group_text (o : option string) (x : ascii) (post : string) :
  group_digits o -> stops is_space post ->
  stops is_space (group_text o x ++ post).
Proof.
  intros Ho Hpost. destruct o as [d|]; [|exact Hpost].
  simpl in Ho. destruct (isdecimal_inv d Ho) as (c & d' & -> & Hc & _).
  simpl. apply decimal_not_space, Hc.
Qed.

End ReFacts.

(** ** The parser *)

Section ParserProperties.
Import PyStr PyStrFacts ReFacts Vocabulary.

Local Open Scope Z_scope.

(** What [parse_duration] does with a text that has nothing to strip. *)
Lemma parse_duration_stripped (value : string) :
  strip value = value -> is_empty value = false ->
  parse_duration value =
    if contains ":" value then colon_form value
    else if isdigit value then int value
    else suffix_form value.
Proof.
  intros Hs Hne. unfold parse_duration. rewrite Hs, Hne. reflexivity.
Qed.

Lemma lstrip_decimal (d : string) : isdecimal d = true -> lstrip d = d.
Proof.
  intros H. destruct (isdecimal_inv d H) as (c & d' & -> & Hc & _).
  apply lstrip_head, decimal_not_space, Hc.
Qed.

(** A component of the colon form: digits with white space around. *)
Lemma strip_component (w d w' : string) :
  forallb_str is_space w = true -> isdecimal d = true ->
  forallb_str is_space w' = true ->
  strip (w ++ d ++ w') = d.
Proof.
  intros Hw Hd Hw'. apply strip_padded; auto using lstrip_decimal.
  apply rstrip_decimal, isdecimal_forall, Hd.
Qed.

Lemma component_no_colon (w d w' : string) :
  forallb_str is_space w = true -> isdecimal d = true ->
  forallb_str is_space w' = true ->
  contains ":" (w ++ d ++ w') = false.
Proof.
  intros Hw Hd Hw'. rewrite !contains_app.
  rewrite (contains_forallb ":" is_space w), (contains_forallb ":" is_space w'),
    (contains_forallb ":" is_decimal d);
    auto using space_not_colon, decimal_not_colon, isdecimal_forall.
Qed.

Lemma strip_component_l (w d : string) :
  forallb_str is_space w = true -> isdecimal d = true -> strip (w ++ d) = d.
Proof.
  intros Hw Hd. rewrite <- (append_nil_r d) at 1.
  apply strip_component; auto.
Qed.

Lemma strip_component_r (d w' : string) :
  isdecimal d = true -> forallb_str is_space w' = true -> strip (d ++ w') = d.
Proof. intros Hd Hw'. apply (strip_component "" d w'); auto. Qed.

Lemma component_no_colon_l (w d : string) :
  forallb_str is_space w = true -> isdecimal d = true ->
  contains ":" (w ++ d) = false.
Proof.
  intros Hw Hd. rewrite <- (append_nil_r d).
  apply component_no_colon; auto.
Qed.

Lemma component_no_colon_r (d w' : string) :
  isdecimal d = true -> forallb_str is_space w' = true ->
  contains ":" (d ++ w') = false.
Proof. intros Hd Hw'. apply (component_no_colon "" d w'); auto. Qed.

(** The colon branch on two and on three parts that strip to digits. *)
Lemma colon_form_two (c1 c2 m s : string) :
  contains ":" c1 = false -> contains ":" c2 = false ->
  strip c1 = m -> strip c2 = s ->
  isdecimal m = true -> isdecimal s = true ->
  colon_form (c1 ++ ":" ++ c2) = Ok (decimal_value m * 60 + decimal_value s).
Proof.
  intros N1 N2 S1 S2 Hm Hs. unfold colon_form.
  change (":" ++ c2) with (String ":" c2).
  rewrite split_app, split_none by assumption. cbn [map forallb].
  rewrite S1, S2, (isdecimal_isdigit m Hm), (isdecimal_isdigit s Hs).
  cbn [andb negb map_result].
  rewrite (int_decimal m Hm), (int_decimal s Hs). reflexivity.
Qed.

Lemma colon_form_three (c1 c2 c3 h m s : string) :
  contains ":" c1 = false -> contains ":" c2 = false ->
  contains ":" c3 = false ->
  strip c1 = h -> strip c2 = m -> strip c3 = s ->
  isdecimal h = true -> isdecimal m = true -> isdecimal s = true ->
  colon_form (c1 ++ ":" ++ c2 ++ ":" ++ c3) =
    Ok (decimal_value h * 3600 + decimal_value m * 60 + decimal_value s).
Proof.
  intros N1 N2 N3 S1 S2 S3 Hh Hm Hs. unfold colon_form.
  change (":" ++ c2 ++ ":" ++ c3) with (String ":" (c2 ++ String ":" c3)).
  rewrite !split_app, split_none by assumption. cbn [map forallb].
  rewrite S1, S2, S3, (isdecimal_isdigit h Hh), (isdecimal_isdigit m Hm),
    (isdecimal_isdigit s Hs).
  cbn [andb negb map_result].
  rewrite (int_decimal h Hh), (int_decimal m Hm), (int_decimal s Hs).
  reflexivity.
Qed.

(** A text that starts and ends with a digit has nothing to strip, and
    white space around it comes off. *)
Lemma strip_between_decimals (w d1 mid d2 w' : string) :
  forallb_str is_space w = true -> isdecimal d1 = true ->
  isdecimal d2 = true -> forallb_str is_space w' = true ->
  strip (w ++ (d1 ++ mid ++ d2) ++ w') = d1 ++ mid ++ d2.
Proof.
  intros Hw H1 H2 Hw'. apply strip_padded; auto.
  - destruct (isdecimal_inv d1 H1) as (c & d & -> & Hc & _).
    apply lstrip_head, decimal_not_space, Hc.
  - rewrite <- append_assoc. apply rstrip_app_fixed.
    + apply rstrip_decimal, isdecimal_forall, H2.
    + destruct (isdecimal_inv d2 H2) as (c & d & -> & _). reflexivity.
Qed.

Lemma parse_duration_colon (value : string) :
  is_empty (strip value) = false -> contains ":" (strip value) = true ->
  parse_duration value = colon_form (strip value).
Proof.
  intros Hne Hc. unfold parse_duration. rewrite Hne, Hc. reflexivity.
Qed.

(** [mm:ss] with white space anywhere around the two components. *)
Lemma parse_duration_mm_ss (w1 m w2 w3 s w4 : string) :
  isdecimal m = true -> isdecimal s = true ->
  forallb_str is_space w1 = true -> forallb_str is_space w2 = true ->
  forallb_str is_space w3 = true -> forallb_str is_space w4 = true ->
  parse_duration (w1 ++ m ++ w2 ++ ":" ++ w3 ++ s ++ w4) =
    Ok (decimal_value m * 60 + decimal_value s).
Proof.
  intros Hm Hs H1 H2 H3 H4.
  assert (E : w1 ++ m ++ w2 ++ ":" ++ w3 ++ s ++ w4 =
              w1 ++ (m ++ (w2 ++ ":" ++ w3) ++ s) ++ w4)
    by (rewrite !append_assoc; reflexivity).
  assert (St : strip (w1 ++ m ++ w2 ++ ":" ++ w3 ++ s ++ w4) =
               (m ++ w2) ++ ":" ++ (w3 ++ s)).
  { rewrite E, strip_between_decimals by assumption.
    rewrite !append_assoc. reflexivity. }
  rewrite parse_duration_colon; rewrite St.
  - apply colon_form_two;
      auto using component_no_colon_l, component_no_colon_r,
        strip_component_l, strip_component_r.
  - destruct (isdecimal_inv m Hm) as (c & d & -> & _). reflexivity.
  - rewrite contains_app. simpl. apply orb_true_r.
Qed.

(** [hh:mm:ss] likewise. *)
Lemma parse_duration_hh_mm_ss (w1 h w2 w3 m w4 w5 s w6 : string) :
  isdecimal h = true -> isdecimal m = true -> isdecimal s = true ->
  forallb_str is_space w1 = true -> forallb_str is_space w2 = true ->
  forallb_str is_space w3 = true -> forallb_str is_space w4 = true ->
  forallb_str is_space w5 = true -> forallb_str is_space w6 = true ->
  parse_duration
    (w1 ++ h ++ w2 ++ ":" ++ w3 ++ m ++ w4 ++ ":" ++ w5 ++ s ++ w6) =
    Ok (decimal_value h * 3600 + decimal_value m * 60 + decimal_value s).
Proof.
  intros Hh Hm Hs H1 H2 H3 H4 H5 H6.
  assert (E : w1 ++ h ++ w2 ++ ":" ++ w3 ++ m ++ w4 ++ ":" ++ w5 ++ s ++ w6 =
              w1 ++ (h ++ (w2 ++ ":" ++ w3 ++ m ++ w4 ++ ":" ++ w5) ++ s) ++ w6)
    by (rewrite !append_assoc; reflexivity).
  assert (St : strip (w1 ++ h ++ w2 ++ ":" ++ w3 ++ m ++ w4 ++ ":" ++ w5 ++ s ++ w6) =
               (h ++ w2) ++ ":" ++ (w3 ++ m ++ w4) ++ ":" ++ (w5 ++ s)).
  { rewrite E, strip_between_decimals by assumption.
    rewrite !append_assoc. reflexivity. }
  rewrite parse_duration_colon; rewrite St.
  - apply colon_form_three;
      auto using component_no_colon_l, component_no_colon_r,
        component_no_colon, strip_component_l, strip_component_r,
        strip_component.
  - destruct (isdecimal_inv h Hh) as (c & d & -> & _). reflexivity.
  - rewrite contains_app. simpl. apply orb_true_r.
Qed.

(** *** The suffix form *)

(** The pattern matches the three groups in order, any of them absent,
    and captures the digits of those present. *)
Lemma match_suffix_text (oh om os : option string) (xh xm xs : ascii) :
  group_digits oh -> group_digits om -> group_digits os ->
  unit_letter "h" xh -> unit_letter "m" xm -> unit_letter "s" xs ->
  Re.rmatch DURATION_PATTERN
    (group_text oh xh ++ group_text om xm ++ group_text os xs) =
  Some (entry "seconds" os ++ entry "minutes" om ++ entry "hours" oh)%list.
Proof.
  intros Hh Hm Hs Uh Um Us.
  assert (Ih : In "h"%char ["h"; "m"; "s"]%char) by (simpl; tauto).
  assert (Im : In "m"%char ["h"; "m"; "s"]%char) by (simpl; tauto).
  assert (Is : In "s"%char ["h"; "m"; "s"]%char) by (simpl; tauto).
  destruct (unit_letter_cases _ _ Ih Uh) as (Dh & _).
  destruct (unit_letter_cases _ _ Im Um) as (Dm & _).
  destruct (unit_letter_cases _ _ Is Us) as (Ds & _).
  assert (B0 : forall u, blocked u "") by (intros u; left; reflexivity).
  rewrite <- (append_nil_r (group_text os xs)).
  unfold Re.rmatch, DURATION_PATTERN.
  rewrite run_cat, run_bol. cbv beta.
  rewrite run_cat, run_star_stops
    by (repeat apply stops_group_text; simpl; auto).
  cbv beta. rewrite run_cat.
  apply (group_stage _ "hours" "h" "" 0 oh xh); auto using not_decimal_units.
  { apply (blocked_group_text "h" "m"); auto; [discriminate|].
    apply (blocked_group_text "h" "s"); auto. discriminate. }
  cbv beta. rewrite run_cat, run_star_stops
    by (repeat apply stops_group_text; simpl; auto).
  cbv beta. rewrite run_cat.
  apply (group_stage _ "minutes" "m" (group_text oh xh) _ om xm);
    auto using not_decimal_units.
  { apply (blocked_group_text "m" "s"); auto. discriminate. }
  cbv beta. rewrite run_cat, run_star_stops
    by (repeat apply stops_group_text; simpl; auto).
  cbv beta. rewrite run_cat.
  apply (group_stage _ "seconds" "s" (group_text oh xh ++ group_text om xm)
           _ os xs); auto using not_decimal_units.
  { rewrite append_assoc. reflexivity. }
  { rewrite length_append. reflexivity. }
  cbv beta. rewrite run_cat, run_star_stops by exact I.
  cbv beta. rewrite run_eol_end, !app_nil_r. reflexivity.
Qed.

Lemma group_or_zero_entries (oh om os : option string) :
  group_digits oh -> group_digits om -> group_digits os ->
  let caps := (entry "seconds" os ++ entry "minutes" om ++ entry "hours" oh)%list in
  group_or_zero "hours" caps = Ok (group_value oh)
  /\ group_or_zero "minutes" caps = Ok (group_value om)
  /\ group_or_zero "seconds" caps = Ok (group_value os).
Proof.
  assert (Hint : forall d, isdecimal d = true ->
            match d with
            | String c r => int (String c r)
            | EmptyString => Ok 0
            end = Ok (decimal_value d)).
  { intros d Hd. destruct (isdecimal_inv d Hd) as (c & r & -> & _).
    apply int_decimal, Hd. }
  intros Hh Hm Hs.
  destruct oh as [h|], om as [m|], os as [s|];
    cbn in Hh, Hm, Hs; unfold group_or_zero; cbn;
    repeat split; auto.
Qed.

Lemma suffix_form_text (oh om os : option string) (xh xm xs : ascii) :
  group_digits oh -> group_digits om -> group_digits os ->
  unit_letter "h" xh -> unit_letter "m" xm -> unit_letter "s" xs ->
  suffix_form (group_text oh xh ++ group_text om xm ++ group_text os xs) =
  Ok (group_value oh * 3600 + group_value om * 60 + group_value os).
Proof.
  intros Hh Hm Hs Uh Um Us. unfold suffix_form.
  rewrite match_suffix_text by assumption.
  destruct (group_or_zero_entries oh om os Hh Hm Hs) as (-> & -> & ->).
  reflexivity.
Qed.

Lemma strip_plain (s : string) : forallb_str plain s = true -> strip s = s.
Proof.
  intros H.
  assert (Hn : forallb_str (fun c => negb (is_space c)) s = true).
  { apply forallb_str_impl with (p := plain); [|exact H].
    unfold plain. intros c Hc. apply andb_true_iff in Hc. tauto. }
  unfold strip. destruct s as [|c s]; [reflexivity|].
  pose proof Hn as Hn'. simpl in Hn'. apply andb_true_iff in Hn' as [Hc _].
  apply negb_true_iff in Hc. rewrite lstrip_head by exact Hc.
  apply rstrip_no_space, Hn.
Qed.

Lemma plain_group_text (u x : ascii) (o : option string) :
  In u ["h"; "m"; "s"]%char -> unit_letter u x -> group_digits o ->
  forallb_str plain (group_text o x) = true.
Proof.
  intros Hu Hx Ho. destruct o as [d|]; [|reflexivity].
  destruct (unit_letter_cases u x Hu Hx) as (_ & Hsp & _ & Hcol).
  cbn [group_text group_digits] in *. rewrite forallb_str_app.
  apply andb_true_iff. split.
  - apply forallb_str_impl with (p := is_decimal);
      [|apply isdecimal_forall, Ho].
    intros c Hc. unfold plain.
    rewrite (decimal_not_space c Hc), (decimal_not_colon c Hc). reflexivity.
  - simpl. unfold plain. rewrite Hsp, Hcol. reflexivity.
Qed.

Lemma digit_group_text (u x : ascii) (d : string) :
  In u ["h"; "m"; "s"]%char -> unit_letter u x ->
  forallb_str is_digit (group_text (Some d) x) = false.
Proof.
  intros Hu Hx. destruct (unit_letter_cases u x Hu Hx) as (_ & _ & Hdig & _).
  cbn [group_text]. rewrite forallb_str_app. simpl. rewrite Hdig.
  apply andb_false_r.
Qed.

(** The suffix form: the groups present, in the order hours, minutes and
    seconds, each a run of digits and its letter in either case. *)
Lemma parse_duration_suffix (oh om os : option string) (xh xm xs : ascii) :
  group_digits oh -> group_digits om -> group_digits os ->
  unit_letter "h" xh -> unit_letter "m" xm -> unit_letter "s" xs ->
  oh <> None \/ om <> None \/ os <> None ->
  parse_duration (group_text oh xh ++ group_text om xm ++ group_text os xs) =
  Ok (group_value oh * 3600 + group_value om * 60 + group_value os).
Proof.
  intros Hh Hm Hs Uh Um Us Hsome.
  assert (Ih : In "h"%char ["h"; "m"; "s"]%char) by (simpl; tauto).
  assert (Im : In "m"%char ["h"; "m"; "s"]%char) by (simpl; tauto).
  assert (Is : In "s"%char ["h"; "m"; "s"]%char) by (simpl; tauto).
  set (text := group_text oh xh ++ group_text om xm ++ group_text os xs).
  assert (Hplain : forallb_str plain text = true).
  { unfold text. rewrite !forallb_str_app.
    rewrite (plain_group_text "h" xh oh), (plain_group_text "m" xm om),
      (plain_group_text "s" xs os); auto. }
  assert (Hne : is_empty text = false).
  { unfold text. rewrite !is_empty_app.
    destruct oh as [h|], om as [m|], os as [s|];
      cbn in Hh, Hm, Hs;
      repeat match goal with
        | H : isdecimal ?d = true |- _ =>
            destruct (isdecimal_inv d H) as (? & ? & -> & _); clear H
        end;
      try reflexivity.
    exfalso. intuition congruence. }
  assert (Hdig : isdigit text = false).
  { unfold isdigit. apply andb_false_iff. right. unfold text.
    rewrite !forallb_str_app.
    destruct oh as [h|];
      [rewrite (digit_group_text "h" xh h) by auto; reflexivity|].
    destruct om as [m|];
      [rewrite (digit_group_text "m" xm m) by auto; apply andb_false_r|].
    destruct os as [s|];
      [rewrite (digit_group_text "s" xs s) by auto; apply andb_false_r|].
    exfalso. intuition congruence. }
  assert (Hcol : contains ":" text = false).
  { apply contains_forallb with (p := plain); [|exact Hplain].
    unfold plain. intros c Hc. apply andb_true_iff in Hc as [_ Hc].
    apply negb_true_iff, Hc. }
  rewrite parse_duration_stripped by auto using strip_plain.
  rewrite Hcol, Hdig. apply suffix_form_text; assumption.
Qed.

(** *** Bare seconds *)

Lemma parse_duration_bare (w1 d w2 : string) :
  isdecimal d = true ->
  forallb_str is_space w1 = true -> forallb_str is_space w2 = true ->
  parse_duration (w1 ++ d ++ w2) = Ok (decimal_value d).
Proof.
  intros Hd H1 H2. unfold parse_duration.
  rewrite strip_component by assumption.
  destruct (isdecimal_inv d Hd) as (c & d' & E & Hc & Hd').
  rewrite (contains_forallb ":" is_decimal d),
    (isdecimal_isdigit d Hd), (int_decimal d Hd);
    auto using decimal_not_colon, isdecimal_forall.
  subst d. reflexivity.
Qed.

(** *** What the parser returns and raises *)

Lemma int_nonneg (s : string) (n : Z) : int s = Ok n -> 0 <= n.
Proof.
  unfold int. destruct (isdecimal s) eqn:E; [|discriminate].
  intros [= <-]. apply decimal_value_nonneg, E.
Qed.

Lemma map_int_nonneg (parts : list string) (numbers : list Z) :
  map_result int parts = Ok numbers -> Forall (fun n => 0 <= n) numbers.
Proof.
  revert numbers. induction parts as [|p parts IH]; simpl; intros numbers.
  - intros [= <-]. constructor.
  - destruct (int p) as [n|e] eqn:Ep; simpl; [|discriminate].
    destruct (map_result int parts) as [ns|e]; simpl; [|discriminate].
    intros [= <-]. constructor; [eapply int_nonneg, Ep | apply IH; reflexivity].
Qed.

Lemma group_or_zero_nonneg (name : string) (caps : Re.captures) (n : Z) :
  group_or_zero name caps = Ok n -> 0 <= n.
Proof.
  unfold group_or_zero. destruct (Re.group name caps) as [[|c s]|].
  - intros [= <-]. lia.
  - apply int_nonneg.
  - intros [= <-]. lia.
Qed.

Lemma parse_duration_nonneg (value : string) (n : Z) :
  parse_duration value = Ok n -> 0 <= n.
Proof.
  unfold parse_duration.
  destruct (is_empty (strip value)); [discriminate|].
  destruct (contains ":" (strip value)).
  - unfold colon_form.
    destruct (negb _); [discriminate|].
    destruct (map_result int _) as [numbers|e] eqn:E; simpl; [|discriminate].
    apply map_int_nonneg in E.
    destruct numbers as [|a [|b [|c [|? ?]]]]; try discriminate;
      intros [= <-];
      repeat match goal with
        | H : Forall _ (_ :: _) |- _ => inversion H; subst; clear H
        end; lia.
  - destruct (isdigit (strip value)); [apply int_nonneg|].
    unfold suffix_form. destruct (Re.rmatch _ _) as [caps|]; [|discriminate].
    destruct (group_or_zero "hours" caps) as [h|] eqn:Eh; simpl; [|discriminate].
    destruct (group_or_zero "minutes" caps) as [m|] eqn:Em; simpl; [|discriminate].
    destruct (group_or_zero "seconds" caps) as [s|] eqn:Es; simpl; [|discriminate].
    apply group_or_zero_nonneg in Eh, Em, Es. intros [= <-]. lia.
Qed.

Lemma int_raises (s : string) (msg : string) :
  int s = Raise (ValueError msg) -> initial msg = Some "i"%char.
Proof.
  unfold int. destruct (isdecimal s); [discriminate|].
  intros [= <-]. reflexivity.
Qed.

Lemma map_int_raises (parts : list string) (msg : string) :
  map_result int parts = Raise (ValueError msg) ->
  initial msg = Some "i"%char.
Proof.
  induction parts as [|p parts IH]; simpl; [discriminate|].
  destruct (int p) as [n|[m]] eqn:Ep; simpl.
  - destruct (map_result int parts) as [ns|[m]]; simpl; [discriminate|].
    intros [= <-]. apply IH. reflexivity.
  - intros [= <-]. eapply int_raises, Ep.
Qed.

Lemma group_or_zero_raises (name : string) (caps : Re.captures) (msg : string) :
  group_or_zero name caps = Raise (ValueError msg) ->
  initial msg = Some "i"%char.
Proof.
  unfold group_or_zero. destruct (Re.group name caps) as [[|c s]|];
    try discriminate. apply int_raises.
Qed.

(** Every message of the parser starts with [E], [I] or [i]. *)
Lemma parse_duration_raises (value : string) (msg : string) :
  parse_duration value = Raise (ValueError msg) ->
  In (initial msg) [Some "E"; Some "I"; Some "i"]%char.
Proof.
  unfold parse_duration.
  destruct (is_empty (strip value)); [intros [= <-]; simpl; tauto|].
  destruct (contains ":" (strip value)).
  - unfold colon_form.
    destruct (negb _); [intros [= <-]; simpl; tauto|].
    destruct (map_result int _) as [numbers|[m]] eqn:E; simpl.
    + destruct numbers as [|a [|b [|c [|? ?]]]]; try discriminate;
        intros [= <-]; simpl; tauto.
    + intros [= <-]. rewrite (map_int_raises _ _ E). simpl; tauto.
  - destruct (isdigit (strip value)).
    { intros H. rewrite (int_raises _ _ H). simpl; tauto. }
    unfold suffix_form. destruct (Re.rmatch _ _) as [caps|];
      [|intros [= <-]; simpl; tauto].
    destruct (group_or_zero "hours" caps) as [h|[m]] eqn:Eh; simpl;
      [|intros [= <-]; rewrite (group_or_zero_raises _ _ _ Eh); simpl; tauto].
    destruct (group_or_zero "minutes" caps) as [mi|[m]] eqn:Em; simpl;
      [|intros [= <-]; rewrite (group_or_zero_raises _ _ _ Em); simpl; tauto].
    destruct (group_or_zero "seconds" caps) as [se|[m]] eqn:Es; simpl;
      [|intros [= <-]; rewrite (group_or_zero_raises _ _ _ Es); simpl; tauto].
    discriminate.
Qed.

(** *** The three forms without white space *)

Lemma parse_duration_two (m s : string) :
  isdecimal m = true -> isdecimal s = true ->
  parse_duration (m ++ ":" ++ s) = Ok (decimal_value m * 60 + decimal_value s).
Proof.
  intros Hm Hs.
  pose proof (parse_duration_mm_ss "" m "" "" s "" Hm Hs) as H.
  cbn [append] in H. rewrite append_nil_r in H. auto.
Qed.

Lemma parse_duration_three (h m s : string) :
  isdecimal h = true -> isdecimal m = true -> isdecimal s = true ->
  parse_duration (h ++ ":" ++ m ++ ":" ++ s) =
    Ok (decimal_value h * 3600 + decimal_value m * 60 + decimal_value s).
Proof.
  intros Hh Hm Hs.
  pose proof (parse_duration_hh_mm_ss "" h "" "" m "" "" s "" Hh Hm Hs) as H.
  cbn [append] in H. rewrite append_nil_r in H. auto.
Qed.

Lemma parse_duration_digits (d : string) :
  isdecimal d = true -> parse_duration d = Ok (decimal_value d).
Proof.
  intros Hd. pose proof (parse_duration_bare "" d "" Hd) as H.
  cbn [append] in H. rewrite append_nil_r in H. auto.
Qed.

(** A superscript two passes [isdigit], and [int] then refuses it. *)
Example superscript_digit_refused :
  isdigit (String "178" "") = true
  /\ parse_duration (String "178" ":5") =
       Raise (ValueError
                ("invalid literal for int() with base 10: '"
                 ++ String "178" "'")).
Proof. split; reflexivity. Qed.

(** *** The parser as a whole *)

(** C4.  The six sample inputs parse, or fail, as listed; [parse_duration]
    tries the colon form first (whenever the stripped text has a colon,
    and then nothing else), then bare seconds, then the suffix form; and
    each form reads what it should: [mm:ss] and [hh:mm:ss] with components
    of decimal digits, a run of decimal digits as seconds, and the groups
    of hours, minutes and seconds in that order, the letter in either
    case, an absent group counting as zero.  The runs of digits are those
    within the interpreter's limit of 4300 digits. *)
Theorem parse_duration_grammars :
  (parse_duration "90" = Ok 90
   /\ parse_duration "2m30s" = Ok 150
   /\ parse_duration "00:10" = Ok 10
   /\ parse_duration "1:02:03" = Ok 3723
   /\ parse_duration "" = Raise (ValueError "Empty duration")
   /\ parse_duration "abc" = Raise (ValueError "Invalid duration: abc"))
  /\ (forall value : string,
        parse_duration value =
          let v := strip value in
          if is_empty v then Raise (ValueError "Empty duration")
          else if contains ":" v then colon_form v
          else if isdigit v then int v
          else suffix_form v)
  /\ parse_duration "1:30s" = Raise (ValueError "Invalid time format: 1:30s")
  /\ (forall m s : string,
        isdecimal m = true -> isdecimal s = true -> short m -> short s ->
        parse_duration (m ++ ":" ++ s) =
          Ok (decimal_value m * 60 + decimal_value s))
  /\ (forall h m s : string,
        isdecimal h = true -> isdecimal m = true -> isdecimal s = true ->
        short h -> short m -> short s ->
        parse_duration (h ++ ":" ++ m ++ ":" ++ s) =
          Ok (decimal_value h * 3600 + decimal_value m * 60 + decimal_value s))
  /\ (forall d : string,
        isdecimal d = true -> short d ->
        parse_duration d = Ok (decimal_value d))
  /\ (forall (oh om os : option string) (xh xm xs : ascii),
        group_digits oh -> group_digits om -> group_digits os ->
        group_short oh -> group_short om -> group_short os ->
        unit_letter "h" xh -> unit_letter "m" xm -> unit_letter "s" xs ->
        oh <> None \/ om <> None \/ os <> None ->
        parse_duration
          (group_text oh xh ++ group_text om xm ++ group_text os xs) =
          Ok (group_value oh * 3600 + group_value om * 60 + group_value os)).
Proof.
  split; [repeat split; reflexivity|].
  split; [reflexivity|].
  split; [reflexivity|].
  split; [intros m s Hm Hs _ _; apply parse_duration_two; assumption|].
  split; [intros h m s Hh Hm Hs _ _ _; apply parse_duration_three; assumption|].
  split; [intros d Hd _; apply parse_duration_digits, Hd|].
  intros oh om os xh xm xs Hh Hm Hs _ _ _. apply parse_duration_suffix; assumption.
Qed.

Lemma parse_duration_grammars_witness :
  (isdecimal "07" = true /\ isdecimal "45" = true
   /\ short "07" /\ short "45"
   /\ parse_duration "07:45" = Ok 465)
  /\ (group_digits (Some "1") /\ group_digits None /\ group_digits (Some "20")
      /\ group_short (Some "1") /\ group_short None
      /\ group_short (Some "20")
      /\ unit_letter "h" "H" /\ unit_letter "m" "m" /\ unit_letter "s" "S"
      /\ parse_duration "1H20S" = Ok 3620).
Proof.
  assert (S2 : forall d, (String.length d <= 2)%nat -> short d).
  { intros d H. unfold short, int_max_str_digits. lia. }
  split.
  - split; [reflexivity|]. split; [reflexivity|].
    split; [apply S2; cbn; lia|]. split; [apply S2; cbn; lia|].
    apply (proj1 (proj2 (proj2 (proj2 parse_duration_grammars))) "07" "45");
      first [reflexivity | apply S2; cbn; lia].
  - repeat (split; [first [reflexivity | exact I | apply S2; cbn; lia]|]).
    apply (proj2 (proj2 (proj2 (proj2 (proj2 (proj2 parse_duration_grammars)))))
             (Some "1") None (Some "20") "H"%char "m"%char "S"%char);
      first [reflexivity | exact I | apply S2; cbn; lia | left; discriminate].
Defined.

(** C6.  The parser accepts the texts that denote zero seconds, in each of
    its forms, and returns 0, for runs of zeros within the interpreter's
    limit of 4300 digits; it never returns a negative number, and none
    of its errors is the range error.  The range check is
    [validate_duration] alone: it raises "Duration must be greater than 0"
    for every [n <= 0], 0 and -5 among them, and accepts every [n > 0]. *)
Theorem zero_rejected_by_validation_only :
  (parse_duration "0" = Ok 0 /\ parse_duration "0s" = Ok 0)
  /\ (forall z : string,
        isdecimal z = true -> decimal_value z = 0 -> short z ->
        parse_duration z = Ok 0
        /\ parse_duration (z ++ ":" ++ z) = Ok 0
        /\ parse_duration (z ++ ":" ++ z ++ ":" ++ z) = Ok 0
        /\ parse_duration (z ++ "s") = Ok 0)
  /\ (forall (value : string) (n : Z), parse_duration value = Ok n -> 0 <= n)
  /\ (forall value : string,
        parse_duration value <>
          Raise (ValueError "Duration must be greater than 0"))
  /\ (forall n : Z,
        n <= 0 ->
        validate_duration n =
          Raise (ValueError "Duration must be greater than 0"))
  /\ (forall n : Z, 0 < n -> validate_duration n = Ok tt)
  /\ validate_duration 0 = Raise (ValueError "Duration must be greater than 0")
  /\ validate_duration (-5) =
       Raise (ValueError "Duration must be greater than 0").
Proof.
  split; [split; reflexivity|].
  split.
  { intros z Hz H0 _. repeat split.
    - rewrite (parse_duration_digits z Hz), H0. reflexivity.
    - rewrite (parse_duration_two z z Hz Hz), H0. reflexivity.
    - rewrite (parse_duration_three z z z Hz Hz Hz), H0. reflexivity.
    - assert (Hsome : @None string <> None \/ @None string <> None
                      \/ Some z <> None) by (right; right; discriminate).
      pose proof (parse_duration_suffix None None (Some z) "h" "m" "s"
                    I I Hz eq_refl eq_refl eq_refl Hsome) as H.
      cbn [group_text group_value append] in H.
      rewrite H, H0. reflexivity. }
  split; [exact parse_duration_nonneg|].
  split.
  { intros value H. apply parse_duration_raises in H. simpl in H.
    intuition discriminate. }
  split.
  { intros n Hn. unfold validate_duration.
    destruct (Z.leb_spec n 0); [reflexivity|lia]. }
  split.
  { intros n Hn. unfold validate_duration.
    destruct (Z.leb_spec n 0); [lia|reflexivity]. }
  split; reflexivity.
Qed.

Lemma zero_rejected_by_validation_only_witness :
  (isdecimal "000" = true /\ decimal_value "000" = 0 /\ short "000"
   /\ parse_duration "000:000" = Ok 0)
  /\ (-7 <= 0
      /\ validate_duration (-7) =
           Raise (ValueError "Duration must be greater than 0"))
  /\ (0 < 90 /\ validate_duration 90 = Ok tt).
Proof.
  destruct zero_rejected_by_validation_only
    as (_ & Hz & _ & _ & Hle & Hgt & _).
  split; [|split].
  - assert (Hs : short "000") by (unfold short, int_max_str_digits; cbn; lia).
    split; [reflexivity|]. split; [reflexivity|]. split; [exact Hs|].
    apply (Hz "000"); first [reflexivity | exact Hs].
  - split; [lia|]. apply Hle. lia.
  - split; [lia|]. apply Hgt. lia.
Defined.



End ParserProperties.

(** ** Truncation and the clock text *)

Module FormatFacts.
Import PyStr PyStrFacts.

Lemma trunc_nonneg (q : Q) : 0 <= q -> trunc q = Qfloor q.
Proof.
  destruct q as [n d]. unfold Qle, trunc, Qfloor. simpl. intros H.
  apply Z.quot_div_nonneg; lia.
Qed.

Lemma trunc_nonpos (q : Q) : q <= 0 -> trunc q = Qceiling q.
Proof.
  destruct q as [n d]. unfold Qle, trunc, Qceiling, Qfloor. simpl. intros H.
  rewrite <- (Z.opp_involutive n) at 1. rewrite Z.quot_opp_l by lia.
  f_equal. apply Z.quot_div_nonneg; lia.
Qed.

#[export] Instance trunc_proper : Proper (Qeq ==> eq) trunc.
Proof.
  intros x y E. destruct (Qlt_le_dec x 0) as [Hx|Hx].
  - rewrite !trunc_nonpos.
    + unfold Qceiling. rewrite E. reflexivity.
    + rewrite <- E. apply Qlt_le_weak, Hx.
    + apply Qlt_le_weak, Hx.
  - rewrite !trunc_nonneg.
    + rewrite E. reflexivity.
    + rewrite <- E. exact Hx.
    + exact Hx.
Qed.

Local Open Scope Z_scope.

Lemma digit_char_spec (d : Z) :
  0 <= d <= 9 ->
  is_decimal (digit_char d) = true /\ digit_value (digit_char d) = d.
Proof.
  intros H.
  assert (C : d = 0 \/ d = 1 \/ d = 2 \/ d = 3 \/ d = 4 \/ d = 5 \/ d = 6
              \/ d = 7 \/ d = 8 \/ d = 9) by lia.
  repeat (destruct C as [-> | C]; [split; reflexivity|]).
  subst d. split; reflexivity.
Qed.

Lemma digits_from_spec (fuel : nat) : forall (n : Z) (acc : string),
  0 <= n < 2 ^ Z.of_nat fuel ->
  forallb_str is_decimal acc = true ->
  forallb_str is_decimal (digits_from fuel n acc) = true
  /\ decimal_value (digits_from fuel n acc) = decimal_value_from n acc.
Proof.
  induction fuel as [|fuel IH]; intros n acc Hn Hacc.
  - simpl in Hn. assert (n = 0) by lia. subst n. split; [exact Hacc|reflexivity].
  - cbn [digits_from].
    assert (Hd : 0 <= n mod 10 <= 9) by (pose proof (Z.mod_pos_bound n 10); lia).
    destruct (digit_char_spec (n mod 10) Hd) as [Hdec Hval].
    destruct (Z.ltb_spec n 10) as [Hlt|Hge].
    + split.
      * cbn [forallb_str]. rewrite Hdec, Hacc. reflexivity.
      * unfold decimal_value. cbn [decimal_value_from].
        rewrite Hval, Z.mod_small by lia. reflexivity.
    + destruct (IH (n / 10) (String (digit_char (n mod 10)) acc)) as [H1 H2].
      * split; [apply Z.div_pos; lia|].
        apply Z.div_lt_upper_bound; [lia|].
        rewrite Nat2Z.inj_succ, Z.pow_succ_r in Hn by lia. lia.
      * cbn [forallb_str]. rewrite Hdec, Hacc. reflexivity.
      * split; [exact H1|]. rewrite H2. cbn [decimal_value_from].
        rewrite Hval. f_equal. pose proof (Z.div_mod n 10). lia.
Qed.

Lemma digits_from_nonempty (fuel : nat) (n : Z) (acc : string) :
  is_empty (digits_from (S fuel) n acc) = false.
Proof.
  revert n acc. induction fuel as [|fuel IH]; intros n acc.
  - simpl. destruct (n <? 10); reflexivity.
  - cbn [digits_from]. destruct (n <? 10); [reflexivity|]. apply IH.
Qed.

(** [str(n)] is a run of decimal digits that denotes [n]. *)
Lemma decimal_spec (n : Z) :
  0 <= n -> isdecimal (decimal n) = true /\ decimal_value (decimal n) = n.
Proof.
  intros Hn. unfold decimal.
  destruct (digits_from_spec (S (Z.to_nat (Z.log2 n))) n "") as [H1 H2];
    [|reflexivity|].
  - split; [exact Hn|].
    rewrite Nat2Z.inj_succ, Z2Nat.id by apply Z.log2_nonneg.
    destruct (Z.eq_dec n 0) as [->|Hne]; [reflexivity|].
    apply Z.log2_spec. lia.
  - split; [|exact H2]. unfold isdecimal.
    rewrite digits_from_nonempty, H1. reflexivity.
Qed.

Lemma format_02d_spec (n : Z) :
  0 <= n ->
  isdecimal (format_02d n) = true /\ decimal_value (format_02d n) = n.
Proof.
  intros Hn. unfold format_02d.
  destruct (decimal_spec n Hn) as [H1 H2].
  destruct (Z.ltb_spec n 0); [lia|].
  destruct (n <? 10); [|auto].
  split.
  - unfold isdecimal in *. apply andb_true_iff in H1 as [_ H1].
    cbn. exact H1.
  - exact H2.
Qed.


(** The three fields of the clock text. *)
Lemma clock_fields (n : Z) :
  0 <= n ->
  0 <= n / 3600 /\ 0 <= n mod 3600 / 60 < 60 /\ 0 <= n mod 60 < 60
  /\ n = n / 3600 * 3600 + n mod 3600 / 60 * 60 + n mod 60.
Proof.
  intros Hn.
  pose proof (Z.div_mod n 3600). pose proof (Z.mod_pos_bound n 3600).
  pose proof (Z.div_mod (n mod 3600) 60).
  pose proof (Z.mod_pos_bound (n mod 3600) 60).
  assert (E : (n mod 3600) mod 60 = n mod 60).
  { apply Z.mod_mod_divide. exists 60. reflexivity. }
  rewrite <- E.
  repeat split; try lia;
    first [apply Z.div_pos; lia | apply Z.div_lt_upper_bound; lia].
Qed.

End FormatFacts.

(** The clock text reads back, in the colon form, as the number of
    seconds it was made from. *)
Lemma parse_clock (n : Z) : (0 <= n)%Z -> parse_duration (clock n) = Ok n.
Proof.
  intros Hn. unfold clock.
  destruct (FormatFacts.clock_fields n Hn) as (Hh & Hm & Hs & E).
  destruct (FormatFacts.format_02d_spec (n / 3600) Hh) as [Dh Vh].
  destruct (FormatFacts.format_02d_spec (n mod 3600 / 60)) as [Dm Vm]; [lia|].
  destruct (FormatFacts.format_02d_spec (n mod 60)) as [Ds Vs]; [lia|].
  destruct (Z.gtb_spec (n / 3600) 0) as [Hpos|Hzero].
  - rewrite parse_duration_three by assumption.
    rewrite Vh, Vm, Vs. f_equal. lia.
  - rewrite parse_duration_two by assumption.
    rewrite Vm, Vs. f_equal. lia.
Qed.

(** ** Floating point *)

Section TimerProperties.
Import FormatFacts.

Context {R : Rounding}.

#[local] Instance rnd_proper : Proper (Qeq ==> Qeq) rnd.
Proof.
  intros x y E. apply Qle_antisym; apply rnd_monotone; rewrite E; apply Qle_refl.
Qed.

#[local] Instance fadd_proper : Proper (Qeq ==> Qeq ==> Qeq) fadd.
Proof. intros x x' Ex y y' Ey. unfold fadd. rewrite Ex, Ey. reflexivity. Qed.

#[local] Instance fsub_proper : Proper (Qeq ==> Qeq ==> Qeq) fsub.
Proof. intros x x' Ex y y' Ey. unfold fsub. rewrite Ex, Ey. reflexivity. Qed.

#[local] Instance fmul_proper : Proper (Qeq ==> Qeq ==> Qeq) fmul.
Proof. intros x x' Ex y y' Ey. unfold fmul. rewrite Ex, Ey. reflexivity. Qed.

#[local] Instance fdiv_proper : Proper (Qeq ==> Qeq ==> Qeq) fdiv.
Proof. intros x x' Ex y y' Ey. unfold fdiv. rewrite Ex, Ey. reflexivity. Qed.

(** A number equal to [m * 2^e], with [m] and [e] in range, is a float. *)
Lemma rnd_dyadic (q : Q) (m e : Z) :
  q == inject_Z m * 2 ^ e ->
  (Z.abs m < 2 ^ 53)%Z -> (-1074 <= e <= 971)%Z -> rnd q == q.
Proof. intros E Hm He. rewrite E. apply rnd_representable; assumption. Qed.

Lemma rnd_integer (n : Z) :
  (Z.abs n < 2 ^ 53)%Z -> rnd (inject_Z n) == inject_Z n.
Proof.
  intros Hn. apply (rnd_dyadic _ n 0); [|exact Hn|lia].
  simpl. ring.
Qed.

Lemma rnd_0 : rnd 0 == 0.
Proof. apply (rnd_integer 0). reflexivity. Qed.

Lemma rnd_1 : rnd 1 == 1.
Proof. apply (rnd_integer 1). reflexivity. Qed.

Lemma of_int_monotone (m n : Z) : (m <= n)%Z -> of_int m <= of_int n.
Proof.
  intros H. apply rnd_monotone. rewrite <- Zle_Qle. exact H.
Qed.

Lemma of_int_positive (n : Z) : (0 < n)%Z -> 1 <= of_int n.
Proof.
  intros H. rewrite <- rnd_1. apply (of_int_monotone 1 n). lia.
Qed.

Lemma of_int_nonpositive (n : Z) : (n <= 0)%Z -> of_int n <= 0.
Proof.
  intros H. rewrite <- rnd_0. apply (of_int_monotone n 0). exact H.
Qed.

(** ** Formatting *)

Lemma format_time_exact (x : Q) :
  rnd (x + (1 # 2)) == x + (1 # 2) ->
  format_time x = clock (Z.max 0 (trunc (x + (1 # 2)))).
Proof. intros E. unfold format_time, fadd. rewrite E. reflexivity. Qed.

(** The text for an argument that, with the half added, is an odd or even
    number of halves of moderate size, and so a float. *)
Lemma format_time_halves (x : Q) (m : Z) (text : string) :
  x + (1 # 2) == inject_Z m * 2 ^ (-1) -> (Z.abs m < 2 ^ 53)%Z ->
  clock (Z.max 0 (trunc (x + (1 # 2)))) = text ->
  format_time x = text.
Proof.
  intros E Hm <-. apply format_time_exact.
  apply (rnd_dyadic _ m (-1)); [exact E|exact Hm|lia].
Qed.


Lemma trunc_monotone (x y : Q) : x <= y -> (trunc x <= trunc y)%Z.
Proof.
  intros H. destruct (Qlt_le_dec x 0) as [Hx|Hx], (Qlt_le_dec y 0) as [Hy|Hy].
  - rewrite !trunc_nonpos by (apply Qlt_le_weak; assumption).
    apply Qceiling_resp_le, H.
  - rewrite (trunc_nonpos x), (trunc_nonneg y)
      by first [assumption | apply Qlt_le_weak; assumption].
    apply Z.le_trans with 0%Z.
    + rewrite <- (Qceiling_Z 0). apply Qceiling_resp_le, Qlt_le_weak, Hx.
    + rewrite <- (Qfloor_Z 0). apply Qfloor_resp_le, Hy.
  - exfalso. apply (Qlt_irrefl 0).
    apply Qle_lt_trans with y; [|exact Hy]. apply Qle_trans with x; assumption.
  - rewrite !trunc_nonneg by assumption. apply Qfloor_resp_le, H.
Qed.

Lemma rnd_half : rnd (1 # 2) == 1 # 2.
Proof. apply (rnd_dyadic _ 1 (-1)); [reflexivity|reflexivity|lia]. Qed.

Lemma format_time_nonpositive (x : Q) : x <= 0 -> format_time x = "00:00".
Proof.
  intros Hx. unfold format_time.
  assert (H : fadd x (1 # 2) <= 1 # 2).
  { unfold fadd. apply Qle_trans with (rnd (1 # 2)); [|rewrite rnd_half; lra].
    apply rnd_monotone. lra. }
  apply trunc_monotone in H. change (trunc (1 # 2)) with 0%Z in H.
  rewrite Z.max_l by exact H. reflexivity.
Qed.



(** ** The percentage *)

Lemma py_min_Qmin (a b : Q) : py_min a b = Qmin a b.
Proof.
  unfold py_min, Qltb, Qmin, GenericMinMax.gmin.
  rewrite <- (Qcompare_antisym b a).
  destruct (b ?= a); reflexivity.
Qed.

#[local] Instance py_min_proper : Proper (Qeq ==> Qeq ==> Qeq) py_min.
Proof.
  intros a a' Ea b b' Eb. rewrite !py_min_Qmin. rewrite Ea, Eb. reflexivity.
Qed.

Lemma py_min_le_l (a b : Q) : py_min a b <= a.
Proof. rewrite py_min_Qmin. apply Q.le_min_l. Qed.

Lemma py_min_le_r (a b : Q) : py_min a b <= b.
Proof. rewrite py_min_Qmin. apply Q.le_min_r. Qed.

Lemma py_min_monotone (a b b' : Q) : b <= b' -> py_min a b <= py_min a b'.
Proof.
  intros H. rewrite !py_min_Qmin. apply Q.min_le_compat_l, H.
Qed.

Lemma percent_le_100 (remaining : Q) (total : Z) : percent remaining total <= 100.
Proof.
  unfold percent. destruct (total =? 0)%Z; [lra|apply py_min_le_l].
Qed.

(** A quarter of the way through 100 units. *)
Lemma percent_quarter : percent 75 100 == 25.
Proof.
  unfold percent, fmul, fsub, fdiv, of_int. cbn [Z.eqb].
  rewrite (rnd_integer 100) by reflexivity.
  rewrite (rnd_dyadic (75 / inject_Z 100) 3 (-2)) by (vm_compute; intuition congruence).
  rewrite (rnd_dyadic (1 - 75 / inject_Z 100) 1 (-2)) by (vm_compute; intuition congruence).
  rewrite (rnd_dyadic ((1 - 75 / inject_Z 100) * 100) 25 0) by (vm_compute; intuition congruence).
  vm_compute. reflexivity.
Qed.

(** C3.  The percentage is 0 for a total of 0 and otherwise the smaller of
    100 and [(1 - remaining / total) * 100]; it is at most 100 whatever
    the remaining time, negative or not; and 25 units into a total of 100
    it is 25. *)
Theorem percent_clamped :
  (forall remaining : Q, percent remaining 0 = 0)
  /\ (forall (remaining : Q) (total : Z),
        total <> 0%Z ->
        percent remaining total =
          Qmin 100 (fmul (fsub 1 (fdiv remaining (of_int total))) 100))
  /\ (forall (remaining : Q) (total : Z), percent remaining total <= 100)
  /\ percent 75 100 == 25
  /\ percent (fsub (of_int 100) 25) 100 == 25.
Proof.
  split; [reflexivity|].
  split.
  { intros remaining total Ht. unfold percent.
    destruct (Z.eqb_spec total 0); [contradiction|]. apply py_min_Qmin. }
  split; [exact percent_le_100|].
  split; [exact percent_quarter|].
  assert (E : fsub (of_int 100) 25 == 75).
  { unfold fsub, of_int. rewrite (rnd_integer 100) by reflexivity.
    apply (rnd_integer 75). reflexivity. }
  unfold percent in *. cbn [Z.eqb]. rewrite E. exact percent_quarter.
Qed.

(** ** Keys *)

Lemma handle_key_quit (now : Q) (key : string) (st : TimerState) :
  In key ["q"; "Q"] -> handle_key now (Some key) st = None.
Proof. intros [<-|[<-|[]]]; reflexivity. Qed.

Lemma handle_key_toggle (now : Q) (key : string) (st : TimerState) :
  In key ["p"; "P"; " "] ->
  handle_key now (Some key) st =
    Some (if paused st
          then {| start := now;
                  elapsed_before_pause := elapsed_before_pause st;
                  paused := false |}
          else {| start := start st;
                  elapsed_before_pause :=
                    fadd (elapsed_before_pause st) (fsub now (start st));
                  paused := true |}).
Proof.
  intros [<-|[<-|[<-|[]]]]; cbn; destruct (paused st); reflexivity.
Qed.

Lemma handle_key_start (now : Q) (key : string) (st : TimerState) :
  In key ["s"; "S"] ->
  handle_key now (Some key) st =
    Some (if paused st
          then {| start := now;
                  elapsed_before_pause := elapsed_before_pause st;
                  paused := false |}
          else st).
Proof. intros [<-|[<-|[]]]; reflexivity. Qed.

Lemma handle_key_other (now : Q) (key : string) (st : TimerState) :
  ~ In (PyStr.lower key) ["q"; "p"; " "; "s"] ->
  handle_key now (Some key) st = Some st.
Proof.
  intros H. unfold handle_key.
  destruct (PyStr.is_empty key); [reflexivity|].
  destruct (String.eqb_spec (PyStr.lower key) "q") as [E|_];
    [exfalso; apply H; rewrite E; simpl; tauto|].
  destruct (String.eqb_spec (PyStr.lower key) "p") as [E|_];
    [exfalso; apply H; rewrite E; simpl; tauto|].
  destruct (String.eqb_spec (PyStr.lower key) " ") as [E|_];
    [exfalso; apply H; rewrite E; simpl; tauto|].
  destruct (String.eqb_spec (PyStr.lower key) "s") as [E|_];
    [exfalso; apply H; rewrite E; simpl; tauto|].
  reflexivity.
Qed.

(** ** The loop *)

Lemma loop_step (duration : Z) (label : string) (tick : Q) (st : TimerState)
  (now : Q) (key : option string) (readings : list Reading) :
  loop duration label tick st ((now, key) :: readings) =
    match handle_key now key st with
    | None => ([], Returned)
    | Some st' =>
        if Qle_bool (remaining_at duration now st') 0
        then ([Update (frame_at duration label now st')], Broke)
        else (Update (frame_at duration label now st') :: Sleep tick
                :: fst (loop duration label tick st' readings),
              snd (loop duration label tick st' readings))
    end.
Proof.
  cbn [loop]. destruct (handle_key now key st) as [st'|]; [|reflexivity].
  destruct (Qle_bool _ 0); [reflexivity|].
  destruct (loop duration label tick st' readings). reflexivity.
Qed.

(** The loop prints nothing. *)
Lemma loop_no_message (duration : Z) (label : string) (tick : Q)
  (readings : list Reading) : forall st : TimerState,
  Forall (fun e => ~ is_message e) (fst (loop duration label tick st readings)).
Proof.
  induction readings as [|[now key] readings IH]; intros st.
  - constructor.
  - rewrite loop_step. destruct (handle_key now key st) as [st'|]; [|constructor].
    destruct (Qle_bool _ 0); cbn [fst].
    + repeat constructor. intros [].
    + repeat constructor; try (intros []). apply IH.
Qed.

(** A loop left by [break] ended on a frame with no time remaining. *)
Lemma loop_broke (duration : Z) (label : string) (tick : Q)
  (readings : list Reading) : forall st : TimerState,
  snd (loop duration label tick st readings) = Broke ->
  exists events now st',
    fst (loop duration label tick st readings) =
      (events ++ [Update (frame_at duration label now st')])%list
    /\ remaining_at duration now st' <= 0.
Proof.
  induction readings as [|[now key] readings IH]; intros st.
  - discriminate.
  - rewrite loop_step. destruct (handle_key now key st) as [st'|]; [|discriminate].
    destruct (Qle_bool _ 0) eqn:E; cbn [fst snd].
    + intros _. exists [], now, st'. split; [reflexivity|].
      apply Qle_bool_iff, E.
    + intros H. destruct (IH st' H) as (events & now' & st'' & -> & Hr).
      exists (Update (frame_at duration label now st') :: Sleep tick :: events),
        now', st''. split; [reflexivity|exact Hr].
Qed.

Lemma run_timer_events (duration : Z) (label : string) (tick : Q) (clock0 : Q)
  (readings : list Reading) :
  let st0 := {| start := clock0; elapsed_before_pause := 0; paused := false |} in
  let events := fst (loop duration label tick st0 readings) in
  let exit := snd (loop duration label tick st0 readings) in
  run_timer duration label tick clock0 readings =
    (Add_task duration
       :: match exit with
          | Broke => (events ++ [Message "Time's up!"])%list
          | _ => events
          end,
     exit).
Proof.
  unfold run_timer. cbv zeta.
  destruct (loop duration label tick _ readings) as [events exit].
  destruct exit; reflexivity.
Qed.

(** A loop that is still going after some readings goes on with the
    next ones from the state it has reached. *)
Lemma loop_app (duration : Z) (label : string) (tick : Q)
  (before : list Reading) :
  forall (st st1 : TimerState) (events : list Event) (rest : list Reading),
  loop duration label tick st before = (events, Waiting st1) ->
  loop duration label tick st (before ++ rest)%list =
    ((events ++ fst (loop duration label tick st1 rest))%list,
     snd (loop duration label tick st1 rest)).
Proof.
  induction before as [|[now key] before IH]; intros st st1 events rest.
  - cbn [loop app]. intros [= <- <-].
    destruct (loop duration label tick st rest); reflexivity.
  - cbn [app]. rewrite !loop_step.
    destruct (handle_key now key st) as [st'|]; [|discriminate].
    destruct (Qle_bool _ 0); [discriminate|].
    destruct (loop duration label tick st' before) as [ev ex] eqn:E.
    cbn [fst snd]. intros [= <- ->].
    rewrite (IH st' st1 ev rest E). reflexivity.
Qed.

Lemma run_timer_app (duration : Z) (label : string) (tick clock0 : Q)
  (before rest : list Reading) (events : list Event) (st : TimerState) :
  loop duration label tick
    {| start := clock0; elapsed_before_pause := 0; paused := false |} before
  = (events, Waiting st) ->
  run_timer duration label tick clock0 (before ++ rest)%list =
    (Add_task duration
       :: match snd (loop duration label tick st rest) with
          | Broke => ((events ++ fst (loop duration label tick st rest))
                      ++ [Message "Time's up!"])%list
          | _ => (events ++ fst (loop duration label tick st rest))%list
          end,
     snd (loop duration label tick st rest)).
Proof.
  intros H. rewrite run_timer_events. cbv zeta.
  rewrite (loop_app duration label tick before _ st events rest H).
  reflexivity.
Qed.

(** C7.  [q] or [Q], in any state, leaves the loop at once, with no frame
    for that iteration: a run that is still going when the key comes ends
    there, with what it had shown and no message, whatever readings would
    follow.  An iteration with no time remaining draws its frame and
    leaves the loop: a run that is still going when that iteration comes
    ends with its frame followed by "Time's up!".  No run left by [q] has
    a message, and every run left by expiry ends with a frame and the
    message.  [s] or [S] resumes a paused timer, from the current instant,
    and does nothing to a running one.  Any other key, and no key, leave
    the state as it is.  What is said of a whole run is said of a
    duration and a tick on which its arithmetic raises no
    [OverflowError]. *)
Theorem quit_start_and_other_keys :
  (forall duration label tick st now key readings,
     In key ["q"; "Q"] ->
     loop duration label tick st ((now, Some key) :: readings) = ([], Returned))
  /\ (forall duration label tick clock0 before now key rest events st,
        in_range duration tick ->
        In key ["q"; "Q"] ->
        loop duration label tick
          {| start := clock0; elapsed_before_pause := 0; paused := false |}
          before = (events, Waiting st) ->
        run_timer duration label tick clock0
          (before ++ (now, Some key) :: rest)%list
        = (Add_task duration :: events, Returned)
        /\ Forall (fun e => ~ is_message e) (Add_task duration :: events))
  /\ (forall duration label tick clock0 before now key rest events st st',
        in_range duration tick ->
        loop duration label tick
          {| start := clock0; elapsed_before_pause := 0; paused := false |}
          before = (events, Waiting st) ->
        handle_key now key st = Some st' ->
        remaining_at duration now st' <= 0 ->
        run_timer duration label tick clock0
          (before ++ (now, key) :: rest)%list
        = (Add_task duration
             :: (events ++ [Update (frame_at duration label now st');
                            Message "Time's up!"])%list,
           Broke)
        /\ Forall (fun e => ~ is_message e) (Add_task duration :: events))
  /\ (forall duration label tick clock0 readings,
        snd (run_timer duration label tick clock0 readings) = Returned ->
        Forall (fun e => ~ is_message e)
          (fst (run_timer duration label tick clock0 readings)))
  /\ (forall duration label tick st now key readings st',
        handle_key now key st = Some st' ->
        remaining_at duration now st' <= 0 ->
        loop duration label tick st ((now, key) :: readings) =
          ([Update (frame_at duration label now st')], Broke))
  /\ (forall duration label tick clock0 readings,
        snd (run_timer duration label tick clock0 readings) = Broke ->
        exists events now st,
          fst (run_timer duration label tick clock0 readings) =
            (events ++ [Update (frame_at duration label now st);
                        Message "Time's up!"])%list
          /\ remaining_at duration now st <= 0
          /\ Forall (fun e => ~ is_message e) events)
  /\ (forall st now key,
        In key ["s"; "S"] -> paused st = true ->
        handle_key now (Some key) st =
          Some {| start := now;
                  elapsed_before_pause := elapsed_before_pause st;
                  paused := false |})
  /\ (forall st now key,
        In key ["s"; "S"] -> paused st = false ->
        handle_key now (Some key) st = Some st)
  /\ (forall st now key,
        ~ In (PyStr.lower key) ["q"; "p"; " "; "s"] ->
        handle_key now (Some key) st = Some st)
  /\ (forall st now, handle_key now None st = Some st).
Proof.
  assert (Hquiet : forall duration label tick st before events st1,
            loop duration label tick st before = (events, Waiting st1) ->
            Forall (fun e => ~ is_message e) (Add_task duration :: events)).
  { intros duration label tick st before events st1 H.
    constructor; [intros []|].
    pose proof (loop_no_message duration label tick before st) as Hn.
    rewrite H in Hn. exact Hn. }
  split.
  { intros duration label tick st now key readings Hk.
    rewrite loop_step, handle_key_quit by exact Hk. reflexivity. }
  split.
  { intros duration label tick clock0 before now key rest events st _ Hk H.
    split; [|eapply Hquiet, H].
    rewrite (run_timer_app duration label tick clock0 before _ events st H).
    rewrite loop_step, handle_key_quit by exact Hk.
    cbn [fst snd]. rewrite app_nil_r. reflexivity. }
  split.
  { intros duration label tick clock0 before now key rest events st st'
      _ H Hk Hr.
    split; [|eapply Hquiet, H].
    rewrite (run_timer_app duration label tick clock0 before _ events st H).
    rewrite loop_step, Hk. apply Qle_bool_iff in Hr. rewrite Hr.
    cbn [fst snd]. rewrite <- app_assoc. reflexivity. }
  split.
  { intros duration label tick clock0 readings.
    rewrite run_timer_events. cbv zeta. cbn [fst snd]. intros ->.
    constructor; [intros []|]. apply loop_no_message. }
  split.
  { intros duration label tick st now key readings st' Hk Hr.
    rewrite loop_step, Hk.
    apply Qle_bool_iff in Hr. rewrite Hr. reflexivity. }
  split.
  { intros duration label tick clock0 readings.
    rewrite run_timer_events. cbv zeta. cbn [fst snd]. intros Hb.
    rewrite Hb.
    pose proof (loop_no_message duration label tick readings
                  {| start := clock0; elapsed_before_pause := 0;
                     paused := false |}) as Hn.
    destruct (loop_broke _ _ _ _ _ Hb) as (events & now & st & E & Hr).
    rewrite E in Hn |- *.
    exists (Add_task duration :: events), now, st.
    split; [|split; [exact Hr|]].
    - cbn [app]. rewrite <- app_assoc. reflexivity.
    - constructor; [intros []|].
      apply Forall_app in Hn. tauto. }
  split.
  { intros st now key Hk Hp. rewrite handle_key_start, Hp by exact Hk.
    reflexivity. }
  split.
  { intros st now key Hk Hp. rewrite handle_key_start, Hp by exact Hk.
    reflexivity. }
  split; [intros st now key; apply handle_key_other|].
  reflexivity.
Qed.

(** ** The progress task *)

Lemma frame_at_within (duration : Z) (label : string) (now : Q)
  (st : TimerState) : frame_within duration label (frame_at duration label now st).
Proof.
  split; [exists now, st; split; reflexivity|apply py_min_le_r].
Qed.

Lemma loop_frames_within (duration : Z) (label : string) (tick : Q)
  (readings : list Reading) : forall (st : TimerState) (f : Frame),
  In (Update f) (fst (loop duration label tick st readings)) ->
  frame_within duration label f.
Proof.
  induction readings as [|[now key] readings IH]; intros st f.
  - intros [].
  - rewrite loop_step. destruct (handle_key now key st) as [st'|]; [|intros []].
    destruct (Qle_bool _ 0); cbn [fst].
    + intros [[= <-]|[]]. apply frame_at_within.
    + intros [[= <-]|[[=]|H]]; [apply frame_at_within|apply (IH st'), H].
Qed.

(** C10.  A run opens the progress task with the duration as its total.
    Every iteration that is not left by [q], the last one with its
    negative remaining time as any other, updates the task right after
    what the run had shown before, with [completed] the smaller of the
    elapsed time of that iteration and the duration, which is never more
    than the total; and the task is not updated in any other way.  The
    iterations are those of a run on a duration and a tick on which its
    arithmetic raises no [OverflowError]. *)
Theorem completed_within_total :
  (forall duration label tick clock0 before now key rest events st st',
     in_range duration tick ->
     loop duration label tick
       {| start := clock0; elapsed_before_pause := 0; paused := false |}
       before = (events, Waiting st) ->
     handle_key now key st = Some st' ->
     exists f after,
       fst (run_timer duration label tick clock0
              (before ++ (now, key) :: rest)%list)
       = (Add_task duration :: events ++ Update f :: after)%list
       /\ completed f = py_min (elapsed_at now st') (inject_Z duration)
       /\ completed f <= inject_Z duration
       /\ (remaining_at duration now st' <= 0 ->
           after = [Message "Time's up!"]))
  /\ (forall duration label tick clock0 readings,
      in_range duration tick ->
      exists events,
        fst (run_timer duration label tick clock0 readings) =
          Add_task duration :: events
        /\ (forall total, ~ In (Add_task total) events)
        /\ (forall f, In (Update f) events -> frame_within duration label f)).
Proof.
  split.
  { intros duration label tick clock0 before now key rest events st st'
      _ H Hk.
    rewrite (run_timer_app duration label tick clock0 before _ events st H).
    rewrite loop_step, Hk. cbn [fst].
    exists (frame_at duration label now st').
    destruct (Qle_bool (remaining_at duration now st') 0) eqn:E;
      cbn [fst snd].
    - exists [Message "Time's up!"]. split; [|split; [reflexivity|split]].
      + rewrite <- app_assoc. reflexivity.
      + apply py_min_le_r.
      + reflexivity.
    - exists (Sleep tick
              :: match snd (loop duration label tick st' rest) with
                 | Broke => (fst (loop duration label tick st' rest)
                             ++ [Message "Time's up!"])%list
                 | _ => fst (loop duration label tick st' rest)
                 end).
      split; [|split; [reflexivity|split]].
      + destruct (snd (loop duration label tick st' rest));
          rewrite <- ?app_assoc; cbn [app]; reflexivity.
      + apply py_min_le_r.
      + intros Hr. apply Qle_bool_iff in Hr. congruence. }
  intros duration label tick clock0 readings _.
  rewrite run_timer_events. cbv zeta. cbn [fst].
  set (st0 := {| start := clock0; elapsed_before_pause := 0; paused := false |}).
  pose proof (loop_frames_within duration label tick readings st0) as Hf.
  assert (Ha : forall rs st total,
             ~ In (Add_task total) (fst (loop duration label tick st rs))).
  { induction rs as [|[now key] rs IH]; intros st total; [intros []|].
    rewrite loop_step. destruct (handle_key now key st) as [st'|]; [|intros []].
    destruct (Qle_bool _ 0); cbn [fst].
    - intros [[=]|[]].
    - intros [[=]|[[=]|H]]. apply (IH st' total), H. }
  eexists. split; [reflexivity|].
  destruct (snd (loop duration label tick st0 readings)); split;
    try (intros total; apply Ha); try exact Hf.
  - intros total H. apply in_app_or in H as [H|[[=]|[]]]. apply (Ha _ _ _ H).
  - intros f H. apply in_app_or in H as [H|[[=]|[]]]. apply Hf, H.
Qed.

(** ** The state across one iteration *)

(** A key that does not quit leaves the state, pauses a running timer or
    resumes a paused one. *)
Lemma handle_key_cases (now : Q) (key : option string) (st st' : TimerState) :
  handle_key now key st = Some st' ->
  st' = st
  \/ (paused st = false /\ st' = pause_at now st)
  \/ (paused st = true /\ st' = resume_at now st).
Proof.
  unfold handle_key. destruct key as [k|]; [|intros [= <-]; auto].
  destruct (PyStr.is_empty k); [intros [= <-]; auto|].
  destruct (String.eqb (PyStr.lower k) "q"); [discriminate|].
  destruct (String.eqb_spec (PyStr.lower k) "p") as [E|_].
  { rewrite E. cbn. destruct (paused st) eqn:P; cbn; intros [= <-]; auto. }
  destruct (String.eqb_spec (PyStr.lower k) " ") as [E|_].
  { rewrite E. cbn. destruct (paused st) eqn:P; cbn; intros [= <-]; auto. }
  cbn. destruct (String.eqb (PyStr.lower k) "s"); cbn;
    [|intros [= <-]; auto].
  destruct (paused st) eqn:P; intros [= <-]; auto.
Qed.

Lemma handle_key_same_mode (now : Q) (key : option string)
  (st st' : TimerState) :
  handle_key now key st = Some st' -> paused st' = paused st -> st' = st.
Proof.
  intros H Hp.
  destruct (handle_key_cases now key st st' H) as [E|[[P E]|[P E]]];
    [exact E| |]; subst st'; cbn in Hp; congruence.
Qed.

(** A paused timer resumes from exactly what it had banked. *)
Lemma resume_from_banked (now : Q) (st : TimerState) :
  rnd (elapsed_before_pause st) == elapsed_before_pause st ->
  elapsed_at now (resume_at now st) == elapsed_before_pause st.
Proof.
  intros Hb. unfold elapsed_at, resume_at, fadd, fsub. cbn.
  assert (E : now - now == 0) by ring.
  rewrite E, rnd_0, Qplus_0_r. exact Hb.
Qed.

(** What is banked is always a float. *)
Lemma banked_is_float (now : Q) (key : option string) (st st' : TimerState) :
  rnd (elapsed_before_pause st) == elapsed_before_pause st ->
  handle_key now key st = Some st' ->
  rnd (elapsed_before_pause st') == elapsed_before_pause st'.
Proof.
  intros Hb Hk.
  destruct (handle_key_cases now key st st' Hk) as [E|[[P E]|[P E]]];
    subst st'; cbn; try exact Hb.
  unfold fadd. apply rnd_idempotent.
Qed.

(** ** Monotonicity *)

Lemma elapsed_at_monotone (st : TimerState) (n1 n2 : Q) :
  n1 <= n2 -> elapsed_at n1 st <= elapsed_at n2 st.
Proof.
  intros H. unfold elapsed_at. destruct (paused st); [apply Qle_refl|].
  unfold fadd, fsub. apply rnd_monotone.
  apply Qplus_le_r. apply rnd_monotone. lra.
Qed.

Lemma percent_monotone (duration : Z) (e1 e2 : Q) :
  (0 < duration)%Z -> e1 <= e2 ->
  percent (fsub (of_int duration) e1) duration
  <= percent (fsub (of_int duration) e2) duration.
Proof.
  intros Hd He. unfold percent.
  destruct (Z.eqb_spec duration 0); [lia|].
  apply py_min_monotone. unfold fmul, fsub, fdiv.
  pose proof (of_int_positive duration Hd) as HD.
  set (D := of_int duration) in *.
  assert (H1 : rnd (D - e2) <= rnd (D - e1)) by (apply rnd_monotone; lra).
  assert (H2 : rnd (rnd (D - e2) / D) <= rnd (rnd (D - e1) / D)).
  { apply rnd_monotone. unfold Qdiv. apply Qmult_le_compat_r; [exact H1|].
    apply Qinv_le_0_compat. lra. }
  apply rnd_monotone. apply Qmult_le_compat_r; [|lra].
  apply rnd_monotone. lra.
Qed.

Lemma fadd_nonneg (x y : Q) : 0 <= x -> 0 <= y -> 0 <= fadd x y.
Proof.
  intros Hx Hy. unfold fadd. rewrite <- rnd_0. apply rnd_monotone. lra.
Qed.

Lemma fsub_nonneg (x y : Q) : y <= x -> 0 <= fsub x y.
Proof.
  intros H. unfold fsub. rewrite <- rnd_0. apply rnd_monotone. lra.
Qed.

Lemma handle_key_inv (last now : Q) (key : option string)
  (st st' : TimerState) :
  clock_inv last st -> last <= now -> handle_key now key st = Some st' ->
  clock_inv now st'.
Proof.
  intros (He & Hb & Hs) Hn H.
  split; [|split; [eapply banked_is_float; eauto|]];
    destruct (handle_key_cases now key st st' H) as [E|[[P E]|[P E]]];
    subst st'; cbn; intros; try assumption; try lra; try discriminate.
  - apply fadd_nonneg; [exact He|]. apply fsub_nonneg. specialize (Hs P). lra.
  - specialize (Hs H0). lra.
Qed.

Lemma elapsed_at_nonneg (now : Q) (st : TimerState) :
  clock_inv now st -> 0 <= elapsed_at now st.
Proof.
  intros (He & _ & Hs). unfold elapsed_at.
  destruct (paused st) eqn:P; [exact He|].
  apply fadd_nonneg; [exact He|]. apply fsub_nonneg. auto.
Qed.

(** The elapsed time does not go down from one iteration to the next,
    whatever the key. *)
Lemma elapsed_step_monotone (last now : Q) (key : option string)
  (st st' : TimerState) :
  clock_inv last st -> last <= now -> handle_key now key st = Some st' ->
  elapsed_at last st <= elapsed_at now st'.
Proof.
  intros (_ & Hb & _) Hn H.
  destruct (handle_key_cases now key st st' H) as [E|[[P E]|[P E]]];
    subst st'.
  - apply elapsed_at_monotone, Hn.
  - unfold elapsed_at at 1. rewrite P.
    change (elapsed_at now (pause_at now st))
      with (fadd (elapsed_before_pause st) (fsub now (start st))).
    unfold fadd, fsub. apply rnd_monotone, Qplus_le_r, rnd_monotone. lra.
  - rewrite (resume_from_banked now st Hb). unfold elapsed_at. rewrite P.
    apply Qle_refl.
Qed.

(** With a duration that is not positive the first frame is the last. *)
Lemma remaining_nonpositive (duration : Z) (now : Q) (st : TimerState) :
  (duration <= 0)%Z -> clock_inv now st -> remaining_at duration now st <= 0.
Proof.
  intros Hd Hi. unfold remaining_at, fsub.
  pose proof (of_int_nonpositive duration Hd).
  pose proof (elapsed_at_nonneg now st Hi).
  rewrite <- rnd_0. apply rnd_monotone. lra.
Qed.

Lemma status_frame_at (duration : Z) (label : string) (now : Q)
  (st : TimerState) :
  status (header (frame_at duration label now st)) =
    if paused st then "Paused" else "Running".
Proof. reflexivity. Qed.

Lemma percent_frame_at (duration : Z) (label : string) (now : Q)
  (st : TimerState) :
  header_percent (header (frame_at duration label now st)) =
    percent (fsub (of_int duration) (elapsed_at now st)) duration.
Proof. reflexivity. Qed.

(** The frame of one iteration against the frame of the next. *)
Lemma percent_step_next (duration : Z) (label : string) (last now : Q)
  (key : option string) (st st' : TimerState) :
  clock_inv last st -> last <= now ->
  Qle_bool (remaining_at duration last st) 0 = false ->
  handle_key now key st = Some st' ->
  percent_step (frame_at duration label last st)
    (frame_at duration label now st').
Proof.
  intros Hi Hn Hr Hk.
  assert (Hd : (0 < duration)%Z).
  { destruct (Z.lt_ge_cases 0 duration) as [H|H]; [exact H|].
    pose proof (remaining_nonpositive duration last st H Hi) as Hle.
    apply Qle_bool_iff in Hle. congruence. }
  unfold percent_step. rewrite !status_frame_at, !percent_frame_at.
  split.
  - apply percent_monotone; [exact Hd|].
    eapply elapsed_step_monotone; eauto.
  - intros H1 H2.
    assert (E : st' = st).
    { apply (handle_key_same_mode now key), eq_trans with true;
        [exact Hk| |]; destruct (paused st'), (paused st);
        first [reflexivity | discriminate]. }
    subst st'. unfold elapsed_at.
    destruct (paused st); [reflexivity|discriminate].
Qed.

Lemma loop_percent_sorted (duration : Z) (label : string) (tick : Q)
  (readings : list Reading) : forall (last : Q) (st : TimerState),
  Sorted Qle (last :: map fst readings) -> clock_inv last st ->
  Sorted percent_step (frames (fst (loop duration label tick st readings)))
  /\ (Qle_bool (remaining_at duration last st) 0 = false ->
      HdRel percent_step (frame_at duration label last st)
        (frames (fst (loop duration label tick st readings)))).
Proof.
  induction readings as [|[now key] readings IH]; intros last st Hs Hi.
  - split; constructor.
  - cbn [map fst] in Hs. apply Sorted_inv in Hs as [Hs Hh].
    apply HdRel_inv in Hh.
    rewrite loop_step. destruct (handle_key now key st) as [st'|] eqn:Hk;
      [|split; constructor].
    pose proof (handle_key_inv last now key st st' Hi Hh Hk) as Hi'.
    destruct (IH now st' Hs Hi') as [IH1 IH2].
    destruct (Qle_bool (remaining_at duration now st') 0) eqn:Hr;
      cbn [fst frames].
    + split; [repeat constructor|].
      intros Hc. constructor. eapply percent_step_next; eauto.
    + split; [constructor; auto|].
      intros Hc. constructor. eapply percent_step_next; eauto.
Qed.

#[local] Instance percent_le_transitive : Transitive percent_le.
Proof. intros f g h. unfold percent_le. apply Qle_trans. Qed.

Lemma percent_step_le (l : list Frame) :
  Sorted percent_step l -> StronglySorted percent_le l.
Proof.
  intros H. apply Sorted_StronglySorted; [exact percent_le_transitive|].
  induction H as [|f l Hl IH Hh]; constructor; [exact IH|].
  destruct Hh as [|g l' [Hle _]]; constructor. exact Hle.
Qed.

Lemma frames_app (a b : list Event) :
  frames (a ++ b) = (frames a ++ frames b)%list.
Proof.
  induction a as [|e a IH]; [reflexivity|].
  destruct e; cbn; rewrite IH; reflexivity.
Qed.

(** C2.  On a clock whose readings never go back, and for any duration,
    the percentage shown does not go down from one frame to the next, and
    is the same in both when both show a paused timer; so it never goes
    down between a frame and any later one, running or not. *)
Theorem percent_monotone_while_running :
  forall duration label tick clock0 readings,
    Sorted Qle (clock0 :: map fst readings) ->
    Sorted percent_step
      (frames (fst (run_timer duration label tick clock0 readings)))
    /\ StronglySorted percent_le
         (frames (fst (run_timer duration label tick clock0 readings))).
Proof.
  intros duration label tick clock0 readings Hs.
  assert (H : Sorted percent_step
                (frames (fst (run_timer duration label tick clock0 readings)))).
  { rewrite run_timer_events. cbv zeta. cbn [fst frames].
    set (st0 := {| start := clock0; elapsed_before_pause := 0;
                   paused := false |}).
    assert (Hi : clock_inv clock0 st0).
    { split; [|split]; cbn; intros; first [apply Qle_refl | apply rnd_0]. }
    destruct (loop_percent_sorted duration label tick readings clock0 st0 Hs Hi)
      as [H _].
    destruct (snd (loop duration label tick st0 readings)); try exact H.
    rewrite frames_app. cbn. rewrite app_nil_r. exact H. }
  split; [exact H|apply percent_step_le, H].
Qed.

(** ** Pauses *)

#[local] Instance format_time_proper : Proper (Qeq ==> eq) format_time.
Proof. intros x y E. unfold format_time. rewrite E. reflexivity. Qed.

#[local] Instance percent_proper : Proper (Qeq ==> eq ==> Qeq) percent.
Proof.
  intros x y E t t' <-. unfold percent. destruct (t =? 0)%Z; [reflexivity|].
  rewrite E. reflexivity.
Qed.

Lemma handle_key_act (now : Q) (key : option string) (st : TimerState) :
  handle_key now key st = act (action_of key) now st.
Proof.
  unfold handle_key, action_of. destruct key as [k|]; [|reflexivity].
  destruct (PyStr.is_empty k); [reflexivity|].
  destruct (String.eqb (PyStr.lower k) "q"); [reflexivity|].
  destruct (String.eqb_spec (PyStr.lower k) "p") as [E|_].
  { rewrite E. cbn. destruct (paused st); reflexivity. }
  destruct (String.eqb_spec (PyStr.lower k) " ") as [E|_].
  { rewrite E. cbn. destruct (paused st); reflexivity. }
  cbn. destruct (String.eqb (PyStr.lower k) "s"); reflexivity.
Qed.

Lemma handle_key_shift (d now : Q) (key : option string)
  (st1 st2 : TimerState) :
  state_shift d st1 st2 ->
  match handle_key now key st1, handle_key (now + d) key st2 with
  | Some a, Some b => state_shift d a b
  | None, None => True
  | _, _ => False
  end.
Proof.
  intros (Hp & He & Hs). rewrite !handle_key_act.
  assert (Hpause : state_shift d (pause_at now st1) (pause_at (now + d) st2)
                   \/ paused st1 = true).
  { destruct (paused st1) eqn:P; [right; reflexivity|left].
    unfold state_shift, pause_at. cbn.
    split; [reflexivity|split; [|discriminate]].
    rewrite He, (Hs eq_refl). unfold fadd, fsub.
    assert (E : now + d - (start st1 + d) == now - start st1) by ring.
    rewrite E. reflexivity. }
  assert (Hresume : state_shift d (resume_at now st1) (resume_at (now + d) st2)).
  { unfold state_shift, resume_at. cbn.
    split; [reflexivity|split; [exact He|reflexivity]]. }
  assert (Hsame : state_shift d st1 st2) by (repeat split; assumption).
  destruct (action_of key); cbn; rewrite <- ?Hp;
    destruct (paused st1); try assumption; try exact I;
    destruct Hpause as [H|H]; first [exact H | discriminate H].
Qed.

Lemma elapsed_at_shift (d now : Q) (st1 st2 : TimerState) :
  state_shift d st1 st2 -> elapsed_at now st1 == elapsed_at (now + d) st2.
Proof.
  intros (Hp & He & Hs). unfold elapsed_at. rewrite <- Hp.
  destruct (paused st1); [exact He|].
  rewrite He, (Hs eq_refl). unfold fadd, fsub.
  assert (E : now + d - (start st1 + d) == now - start st1) by ring.
  rewrite E. reflexivity.
Qed.

Lemma frame_at_shift (duration : Z) (label : string) (d now : Q)
  (st1 st2 : TimerState) :
  state_shift d st1 st2 ->
  frame_equiv (frame_at duration label now st1)
    (frame_at duration label (now + d) st2).
Proof.
  intros H. pose proof (elapsed_at_shift d now st1 st2 H) as E.
  destruct H as (Hp & _).
  unfold frame_equiv, header_equiv, frame_at, build_header. cbn.
  rewrite <- Hp, E. repeat split; reflexivity.
Qed.

(** Moving the whole clock under a timer moved with it changes nothing. *)
Lemma loop_shift (duration : Z) (label : string) (tick d : Q)
  (readings : list Reading) : forall st1 st2 : TimerState,
  state_shift d st1 st2 ->
  Forall2 event_equiv
    (fst (loop duration label tick st1 readings))
    (fst (loop duration label tick st2 (map (delay d) readings)))
  /\ exit_shift d
       (snd (loop duration label tick st1 readings))
       (snd (loop duration label tick st2 (map (delay d) readings))).
Proof.
  induction readings as [|[now key] readings IH]; intros st1 st2 H.
  - split; [constructor|exact H].
  - cbn [map]. change (delay d (now, key)) with (now + d, key).
    rewrite !loop_step.
    pose proof (handle_key_shift d now key st1 st2 H) as Hk.
    destruct (handle_key now key st1) as [a|],
      (handle_key (now + d) key st2) as [b|]; try contradiction;
      [|split; constructor].
    pose proof (frame_at_shift duration label d now a b Hk) as Hf.
    assert (Er : remaining_at duration now a
                 == remaining_at duration (now + d) b).
    { unfold remaining_at.
      rewrite (elapsed_at_shift d now a b Hk). reflexivity. }
    rewrite <- Er.
    destruct (Qle_bool (remaining_at duration now a) 0); cbn [fst snd].
    + split; [constructor; [exact Hf|constructor]|exact I].
    + destruct (IH a b Hk) as [IH1 IH2].
      split; [|exact IH2].
      constructor; [exact Hf|]. constructor; [apply Qeq_refl|exact IH1].
Qed.

Lemma elapsed_step_exact (last now : Q) (key : option string)
  (st st' : TimerState) :
  (forall x : Q, rnd x == x) ->
  handle_key now key st = Some st' ->
  elapsed_at now st' ==
    elapsed_at last st + (if paused st then 0 else now - last).
Proof.
  intros Hx Hk.
  destruct (handle_key_cases now key st st' Hk) as [E|[[P E]|[P E]]];
    subst st'; unfold elapsed_at, pause_at, resume_at, fadd, fsub; cbn;
    try rewrite P; try destruct (paused st); rewrite ?Hx; ring.
Qed.

Lemma last_cons {A : Type} (l : list A) : forall a d : A,
  List.last (a :: l) d = List.last l a.
Proof.
  induction l as [|b l IH]; intros a d; [reflexivity|].
  change (List.last (a :: b :: l) d) with (List.last (b :: l) d).
  rewrite (IH b d), (IH b a). reflexivity.
Qed.

Lemma running_time_exact (duration : Z) (label : string) (tick : Q)
  (readings : list Reading) : forall (last : Q) (st st' : TimerState),
  (forall x : Q, rnd x == x) ->
  snd (loop duration label tick st readings) = Waiting st' ->
  elapsed_at (final_clock last readings) st' ==
    elapsed_at last st + running_time st last readings.
Proof.
  induction readings as [|[now key] readings IH]; intros last st st' Hx.
  - cbn. intros [= <-]. ring.
  - rewrite loop_step. cbn [running_time].
    destruct (handle_key now key st) as [st1|] eqn:Hk; [|discriminate].
    destruct (Qle_bool _ 0); [discriminate|]. cbn [snd]. intros Hw.
    specialize (IH now st1 st' Hx Hw).
    unfold final_clock in *. cbn [map fst]. rewrite last_cons, IH.
    rewrite (elapsed_step_exact last now key st st1 Hx Hk). ring.
Qed.

Lemma loop_banked (duration : Z) (label : string) (tick : Q)
  (readings : list Reading) : forall st st' : TimerState,
  rnd (elapsed_before_pause st) == elapsed_before_pause st ->
  snd (loop duration label tick st readings) = Waiting st' ->
  rnd (elapsed_before_pause st') == elapsed_before_pause st'.
Proof.
  induction readings as [|[now key] readings IH]; intros st st' Hb.
  - cbn. intros [= <-]. exact Hb.
  - rewrite loop_step.
    destruct (handle_key now key st) as [st1|] eqn:Hk; [|discriminate].
    destruct (Qle_bool _ 0); [discriminate|]. cbn [snd].
    apply IH. eapply banked_is_float; eauto.
Qed.

Lemma run_timer_exit (duration : Z) (label : string) (tick : Q) (clock0 : Q)
  (readings : list Reading) :
  snd (run_timer duration label tick clock0 readings) =
  snd (loop duration label tick
         {| start := clock0; elapsed_before_pause := 0; paused := false |}
         readings).
Proof. rewrite run_timer_events. reflexivity. Qed.

(** C1.  [p], [P] or space pauses a running timer, adding [now - start]
    to what is banked, and resumes a paused one from [now].  Hence: while
    the timer stays paused the elapsed time stays what it was, whatever
    the clock reads; a timer resumed shows exactly what it had banked;
    what a run shows and banks after a pause is the same however much
    longer the pause lasts; what is banked is always a float; and, where
    the arithmetic is exact, the elapsed time is the sum of the gaps
    between readings during which the timer was running. *)
Theorem pauses_add_nothing :
  (forall st now key,
     In key ["p"; "P"; " "] -> paused st = false ->
     handle_key now (Some key) st =
       Some {| start := start st;
               elapsed_before_pause :=
                 fadd (elapsed_before_pause st) (fsub now (start st));
               paused := true |})
  /\ (forall st now key,
        In key ["p"; "P"; " "] -> paused st = true ->
        handle_key now (Some key) st =
          Some {| start := now;
                  elapsed_before_pause := elapsed_before_pause st;
                  paused := false |})
  /\ (forall st now now' key st',
        paused st = true -> handle_key now' key st = Some st' ->
        paused st' = true ->
        st' = st /\ elapsed_at now' st' = elapsed_at now st)
  /\ (forall st now key st',
        rnd (elapsed_before_pause st) == elapsed_before_pause st ->
        paused st = true -> handle_key now key st = Some st' ->
        paused st' = false ->
        elapsed_at now st' == elapsed_before_pause st)
  /\ (forall duration label tick d readings st,
        paused st = true ->
        Forall2 event_equiv
          (fst (loop duration label tick st readings))
          (fst (loop duration label tick st (map (delay d) readings)))
        /\ exit_shift d
             (snd (loop duration label tick st readings))
             (snd (loop duration label tick st (map (delay d) readings))))
  /\ (forall duration label tick clock0 readings st',
        snd (run_timer duration label tick clock0 readings) = Waiting st' ->
        rnd (elapsed_before_pause st') == elapsed_before_pause st')
  /\ ((forall x : Q, rnd x == x) ->
      forall duration label tick clock0 readings st',
        snd (run_timer duration label tick clock0 readings) = Waiting st' ->
        let total :=
          running_time
            {| start := clock0; elapsed_before_pause := 0; paused := false |}
            clock0 readings in
        elapsed_at (final_clock clock0 readings) st' == total
        /\ (paused st' = true -> elapsed_before_pause st' == total)).
Proof.
  split.
  { intros st now key Hk Hp. rewrite handle_key_toggle, Hp by exact Hk.
    reflexivity. }
  split.
  { intros st now key Hk Hp. rewrite handle_key_toggle, Hp by exact Hk.
    reflexivity. }
  split.
  { intros st now now' key st' Hp Hk Hp'.
    assert (E : st' = st)
      by (apply (handle_key_same_mode now' key); congruence).
    subst st'. split; [reflexivity|]. unfold elapsed_at. rewrite Hp.
    reflexivity. }
  split.
  { intros st now key st' Hb Hp Hk Hp'.
    destruct (handle_key_cases now key st st' Hk) as [E|[[P E]|[P E]]];
      subst st'; [congruence|discriminate Hp'|].
    apply resume_from_banked, Hb. }
  split.
  { intros duration label tick d readings st Hp. apply loop_shift.
    split; [reflexivity|split; [reflexivity|congruence]]. }
  split.
  { intros duration label tick clock0 readings st'.
    rewrite run_timer_exit. apply loop_banked. cbn. apply rnd_0. }
  intros Hx duration label tick clock0 readings st'.
  rewrite run_timer_exit. intros Hw. cbv zeta.
  pose proof (running_time_exact duration label tick readings clock0 _ st'
                Hx Hw) as H.
  assert (E0 : elapsed_at clock0
                 {| start := clock0; elapsed_before_pause := 0;
                    paused := false |} == 0).
  { unfold elapsed_at, fadd, fsub. cbn. rewrite !Hx. ring. }
  rewrite E0, Qplus_0_l in H. split; [exact H|].
  intros Hp. unfold elapsed_at in H. rewrite Hp in H. exact H.
Qed.

(** ** The command *)

Lemma run_timer_on_usable (Attrs : Type) (cbreak : Attrs -> Attrs)
  (win32 : bool) (fileno : Z) (t : Terminal Attrs) (duration : Z)
  (label : string) (tick clock0 : Q) (readings : list Reading) :
  win32 = true \/ t <> None ->
  run_timer_on Attrs cbreak win32 fileno t duration label tick clock0 readings
  = Finished Attrs (fst (run_timer duration label tick clock0 readings))
      (snd (run_timer duration label tick clock0 readings)) t.
Proof.
  intros H. unfold run_timer_on.
  assert (E : with_KeyReader Attrs cbreak win32 fileno (fun _ t' => t') t
              = inr t).
  { destruct win32; [reflexivity|]. destruct t as [a|]; [reflexivity|].
    destruct H as [H|H]; [discriminate|congruence]. }
  rewrite E. destruct (run_timer duration label tick clock0 readings).
  reflexivity.
Qed.

Lemma main_on_valid (Attrs : Type) (cbreak : Attrs -> Attrs)
  (win32 : bool) (fileno : Z) (t : Terminal Attrs) (duration label : string)
  (tick clock0 : Q) (readings : list Reading) (n : Z) :
  parse_duration duration = Ok n -> (0 < n)%Z -> 0 < tick ->
  main_on Attrs cbreak win32 fileno t duration label tick clock0 readings
  = run_timer_on Attrs cbreak win32 fileno t n label tick clock0 readings.
Proof.
  intros Hp Hn Ht. unfold main_on, validate_duration. rewrite Hp. cbn [bind].
  destruct (Z.leb_spec n 0); [lia|]. cbn [bind].
  destruct (Qle_bool tick 0) eqn:E; [|reflexivity].
  apply Qle_bool_iff in E. lra.
Qed.

(** C8.  [main] rejects, before anything is shown, a duration that does
    not parse (with the parser's message), a duration that is not
    positive, and then a tick that is not positive; each is a parameter
    error, which exits with status 2.  With a positive duration and a
    positive tick, both within the range of the run's arithmetic, on
    Windows or when standard input is a terminal, it runs the timer on that duration: the progress task is
    opened with it, an iteration not left by [q] draws its frame, and the
    terminal is left as it was; a run left by [q] or by expiry exits with
    status 0.  When standard input is not a terminal, off Windows, the
    command fails on entering the key reader, after opening the task and
    before any frame, and does not exit with status 0. *)
Theorem main_checks_arguments :
  forall (Attrs : Type) (cbreak : Attrs -> Attrs) (win32 : bool) (fileno : Z)
    (t : Terminal Attrs),
  let main_on := main_on Attrs cbreak win32 fileno t in
  let usable := win32 = true \/ t <> None in
  (forall duration label tick clock0 readings msg,
     parse_duration duration = Raise (ValueError msg) ->
     main_on duration label tick clock0 readings = Usage Attrs msg)
  /\ (forall duration label tick clock0 readings n,
        parse_duration duration = Ok n -> (n <= 0)%Z ->
        main_on duration label tick clock0 readings =
          Usage Attrs "Duration must be greater than 0")
  /\ (forall duration label tick clock0 readings n,
        parse_duration duration = Ok n -> (0 < n)%Z -> tick <= 0 ->
        main_on duration label tick clock0 readings =
          Usage Attrs "--tick must be greater than 0")
  /\ (forall msg, ending_status Attrs (Usage Attrs msg) = Some 2%Z)
  /\ (forall duration label tick clock0 readings n,
        parse_duration duration = Ok n -> (0 < n)%Z -> 0 < tick ->
        in_range n tick -> usable ->
        main_on duration label tick clock0 readings =
          Finished Attrs (fst (run_timer n label tick clock0 readings))
            (snd (run_timer n label tick clock0 readings)) t
        /\ exists events,
             fst (run_timer n label tick clock0 readings) =
               Add_task n :: events)
  /\ (forall duration label tick clock0 now key rest n st',
        parse_duration duration = Ok n -> (0 < n)%Z -> 0 < tick ->
        in_range n tick -> usable ->
        handle_key now key
          {| start := clock0; elapsed_before_pause := 0; paused := false |}
        = Some st' ->
        exists after exit,
          main_on duration label tick clock0 ((now, key) :: rest) =
            Finished Attrs
              (Add_task n :: Update (frame_at n label now st') :: after)
              exit t)
  /\ (forall duration label tick clock0 before now key rest n events st,
        parse_duration duration = Ok n -> (0 < n)%Z -> 0 < tick ->
        in_range n tick -> usable -> In key ["q"; "Q"] ->
        loop n label tick
          {| start := clock0; elapsed_before_pause := 0; paused := false |}
          before = (events, Waiting st) ->
        main_on duration label tick clock0
          (before ++ (now, Some key) :: rest)%list
        = Finished Attrs (Add_task n :: events) Returned t
        /\ ending_status Attrs (Finished Attrs (Add_task n :: events) Returned t)
           = Some 0%Z)
  /\ (forall duration label tick clock0 before now key rest n events st st',
        parse_duration duration = Ok n -> (0 < n)%Z -> 0 < tick ->
        in_range n tick -> usable ->
        loop n label tick
          {| start := clock0; elapsed_before_pause := 0; paused := false |}
          before = (events, Waiting st) ->
        handle_key now key st = Some st' ->
        remaining_at n now st' <= 0 ->
        let shown :=
          (Add_task n
             :: events ++ [Update (frame_at n label now st');
                           Message "Time's up!"])%list in
        (main_on duration label tick clock0 (before ++ (now, key) :: rest)%list
         = Finished Attrs shown Broke t
         /\ ending_status Attrs (Finished Attrs shown Broke t) = Some 0%Z))
  /\ (forall duration label tick clock0 readings n,
        parse_duration duration = Ok n -> (0 < n)%Z -> 0 < tick ->
        win32 = false -> t = None ->
        main_on duration label tick clock0 readings =
          Crashed Attrs termios_error [Add_task n]
        /\ ending_status Attrs (Crashed Attrs termios_error [Add_task n])
           = Some 1%Z).
Proof.
  intros Attrs cbreak win32 fileno t main_on' usable. unfold main_on'.
  split.
  { intros duration label tick clock0 readings msg Hp.
    unfold main_on. rewrite Hp. reflexivity. }
  split.
  { intros duration label tick clock0 readings n Hp Hn.
    unfold main_on, validate_duration. rewrite Hp. cbn [bind].
    destruct (Z.leb_spec n 0); [reflexivity|lia]. }
  split.
  { intros duration label tick clock0 readings n Hp Hn Ht.
    unfold main_on, validate_duration. rewrite Hp. cbn [bind].
    destruct (Z.leb_spec n 0); [lia|]. cbn [bind].
    apply Qle_bool_iff in Ht. rewrite Ht. reflexivity. }
  split; [reflexivity|].
  split.
  { intros duration label tick clock0 readings n Hp Hn Ht _ Hu.
    rewrite (main_on_valid _ _ _ _ _ _ _ _ _ _ n Hp Hn Ht).
    rewrite run_timer_on_usable by exact Hu.
    split; [reflexivity|]. rewrite run_timer_events. cbv zeta. cbn [fst].
    eexists. reflexivity. }
  split.
  { intros duration label tick clock0 now key rest n st' Hp Hn Ht _ Hu Hk.
    rewrite (main_on_valid _ _ _ _ _ _ _ _ _ _ n Hp Hn Ht).
    rewrite run_timer_on_usable by exact Hu.
    rewrite run_timer_events. cbv zeta. cbn [fst snd].
    rewrite loop_step, Hk.
    destruct (Qle_bool (remaining_at n now st') 0); cbn [fst snd].
    - eexists _, _. reflexivity.
    - destruct (snd (loop n label tick st' rest)); eexists _, _;
        cbn [app]; reflexivity. }
  split.
  { intros duration label tick clock0 before now key rest n events st
      Hp Hn Ht _ Hu Hk H.
    split; [|reflexivity].
    rewrite (main_on_valid _ _ _ _ _ _ _ _ _ _ n Hp Hn Ht).
    rewrite run_timer_on_usable by exact Hu.
    rewrite (run_timer_app n label tick clock0 before _ events st H).
    rewrite loop_step, handle_key_quit by exact Hk.
    cbn [fst snd]. rewrite app_nil_r. reflexivity. }
  split.
  { intros duration label tick clock0 before now key rest n events st st'
      Hp Hn Ht _ Hu H Hk Hr.
    split; [|reflexivity].
    rewrite (main_on_valid _ _ _ _ _ _ _ _ _ _ n Hp Hn Ht).
    rewrite run_timer_on_usable by exact Hu.
    rewrite (run_timer_app n label tick clock0 before _ events st H).
    rewrite loop_step, Hk. apply Qle_bool_iff in Hr. rewrite Hr.
    cbn [fst snd]. rewrite <- app_assoc. reflexivity. }
  intros duration label tick clock0 readings n Hp Hn Ht -> ->.
  split; [|reflexivity].
  rewrite (main_on_valid _ _ _ _ _ _ _ _ _ _ n Hp Hn Ht). reflexivity.
Qed.

End TimerProperties.

(** * The properties on the sample runs, in exact arithmetic *)

Lemma pauses_add_nothing_witness :
  (In "P" ["p"; "P"; " "] /\ paused sample_started = false
   /\ handle_key 101 (Some "P") sample_started =
        Some {| start := start sample_started;
                elapsed_before_pause :=
                  fadd (elapsed_before_pause sample_started)
                       (fsub 101 (start sample_started));
                paused := true |})
  /\ (paused sample_paused = true
      /\ Forall2 event_equiv
           (fst (loop 3 "x" (1 # 10) sample_paused sample_readings))
           (fst (loop 3 "x" (1 # 10) sample_paused
                   (map (delay 60) sample_readings)))
      /\ exit_shift 60
           (snd (loop 3 "x" (1 # 10) sample_paused sample_readings))
           (snd (loop 3 "x" (1 # 10) sample_paused
                   (map (delay 60) sample_readings))))
  /\ ((forall x : Q, rnd x == x)
      /\ snd (run_timer 3 "x" (1 # 10) 100
                [(100, None); (101, Some "p"); (105, Some "z")])
         = Waiting sample_paused
      /\ elapsed_at
           (final_clock 100 [(100, None); (101, Some "p"); (105, Some "z")])
           sample_paused
         == running_time sample_started 100
              [(100, None); (101, Some "p"); (105, Some "z")]).
Proof.
  destruct (@pauses_add_nothing exact_arithmetic) as (Hpause & _ & _ & _ & Hdelay & _ & Hexact).
  assert (Hx : forall x : Q, rnd x == x) by (intros x; apply Qeq_refl).
  split; [|split].
  - split; [simpl; tauto|]. split; [reflexivity|].
    apply Hpause; [simpl; tauto|reflexivity].
  - split; [reflexivity|]. apply Hdelay. reflexivity.
  - assert (Hw : snd (run_timer 3 "x" (1 # 10) 100
                        [(100, None); (101, Some "p"); (105, Some "z")])
                 = Waiting sample_paused) by reflexivity.
    split; [exact Hx|]. split; [exact Hw|].
    apply (proj1 (Hexact Hx 3%Z "x" (1 # 10) 100
                    [(100, None); (101, Some "p"); (105, Some "z")]
                    sample_paused Hw)).
Defined.

Lemma percent_monotone_while_running_witness :
  Sorted Qle (100 :: map fst sample_readings)
  /\ Sorted percent_step
       (frames (fst (run_timer 3 "x" (1 # 10) 100 sample_readings)))
  /\ StronglySorted percent_le
       (frames (fst (run_timer 3 "x" (1 # 10) 100 sample_readings))).
Proof.
  assert (H : Sorted Qle (100 :: map fst sample_readings)).
  { repeat first [apply Sorted_cons | apply Sorted_nil | apply HdRel_cons
                 | apply HdRel_nil | (apply Qle_bool_iff; reflexivity)]. }
  split; [exact H|]. apply (@percent_monotone_while_running exact_arithmetic), H.
Defined.

Lemma percent_clamped_witness :
  100%Z <> 0%Z
  /\ percent 75 100 = Qmin 100 (fmul (fsub 1 (fdiv 75 (of_int 100))) 100).
Proof.
  split; [discriminate|].
  apply (proj1 (proj2 (@percent_clamped exact_arithmetic))). discriminate.
Defined.



Lemma sample_in_range : in_range 3 (1 # 10).
Proof. split; [reflexivity|apply Qle_bool_iff; reflexivity]. Defined.

Lemma quit_start_and_other_keys_witness :
  (In "Q" ["q"; "Q"]
   /\ loop 3 "x" (1 # 10) sample_paused ((105, Some "Q") :: sample_readings)
      = ([], Returned))
  /\ (In "S" ["s"; "S"] /\ paused sample_paused = true
      /\ handle_key 110 (Some "S") sample_paused =
           Some {| start := 110;
                   elapsed_before_pause := elapsed_before_pause sample_paused;
                   paused := false |})
  /\ (~ In (PyStr.lower "Z") ["q"; "p"; " "; "s"]
      /\ handle_key 105 (Some "Z") sample_paused = Some sample_paused)
  /\ (in_range 3 (1 # 10)
      /\ loop 3 "x" (1 # 10) sample_started [(101, None)]
         = ([Update (frame_at 3 "x" 101 sample_started); Sleep (1 # 10)],
            Waiting sample_started)
      /\ run_timer 3 "x" (1 # 10) 100
           ([(101, None)] ++ (102, Some "Q") :: [(103, None)])%list
         = ([Add_task 3; Update (frame_at 3 "x" 101 sample_started);
             Sleep (1 # 10)],
            Returned))
  /\ (handle_key 103 None sample_started = Some sample_started
      /\ remaining_at 3 103 sample_started <= 0
      /\ run_timer 3 "x" (1 # 10) 100
           ([(101, None)] ++ (103, None) :: [(104, None)])%list
         = ([Add_task 3; Update (frame_at 3 "x" 101 sample_started);
             Sleep (1 # 10); Update (frame_at 3 "x" 103 sample_started);
             Message "Time's up!"],
            Broke)).
Proof.
  destruct (@quit_start_and_other_keys exact_arithmetic)
    as (Hq & Hquit & Hexp & _ & _ & _ & Hs & _ & Ho & _).
  assert (Hz : ~ In (PyStr.lower "Z") ["q"; "p"; " "; "s"]).
  { simpl. intros [H|[H|[H|[H|[]]]]]; discriminate H. }
  assert (Hl : loop (R := exact_arithmetic) 3 "x" (1 # 10) sample_started
                 [(101, None)]
               = ([Update (frame_at 3 "x" 101 sample_started); Sleep (1 # 10)],
                  Waiting sample_started)) by reflexivity.
  assert (Hr : remaining_at (R := exact_arithmetic) 3 103 sample_started <= 0)
    by (apply Qle_bool_iff; reflexivity).
  split; [|split; [|split; [|split]]].
  - split; [simpl; tauto|]. apply Hq. simpl; tauto.
  - split; [simpl; tauto|]. split; [reflexivity|].
    apply Hs; [simpl; tauto|reflexivity].
  - split; [exact Hz|]. apply Ho, Hz.
  - split; [exact sample_in_range|]. split; [exact Hl|].
    refine (proj1 (Hquit 3%Z "x" (1 # 10) 100 [(101, None)] 102 "Q" [(103, None)]
             _ sample_started sample_in_range _ Hl)). simpl; tauto.
  - split; [reflexivity|]. split; [exact Hr|].
    exact (proj1 (Hexp 3%Z "x" (1 # 10) 100 [(101, None)] 103 None
                    [(104, None)] _ sample_started sample_started
                    sample_in_range Hl eq_refl Hr)).
Defined.

Lemma completed_within_total_witness :
  in_range 3 (1 # 10)
  /\ loop (R := exact_arithmetic) 3 "x" (1 # 10) sample_started [(101, None)]
     = ([Update (frame_at 3 "x" 101 sample_started); Sleep (1 # 10)],
        Waiting sample_started)
  /\ handle_key (R := exact_arithmetic) 104 None sample_started
     = Some sample_started
  /\ (exists f after,
        fst (run_timer (R := exact_arithmetic) 3 "x" (1 # 10) 100
               ([(101, None)] ++ (104, None) :: [(105, None)])%list)
        = (Add_task 3
             :: [Update (frame_at 3 "x" 101 sample_started); Sleep (1 # 10)]
             ++ Update f :: after)%list
        /\ completed f
           = py_min (elapsed_at (R := exact_arithmetic) 104 sample_started)
               (inject_Z 3)
        /\ completed f <= inject_Z 3
        /\ (remaining_at (R := exact_arithmetic) 3 104 sample_started <= 0 ->
            after = [Message "Time's up!"]))
  /\ (exists events,
        fst (run_timer (R := exact_arithmetic) 3 "x" (1 # 10) 100
               sample_readings)
        = Add_task 3 :: events
        /\ (forall total, ~ In (Add_task total) events)
        /\ (forall f, In (Update f) events -> frame_within 3 "x" f)).
Proof.
  assert (Hl : loop (R := exact_arithmetic) 3 "x" (1 # 10) sample_started
                 [(101, None)]
               = ([Update (frame_at 3 "x" 101 sample_started); Sleep (1 # 10)],
                  Waiting sample_started)) by reflexivity.
  split; [exact sample_in_range|]. split; [exact Hl|]. split; [reflexivity|].
  split.
  - exact (proj1 (@completed_within_total exact_arithmetic) 3%Z "x" (1 # 10)
             100 [(101, None)] 104 None [(105, None)] _ sample_started
             sample_started sample_in_range Hl eq_refl).
  - exact (proj2 (@completed_within_total exact_arithmetic) 3%Z "x" (1 # 10)
             100 sample_readings sample_in_range).
Defined.

Lemma main_checks_arguments_witness :
  let on_terminal := main_on (R := exact_arithmetic) unit (fun a => a) false 0
                       (Some tt) in
  (parse_duration "abc" = Raise (ValueError "Invalid duration: abc")
   /\ on_terminal "abc" "x" (1 # 10) 100 sample_readings
      = Usage unit "Invalid duration: abc")
  /\ (parse_duration "0:00" = Ok 0%Z /\ (0 <= 0)%Z
      /\ on_terminal "0:00" "x" (1 # 10) 100 sample_readings
         = Usage unit "Duration must be greater than 0")
  /\ (parse_duration "3" = Ok 3%Z /\ (0 < 3)%Z /\ - (1 # 10) <= 0
      /\ on_terminal "3" "x" (- (1 # 10)) 100 sample_readings
         = Usage unit "--tick must be greater than 0")
  /\ (0 < 1 # 10 /\ in_range 3 (1 # 10)
      /\ (Some tt : Terminal unit) <> None
      /\ loop (R := exact_arithmetic) 3 "x" (1 # 10) sample_started
           [(101, None)]
         = ([Update (frame_at 3 "x" 101 sample_started); Sleep (1 # 10)],
            Waiting sample_started)
      /\ on_terminal "3" "x" (1 # 10) 100
           ([(101, None)] ++ (102, Some "q") :: [(103, None)])%list
         = Finished unit
             [Add_task 3; Update (frame_at 3 "x" 101 sample_started);
              Sleep (1 # 10)]
             Returned (Some tt))
  /\ (handle_key 103 None sample_started = Some sample_started
      /\ remaining_at (R := exact_arithmetic) 3 103 sample_started <= 0
      /\ on_terminal "3" "x" (1 # 10) 100
           ([(101, None)] ++ (103, None) :: [(104, None)])%list
         = Finished unit
             [Add_task 3; Update (frame_at 3 "x" 101 sample_started);
              Sleep (1 # 10); Update (frame_at 3 "x" 103 sample_started);
              Message "Time's up!"]
             Broke (Some tt))
  /\ (exists after exit,
        on_terminal "3" "x" (1 # 10) 100 ((101, None) :: sample_readings)
        = Finished unit
            (Add_task 3 :: Update (frame_at 3 "x" 101 sample_started) :: after)
            exit (Some tt))
  /\ (main_on (R := exact_arithmetic) unit (fun a => a) false 0 None
        "3" "x" (1 # 10) 100 sample_readings
      = Crashed unit termios_error [Add_task 3]).
Proof.
  intros on_terminal. unfold on_terminal.
  destruct (@main_checks_arguments exact_arithmetic unit (fun a => a) false 0
              (Some tt))
    as (Hparse & Hrange & Htick & _ & _ & Hfirst & Hquit & Hexp & _).
  destruct (@main_checks_arguments exact_arithmetic unit (fun a => a) false 0
              None)
    as (_ & _ & _ & _ & _ & _ & _ & _ & Hcrash).
  assert (Ht : - (1 # 10) <= 0) by (apply Qle_bool_iff; reflexivity).
  assert (Ht' : 0 < 1 # 10) by reflexivity.
  assert (Hn : (0 < 3)%Z) by reflexivity.
  assert (Hu : false = true \/ (Some tt : Terminal unit) <> None)
    by (right; discriminate).
  assert (Hl : loop (R := exact_arithmetic) 3 "x" (1 # 10) sample_started
                 [(101, None)]
               = ([Update (frame_at 3 "x" 101 sample_started); Sleep (1 # 10)],
                  Waiting sample_started)) by reflexivity.
  assert (Hr : remaining_at (R := exact_arithmetic) 3 103 sample_started <= 0)
    by (apply Qle_bool_iff; reflexivity).
  split; [|split; [|split; [|split; [|split; [|split]]]]].
  - split; [reflexivity|]. apply Hparse. reflexivity.
  - split; [reflexivity|]. split; [lia|].
    apply (Hrange _ _ _ _ _ 0%Z); [reflexivity|lia].
  - split; [reflexivity|]. split; [lia|]. split; [exact Ht|].
    apply (Htick _ _ _ _ _ 3%Z); [reflexivity|lia|exact Ht].
  - split; [exact Ht'|]. split; [exact sample_in_range|].
    split; [discriminate|]. split; [exact Hl|].
    refine (proj1 (Hquit "3" "x" (1 # 10) 100 [(101, None)] 102 "q"
                     [(103, None)] 3%Z _ sample_started eq_refl Hn Ht'
                     sample_in_range Hu _ Hl)).
    simpl. tauto.
  - split; [reflexivity|]. split; [exact Hr|].
    exact (proj1 (Hexp "3" "x" (1 # 10) 100 [(101, None)] 103 None
                    [(104, None)] 3%Z _ sample_started sample_started
                    eq_refl Hn Ht' sample_in_range Hu Hl eq_refl Hr)).
  - exact (Hfirst "3" "x" (1 # 10) 100 101 None sample_readings 3%Z
             sample_started eq_refl Hn Ht' sample_in_range Hu eq_refl).
  - refine (proj1 (Hcrash "3" "x" (1 # 10) 100 sample_readings 3%Z
                     eq_refl Hn Ht' eq_refl eq_refl)).
Defined.

(** With a valid duration and a positive tick, but standard input not a
    terminal, no timer runs and the exit status is not 0. *)
Lemma main_without_terminal :
  parse_duration "5" = Ok 5%Z /\ (0 < 5)%Z /\ 0 < 1 # 10
  /\ main_on (R := Binary64.binary64) unit (fun a => a) false 0 None
       "5" "x" (1 # 10) 100 [(101, Some "q")]
     = Crashed unit termios_error [Add_task 5]
  /\ ending_status unit (Crashed unit termios_error [Add_task 5]) = Some 1%Z.
Proof. repeat split. Qed.

(** * Further properties *)

(** ** The parser *)

Section ParserCoverage.
Import PyStr PyStrFacts ReFacts Vocabulary Accepts.

Local Open Scope Z_scope.

Lemma lstrip_app_spaces (v w : string) :
  forallb_str is_space w = true ->
  lstrip (v ++ w) = if is_empty (lstrip v) then "" else lstrip v ++ w.
Proof.
  intros Hw. induction v as [|c v IH]; cbn [append lstrip].
  - rewrite lstrip_all_spaces by exact Hw. reflexivity.
  - destruct (is_space c); [exact IH|reflexivity].
Qed.

(** White space around a text is stripped with it. *)
Lemma strip_surrounded (w1 v w2 : string) :
  forallb_str is_space w1 = true -> forallb_str is_space w2 = true ->
  strip (w1 ++ v ++ w2) = strip v.
Proof.
  intros H1 H2. unfold strip.
  rewrite lstrip_spaces, lstrip_app_spaces by assumption.
  destruct (lstrip v) as [|c t] eqn:E; cbn [is_empty]; [reflexivity|].
  apply rstrip_app_spaces, H2.
Qed.

Lemma lstrip_fixed_head (s : string) :
  lstrip (lstrip s) = lstrip s.
Proof.
  induction s as [|c s IH]; cbn [lstrip]; [reflexivity|].
  destruct (is_space c) eqn:E; [exact IH|]. cbn [lstrip]. rewrite E. reflexivity.
Qed.

Lemma rstrip_idempotent (s : string) : rstrip (rstrip s) = rstrip s.
Proof.
  induction s as [|c s IH]; cbn [rstrip]; [reflexivity|].
  destruct (is_space c && is_empty (rstrip s)) eqn:E; [reflexivity|].
  cbn [rstrip]. rewrite IH, E. reflexivity.
Qed.

Lemma lstrip_rstrip (t : string) : lstrip t = t -> lstrip (rstrip t) = rstrip t.
Proof.
  destruct t as [|c t]; [reflexivity|]. cbn [lstrip rstrip].
  destruct (is_space c) eqn:E.
  - intros H. exfalso.
    assert (L : forall s, (String.length (lstrip s) <= String.length s)%nat).
    { induction s as [|a s IH]; cbn [lstrip String.length]; [lia|].
      destruct (is_space a); cbn [String.length]; lia. }
    specialize (L t). rewrite H in L. cbn [String.length] in L. lia.
  - intros _. cbn [andb lstrip]. rewrite E. reflexivity.
Qed.

Lemma strip_idempotent (s : string) : strip (strip s) = strip s.
Proof.
  unfold strip.
  rewrite (lstrip_rstrip (lstrip s)) by apply lstrip_fixed_head.
  apply rstrip_idempotent.
Qed.

(** X1.  White space before and after the text makes no difference to
    [parse_duration], to its result or to its error; nor does stripping
    the text beforehand. *)
Theorem parse_duration_ignores_outer_space :
  (forall w1 value w2 : string,
     forallb_str is_space w1 = true -> forallb_str is_space w2 = true ->
     parse_duration (w1 ++ value ++ w2) = parse_duration value)
  /\ (forall value : string, parse_duration (strip value) = parse_duration value).
Proof.
  split.
  - intros w1 value w2 H1 H2. unfold parse_duration.
    rewrite strip_surrounded by assumption. reflexivity.
  - intros value. unfold parse_duration. rewrite strip_idempotent. reflexivity.
Qed.

Lemma parse_duration_ignores_outer_space_witness :
  forallb_str is_space (String "009" " ") = true
  /\ forallb_str is_space (String "010" "") = true
  /\ parse_duration (String "009" " " ++ "1h5m" ++ String "010" "")
     = parse_duration "1h5m".
Proof.
  split; [reflexivity|]. split; [reflexivity|].
  apply (proj1 parse_duration_ignores_outer_space); reflexivity.
Defined.

(** *** What the colon form accepts *)

Lemma int_ok_inv (s : string) (n : Z) :
  int s = Ok n -> isdecimal s = true /\ n = decimal_value s.
Proof.
  unfold int. destruct (isdecimal s); [|discriminate].
  intros [= <-]. split; reflexivity.
Qed.

Lemma map_int_ok (parts : list string) : forall numbers : list Z,
  map_result int parts = Ok numbers ->
  Forall2 (fun p n => isdecimal p = true /\ n = decimal_value p) parts numbers.
Proof.
  induction parts as [|p parts IH]; cbn [map_result]; intros numbers.
  - intros [= <-]. constructor.
  - destruct (int p) as [n|e] eqn:Ep; cbn [bind]; [|discriminate].
    destruct (map_result int parts) as [ns|e]; cbn [bind]; [|discriminate].
    intros [= <-]. constructor; [apply int_ok_inv, Ep|apply IH; reflexivity].
Qed.

Lemma colon_form_ok_iff (value : string) (n : Z) :
  colon_form value = Ok n <-> colon_reading value n.
Proof.
  unfold colon_form, colon_reading.
  set (parts := map strip (split ":" value)). split.
  - destruct (negb (forallb isdigit parts)); [discriminate|].
    destruct (map_result int parts) as [numbers|e] eqn:E; cbn [bind];
      [|discriminate].
    apply map_int_ok in E.
    destruct numbers as [|a [|b [|c [|d numbers]]]]; try discriminate;
      intros [= <-].
    + left. inversion E as [|m a' ps ns [Hm ->] E1]; subst.
      inversion E1 as [|s b' ps' ns' [Hs ->] E2]; subst.
      inversion E2; subst. exists m, s. auto.
    + right. inversion E as [|h a' ps ns [Hh ->] E1]; subst.
      inversion E1 as [|m b' ps' ns' [Hm ->] E2]; subst.
      inversion E2 as [|s c' ps'' ns'' [Hs ->] E3]; subst.
      inversion E3; subst. exists h, m, s. auto.
  - intros [(m & s & -> & Hm & Hs & ->)|(h & m & s & -> & Hh & Hm & Hs & ->)];
      cbn [forallb map_result];
      rewrite ?(isdecimal_isdigit h), ?(isdecimal_isdigit m),
        ?(isdecimal_isdigit s) by assumption;
      cbn [andb negb];
      rewrite ?(int_decimal h), ?(int_decimal m), ?(int_decimal s)
        by assumption;
      reflexivity.
Qed.

Lemma contains_not_empty (sep : ascii) (s : string) :
  contains sep s = true -> is_empty s = false.
Proof. destruct s; [discriminate|reflexivity]. Qed.

(** X2.  Among the texts whose characters are all below U+0100: a text
    with a colon that is accepted has, cut at its colons, two or three
    components that each strip to a run of the decimal digits 0 to 9, and
    the result is minutes and seconds, or hours, minutes and seconds; so
    one component too many, an empty one or any other character is an
    error.  And every such text of at most 4300 characters, which keeps
    each component within the limit that the interpreter puts on the text
    of an integer, is accepted with that result. *)
Theorem colon_form_accepts_exactly :
  forall (value : string) (n : Z),
    contains ":" (strip value) = true ->
    (parse_duration value = Ok n -> colon_reading (strip value) n)
    /\ (Vocabulary.short value ->
        colon_reading (strip value) n -> parse_duration value = Ok n).
Proof.
  intros value n Hc.
  assert (H : parse_duration value = Ok n <-> colon_reading (strip value) n).
  { rewrite parse_duration_colon;
      [apply colon_form_ok_iff|apply (contains_not_empty ":"), Hc|exact Hc]. }
  split; [apply H|intros _; apply H].
Qed.

Lemma colon_form_accepts_exactly_witness :
  contains ":" (strip " 2: 05 ") = true
  /\ Vocabulary.short " 2: 05 "
  /\ colon_reading (strip " 2: 05 ") 125
  /\ parse_duration " 2: 05 " = Ok 125.
Proof.
  assert (Hc : contains ":" (strip " 2: 05 ") = true) by reflexivity.
  assert (Hs : Vocabulary.short " 2: 05 ")
    by (unfold Vocabulary.short, Vocabulary.int_max_str_digits; simpl; lia).
  assert (Hr : colon_reading (strip " 2: 05 ") 125)
    by (apply (colon_form_accepts_exactly " 2: 05 " 125 Hc); reflexivity).
  split; [exact Hc|]. split; [exact Hs|]. split; [exact Hr|].
  exact (proj2 (colon_form_accepts_exactly " 2: 05 " 125 Hc) Hs Hr).
Defined.

(** *** The characters of an accepted text *)

Lemma star_sound (p : ascii -> bool) (caps : Re.captures) (k : Re.cont)
  (res : Re.captures) : forall (s : string) (pos : nat),
  Re.star p pos s caps k = Some res ->
  exists consumed rest pos',
    s = consumed ++ rest /\ forallb_str p consumed = true
    /\ k pos' rest caps = Some res.
Proof.
  induction s as [|c s IH]; intros pos; cbn [Re.star].
  - intros H. exists "", "", pos. auto.
  - destruct (p c) eqn:Hc.
    + destruct (Re.star p (S pos) s caps k) as [r|] eqn:E.
      * intros [= <-]. destruct (IH (S pos) E) as (cs & rest & pos' & -> & Hp & Hk).
        exists (String c cs), rest, pos'. cbn [append forallb_str].
        rewrite Hc, Hp. auto.
      * intros H. exists "", (String c s), pos. auto.
    + intros H. exists "", (String c s), pos. auto.
Qed.

(** What a successful match consumed is made of the pattern's characters,
    and a pattern that ends with [$] stopped at the end of the text. *)
Lemma run_sound (whole : string) (r : Re.regex) :
  forall (pos : nat) (s : string) (caps : Re.captures) (k : Re.cont)
    (res : Re.captures),
  Re.run whole r pos s caps k = Some res ->
  exists consumed rest pos' caps',
    s = consumed ++ rest /\ forallb_str (alphabet r) consumed = true
    /\ k pos' rest caps' = Some res
    /\ (anchored r = true -> at_end rest).
Proof.
  induction r as [| |l|p|p|r1 IH1 r2 IH2|r IH|name r IH];
    intros pos s caps k res; cbn [Re.run anchored].
  - destruct (Nat.eqb pos 0); [|discriminate]. intros H.
    exists "", s, pos, caps. repeat split; auto. discriminate.
  - destruct s as [|c [|c' s]].
    + intros H. exists "", "", pos, caps. repeat split; auto. left; reflexivity.
    + destruct (Ascii.eqb_spec c Re.newline) as [->|]; [|discriminate].
      intros H. exists "", (String Re.newline ""), pos, caps.
      repeat split; auto. right; reflexivity.
    + discriminate.
  - destruct s as [|c s]; [discriminate|].
    destruct (Ascii.eqb (lower_char c) (lower_char l)) eqn:E; [|discriminate].
    intros H. exists (String c ""), s, (S pos), caps.
    split; [reflexivity|]. split; [|split; [exact H|discriminate]].
    cbn [forallb_str alphabet]. rewrite E. reflexivity.
  - intros H. destruct (star_sound p caps k res s pos H)
      as (cs & rest & pos' & -> & Hp & Hk).
    exists cs, rest, pos', caps.
    split; [reflexivity|]. split; [exact Hp|split; [exact Hk|discriminate]].
  - destruct s as [|c s]; [discriminate|].
    destruct (p c) eqn:Hc; [|discriminate]. intros H.
    destruct (star_sound p caps k res s (S pos) H)
      as (cs & rest & pos' & -> & Hp & Hk).
    exists (String c cs), rest, pos', caps.
    split; [reflexivity|]. split; [|split; [exact Hk|discriminate]].
    change (p c && forallb_str p cs = true). rewrite Hc, Hp. reflexivity.
  - intros H.
    destruct (IH1 _ _ _ _ _ H) as (c1 & rest1 & pos1 & caps1 & -> & A1 & H1 & _).
    destruct (IH2 _ _ _ _ _ H1) as (c2 & rest2 & pos2 & caps2 & -> & A2 & H2 & E2).
    exists (c1 ++ c2), rest2, pos2, caps2.
    split; [apply eq_sym, append_assoc|].
    split; [|split; [exact H2|exact E2]].
    rewrite forallb_str_app. apply andb_true_iff. split.
    + apply forallb_str_impl with (p := alphabet r1); [|exact A1].
      intros c Hc. cbn [alphabet]. rewrite Hc. reflexivity.
    + apply forallb_str_impl with (p := alphabet r2); [|exact A2].
      intros c Hc. cbn [alphabet]. rewrite Hc. apply orb_true_r.
  - destruct (Re.run whole r pos s caps k) as [res'|] eqn:E.
    + intros [= <-].
      destruct (IH _ _ _ _ _ E) as (cs & rest & pos' & caps' & -> & A & Hk & _).
      exists cs, rest, pos', caps'.
      split; [reflexivity|]. split; [exact A|split; [exact Hk|discriminate]].
    + intros H. exists "", s, pos, caps.
      split; [reflexivity|]. split; [reflexivity|split; [exact H|discriminate]].
  - intros H.
    destruct (IH _ _ _ _ _ H) as (cs & rest & pos' & caps' & -> & A & Hk & _).
    eexists cs, rest, pos', _.
    split; [reflexivity|]. split; [exact A|split; [exact Hk|discriminate]].
Qed.

Lemma alphabet_pattern_allowed (c : ascii) :
  alphabet DURATION_PATTERN c = true -> allowed c = true.
Proof.
  unfold DURATION_PATTERN, allowed. cbn [alphabet].
  change (lower_char "h") with "h"%char. change (lower_char "m") with "m"%char.
  change (lower_char "s") with "s"%char.
  destruct (is_decimal c), (is_space c), (Ascii.eqb c ":"),
    (Ascii.eqb (lower_char c) "h"), (Ascii.eqb (lower_char c) "m"),
    (Ascii.eqb (lower_char c) "s"); cbn; congruence.
Qed.

Lemma newline_allowed : allowed Re.newline = true.
Proof. reflexivity. Qed.

(** Every character of a text the pattern matches is allowed. *)
Lemma match_allowed (value : string) (caps : Re.captures) :
  Re.rmatch DURATION_PATTERN value = Some caps ->
  forallb_str allowed value = true.
Proof.
  unfold Re.rmatch. intros H.
  destruct (run_sound _ _ _ _ _ _ _ H) as (cs & rest & _ & _ & E & A & _ & He).
  rewrite E, forallb_str_app. apply andb_true_iff. split.
  - apply forallb_str_impl with (p := alphabet DURATION_PATTERN);
      auto using alphabet_pattern_allowed.
  - destruct (He eq_refl) as [-> | ->]; reflexivity.
Qed.

(** A text is made of white space and of what is left when it is stripped. *)
Lemma lstrip_chars (q : ascii -> bool) (s : string) :
  forallb_str q (lstrip s) = true ->
  forallb_str (fun c => is_space c || q c) s = true.
Proof.
  induction s as [|c s IH]; cbn [lstrip forallb_str]; [reflexivity|].
  destruct (is_space c) eqn:E; cbn [orb andb]; [exact IH|].
  cbn [forallb_str]. intros H. apply andb_true_iff in H as [Hc Hs].
  rewrite Hc. cbn [andb].
  apply forallb_str_impl with (p := q); [|exact Hs].
  intros a Ha. rewrite Ha. apply orb_true_r.
Qed.

Lemma rstrip_chars (q : ascii -> bool) (s : string) :
  forallb_str q (rstrip s) = true ->
  forallb_str (fun c => is_space c || q c) s = true.
Proof.
  induction s as [|c s IH]; cbn [rstrip forallb_str]; [reflexivity|].
  destruct (is_space c) eqn:E; cbn [orb andb].
  - destruct (is_empty (rstrip s)) eqn:Ee.
    + intros _. apply IH. destruct (rstrip s); [reflexivity|discriminate].
    + cbn [forallb_str]. intros H. apply andb_true_iff in H as [_ Hs]. auto.
  - cbn [forallb_str]. intros H. apply andb_true_iff in H as [Hc Hs].
    rewrite Hc. auto.
Qed.

Lemma strip_chars (q : ascii -> bool) (s : string) :
  forallb_str q (strip s) = true ->
  forallb_str (fun c => is_space c || q c) s = true.
Proof.
  unfold strip. intros H. apply rstrip_chars in H. apply lstrip_chars in H.
  apply forallb_str_impl
    with (p := fun c => is_space c || (is_space c || q c)); [|exact H].
  intros c Hc. destruct (is_space c); [reflexivity|exact Hc].
Qed.

Lemma split_chars (q : ascii -> bool) (sep : ascii) (s : string) :
  q sep = true ->
  forallb (forallb_str q) (split sep s) = true -> forallb_str q s = true.
Proof.
  intros Hsep. induction s as [|c s IH]; cbn [split]; [reflexivity|].
  destruct (Ascii.eqb_spec c sep) as [->|Hne].
  - cbn [forallb forallb_str]. rewrite Hsep. exact IH.
  - destruct (split sep s) as [|hd tl] eqn:E; cbn [forallb forallb_str].
    + rewrite !andb_true_r. intros ->. cbn [andb]. apply IH. reflexivity.
    + intros H. apply andb_true_iff in H as [H Ht].
      apply andb_true_iff in H as [Hc Hh]. rewrite Hc. cbn [andb].
      apply IH. cbn [forallb]. rewrite Hh, Ht. reflexivity.
Qed.

Lemma decimal_allowed (c : ascii) : is_decimal c = true -> allowed c = true.
Proof. intros H. unfold allowed. rewrite H. reflexivity. Qed.

Lemma space_or_allowed (c : ascii) :
  is_space c || allowed c = true -> allowed c = true.
Proof.
  unfold allowed. destruct (is_space c); [|auto].
  intros _. rewrite orb_true_r. reflexivity.
Qed.

Lemma colon_form_allowed (value : string) (n : Z) :
  colon_form value = Ok n -> forallb_str allowed value = true.
Proof.
  intros H. apply colon_form_ok_iff in H.
  apply (split_chars allowed ":"); [reflexivity|].
  assert (Hpart : forall p, isdecimal (strip p) = true ->
                            forallb_str allowed p = true).
  { intros p Hp.
    apply forallb_str_impl with (p := fun c => is_space c || allowed c);
      [exact space_or_allowed|].
    apply strip_chars.
    apply forallb_str_impl with (p := is_decimal);
      [exact decimal_allowed|apply isdecimal_forall, Hp]. }
  assert (Hall : Forall (fun d => isdecimal d = true)
                   (map strip (split ":" value))).
  { destruct H as [(m & s & -> & Hm & Hs & _)
                  |(h & m & s & -> & Hh & Hm & Hs & _)];
      repeat constructor; assumption. }
  apply Forall_map in Hall. rewrite Forall_forall in Hall.
  apply forallb_forall. intros p Hp. apply Hpart, Hall, Hp.
Qed.

(** X3.  Among the texts whose characters are all below U+0100, whatever
    [parse_duration] accepts is made of the decimal digits 0 to 9, white
    space, colons and the letters [h], [m] and [s] in either case: a sign,
    a decimal point, an exponent or any other letter below U+0100 makes
    the text an error.  (Beyond U+0100 the source also takes the other
    decimal digits of Unicode and, for [s], the long s.) *)
Theorem accepted_text_characters :
  forall (value : string) (n : Z),
    parse_duration value = Ok n -> forallb_str allowed value = true.
Proof.
  intros value n H.
  apply forallb_str_impl with (p := fun c => is_space c || allowed c);
    [exact space_or_allowed|].
  apply strip_chars. revert H. unfold parse_duration.
  destruct (is_empty (strip value)); [discriminate|].
  destruct (contains ":" (strip value)); [apply colon_form_allowed|].
  destruct (isdigit (strip value)).
  - intros H. apply int_ok_inv in H as [H _].
    apply forallb_str_impl with (p := is_decimal);
      [exact decimal_allowed|apply isdecimal_forall, H].
  - unfold suffix_form.
    destruct (Re.rmatch DURATION_PATTERN (strip value)) as [caps|] eqn:E;
      [|discriminate].
    intros _. apply (match_allowed _ caps), E.
Qed.

Lemma accepted_text_characters_witness :
  parse_duration " 1h 30M " = Ok 5400
  /\ forallb_str allowed " 1h 30M " = true.
Proof.
  assert (H : parse_duration " 1h 30M " = Ok 5400) by reflexivity.
  split; [exact H|]. apply (accepted_text_characters _ _ H).
Defined.

End ParserCoverage.

(** ** The suffix form with white space *)

Section SuffixCoverage.
Import PyStr PyStrFacts Re ReFacts Vocabulary Accepts.

Local Open Scope Z_scope.

(** One group of the pattern and the white space after it, against the
    text of one group and the white space after it. *)
Lemma spaced_stage whole name u R pre pos o x w post caps k r :
  whole = pre ++ (group_text o x ++ w) ++ post -> pos = String.length pre ->
  group_digits o -> In u ["h"; "m"; "s"]%char -> unit_letter u x ->
  forallb_str is_space w = true -> (o = None -> w = "") ->
  stops is_space post -> (o = None -> blocked u post) ->
  run whole R (pos + String.length (group_text o x ++ w))%nat post
    (entry name o ++ caps)%list k = Some r ->
  run whole (Opt (Group name (Plus is_decimal) >> Lit u) >> Star is_space >> R)
    pos ((group_text o x ++ w) ++ post) caps k = Some r.
Proof.
  intros Hw Hpos Ho Hu Hx Hsp Hnone Hstop Hblock Hk. rewrite run_cat.
  destruct (unit_letter_cases u x Hu Hx) as (Hdec & _).
  destruct o as [d|]; cbn [group_text group_digits entry app] in *.
  - rewrite append_assoc.
    apply (group_present whole name u pre pos d x (w ++ post)); auto.
    + rewrite Hw, !append_assoc. reflexivity.
    + unfold unit_letter in Hx. rewrite Hx.
      simpl in Hu. destruct Hu as [<-|[<-|[<-|[]]]]; reflexivity.
    + rewrite run_cat. cbn [run].
      apply star_greedy; [exact Hsp|exact Hstop|].
      rewrite <- Nat.add_assoc, <- length_append. exact Hk.
  - rewrite (Hnone eq_refl) in *. cbn [append String.length] in *.
    rewrite group_absent by auto using not_decimal_units.
    rewrite run_cat, run_star_stops by exact Hstop.
    rewrite Nat.add_0_r in Hk. exact Hk.
Qed.

Lemma stops_spaced (o : option string) (x : ascii) (w post : string) :
  group_digits o -> (o = None -> w = "") -> stops is_space post ->
  stops is_space ((group_text o x ++ w) ++ post).
Proof.
  intros Ho Hnone Hpost. destruct o as [d|].
  - cbn [group_text group_digits] in *.
    destruct (isdecimal_inv d Ho) as (c & d' & -> & Hc & _).
    cbn. apply decimal_not_space, Hc.
  - rewrite (Hnone eq_refl). exact Hpost.
Qed.

Lemma blocked_spaced (u v x : ascii) (o : option string) (w post : string) :
  In u ["h"; "m"; "s"]%char -> In v ["h"; "m"; "s"]%char -> v <> u ->
  group_digits o -> unit_letter v x -> (o = None -> w = "") ->
  blocked u post -> blocked u ((group_text o x ++ w) ++ post).
Proof.
  intros Hu Hv Hne Ho Hx Hnone Hpost. destruct o as [d|].
  - right. exists d, x, (w ++ post). cbn [group_text group_digits] in *.
    destruct (unit_letter_cases v x Hv Hx) as (Hdec & _).
    rewrite !append_assoc. cbn [append].
    repeat split; auto using isdecimal_forall.
    rewrite Hx. simpl in Hu, Hv.
    destruct Hu as [<-|[<-|[<-|[]]]]; destruct Hv as [<-|[<-|[<-|[]]]];
      try congruence; reflexivity.
  - rewrite (Hnone eq_refl). exact Hpost.
Qed.

(** The pattern against the groups with white space after those present. *)
Lemma match_spaced (oh om os : option string) (xh xm xs : ascii)
  (w1 w2 : string) :
  group_digits oh -> group_digits om -> group_digits os ->
  unit_letter "h" xh -> unit_letter "m" xm -> unit_letter "s" xs ->
  forallb_str is_space w1 = true -> forallb_str is_space w2 = true ->
  (oh = None -> w1 = "") -> (om = None -> w2 = "") ->
  Re.rmatch DURATION_PATTERN
    ((group_text oh xh ++ w1) ++ (group_text om xm ++ w2)
     ++ (group_text os xs ++ "") ++ "") =
  Some (entry "seconds" os ++ entry "minutes" om ++ entry "hours" oh)%list.
Proof.
  intros Hh Hm Hs Uh Um Us S1 S2 N1 N2.
  assert (Ih : In "h"%char ["h"; "m"; "s"]%char) by (simpl; tauto).
  assert (Im : In "m"%char ["h"; "m"; "s"]%char) by (simpl; tauto).
  assert (Is : In "s"%char ["h"; "m"; "s"]%char) by (simpl; tauto).
  assert (B0 : forall u, blocked u "") by (intros u; left; reflexivity).
  assert (N3 : os = None -> "" = "") by reflexivity.
  unfold Re.rmatch, DURATION_PATTERN.
  rewrite run_cat, run_bol. cbv beta.
  rewrite run_cat, run_star_stops
    by (repeat apply stops_spaced; simpl; auto).
  cbv beta.
  apply (spaced_stage _ "hours" "h" _ "" 0 oh xh w1); auto.
  { repeat apply stops_spaced; simpl; auto. }
  { intros _. apply (blocked_spaced "h" "m"); auto; [discriminate|].
    apply (blocked_spaced "h" "s"); auto. discriminate. }
  apply (spaced_stage _ "minutes" "m" _ (group_text oh xh ++ w1) _ om xm w2);
    auto.
  { repeat apply stops_spaced; simpl; auto. }
  { intros _. apply (blocked_spaced "m" "s"); auto. discriminate. }
  apply (spaced_stage _ "seconds" "s" _
           ((group_text oh xh ++ w1) ++ group_text om xm ++ w2) _ os xs "");
    auto.
  { rewrite !append_assoc. reflexivity. }
  { rewrite !length_append. lia. }
  { exact I. }
  rewrite run_eol_end, !app_nil_r. reflexivity.
Qed.

Lemma lstrip_stops (s : string) : stops is_space s -> lstrip s = s.
Proof. destruct s as [|c s]; [reflexivity|]. cbn. intros ->. reflexivity. Qed.

Lemma marked_l (a b : string) : marked a -> marked (a ++ b).
Proof.
  intros [He Hd]. split.
  - rewrite is_empty_app, He. reflexivity.
  - rewrite forallb_str_app, Hd. reflexivity.
Qed.

Lemma marked_r (a b : string) : marked b -> marked (a ++ b).
Proof.
  intros [He Hd]. split.
  - rewrite is_empty_app, He. apply andb_false_r.
  - rewrite forallb_str_app, Hd. apply andb_false_r.
Qed.

Lemma marked_group (u x : ascii) (d : string) :
  In u ["h"; "m"; "s"]%char -> unit_letter u x ->
  marked (group_text (Some d) x).
Proof.
  intros Hu Hx. split; [|apply (digit_group_text u), Hx; exact Hu].
  cbn [group_text]. rewrite is_empty_app. apply andb_false_r.
Qed.

Lemma group_text_chars (q : ascii -> bool) (o : option string) (x : ascii) :
  (forall c, is_decimal c = true -> q c = true) -> q x = true ->
  group_digits o -> forallb_str q (group_text o x) = true.
Proof.
  intros Hq Hx Ho. destruct o as [d|]; [|reflexivity].
  cbn [group_text group_digits] in *. rewrite forallb_str_app.
  rewrite (forallb_str_impl is_decimal q d Hq (isdecimal_forall d Ho)).
  cbn. rewrite Hx. reflexivity.
Qed.

Lemma rstrip_spaced (u x : ascii) (o : option string) (w post : string) :
  In u ["h"; "m"; "s"]%char -> unit_letter u x -> group_digits o ->
  (o = None -> w = "") -> rstrip post = post ->
  is_empty post = false \/ w = "" ->
  rstrip ((group_text o x ++ w) ++ post) = (group_text o x ++ w) ++ post.
Proof.
  intros Hu Hx Ho Hnone Hpost [Hne| ->].
  - apply rstrip_app_fixed; assumption.
  - rewrite append_nil_r. destruct post as [|c post].
    + rewrite append_nil_r. destruct o as [d|]; [|reflexivity].
      cbn [group_text]. apply rstrip_app_fixed; [|reflexivity].
      destruct (unit_letter_cases u x Hu Hx) as (_ & Hsp & _).
      cbn. rewrite Hsp. reflexivity.
    + apply rstrip_app_fixed; [exact Hpost|reflexivity].
Qed.

(** [parse_duration] on a text of groups with white space between them
    only. *)
Lemma parse_duration_spaced (oh om os : option string) (xh xm xs : ascii)
  (w1 w2 : string) :
  group_digits oh -> group_digits om -> group_digits os ->
  unit_letter "h" xh -> unit_letter "m" xm -> unit_letter "s" xs ->
  forallb_str is_space w1 = true -> forallb_str is_space w2 = true ->
  (oh = None -> w1 = "") -> (om = None -> w2 = "") ->
  (os = None -> w2 = "" /\ (om = None -> w1 = "")) ->
  oh <> None \/ om <> None \/ os <> None ->
  parse_duration
    ((group_text oh xh ++ w1) ++ (group_text om xm ++ w2)
     ++ (group_text os xs ++ "") ++ "") =
  Ok (group_value oh * 3600 + group_value om * 60 + group_value os).
Proof.
  intros Hh Hm Hs Uh Um Us S1 S2 N1 N2 N3 Hsome.
  assert (Ih : In "h"%char ["h"; "m"; "s"]%char) by (simpl; tauto).
  assert (Im : In "m"%char ["h"; "m"; "s"]%char) by (simpl; tauto).
  assert (Is : In "s"%char ["h"; "m"; "s"]%char) by (simpl; tauto).
  set (text := (group_text oh xh ++ w1) ++ (group_text om xm ++ w2)
               ++ (group_text os xs ++ "") ++ "").
  assert (Hmark : marked text).
  { unfold text. destruct Hsome as [H|[H|H]].
    - destruct oh as [d|]; [|congruence].
      apply marked_l, marked_l, (marked_group "h"); auto.
    - destruct om as [d|]; [|congruence].
      apply marked_r, marked_l, marked_l, (marked_group "m"); auto.
    - destruct os as [d|]; [|congruence].
      apply marked_r, marked_r, marked_l, marked_l, (marked_group "s"); auto. }
  destruct Hmark as [Hne Hdig].
  assert (Hcol : contains ":" text = false).
  { apply contains_forallb with (p := fun c => negb (Ascii.eqb c ":")).
    - intros c Hc. apply negb_true_iff, Hc.
    - assert (Hd : forall c, is_decimal c = true
                             -> negb (Ascii.eqb c ":") = true).
      { intros c Hc. rewrite (decimal_not_colon c Hc). reflexivity. }
      assert (Hw : forall w, forallb_str is_space w = true ->
                   forallb_str (fun c => negb (Ascii.eqb c ":")) w = true).
      { intros w. apply forallb_str_impl. intros c Hc.
        rewrite (space_not_colon c Hc). reflexivity. }
      destruct (unit_letter_cases _ _ Ih Uh) as (_ & _ & _ & Ch).
      destruct (unit_letter_cases _ _ Im Um) as (_ & _ & _ & Cm).
      destruct (unit_letter_cases _ _ Is Us) as (_ & _ & _ & Cs).
      unfold text. rewrite !forallb_str_app.
      rewrite !group_text_chars by (auto; apply negb_true_iff; assumption).
      rewrite !Hw by auto. reflexivity. }
  assert (Hl : lstrip text = text).
  { apply lstrip_stops. unfold text.
    repeat apply stops_spaced; simpl; auto. }
  assert (Hr : rstrip text = text).
  { unfold text.
    apply (rstrip_spaced "h"); auto.
    - apply (rstrip_spaced "m"); auto.
      + apply (rstrip_spaced "s"); auto.
      + destruct os as [d|]; [left|right; apply N3; reflexivity].
        rewrite !is_empty_app.
        destruct (marked_group "s" xs d Is Us) as [-> _]. reflexivity.
    - destruct om as [d|].
      + left. rewrite !is_empty_app.
        destruct (marked_group "m" xm d Im Um) as [-> _]. reflexivity.
      + destruct os as [d|].
        * left. rewrite !is_empty_app.
          destruct (marked_group "s" xs d Is Us) as [-> _].
          apply andb_false_r.
        * right. apply N3; reflexivity. }
  assert (Hstrip : strip text = text).
  { unfold strip. rewrite Hl. exact Hr. }
  rewrite parse_duration_stripped by assumption.
  rewrite Hcol. unfold isdigit. rewrite Hdig, andb_false_r.
  unfold suffix_form, text. rewrite match_spaced by assumption.
  destruct (group_or_zero_entries oh om os Hh Hm Hs) as (-> & -> & ->).
  reflexivity.
Qed.

Lemma spaces_app (a b : string) :
  forallb_str is_space a = true -> forallb_str is_space b = true ->
  forallb_str is_space (a ++ b) = true.
Proof. intros Ha Hb. rewrite forallb_str_app, Ha, Hb. reflexivity. Qed.

(** A text of groups and white space is white space, the groups with
    white space between them only, and white space. *)
Lemma reading_core (w0 w1 w2 w3 : string) (oh om os : option string)
  (xh xm xs : ascii) :
  forallb_str is_space w0 = true -> forallb_str is_space w1 = true ->
  forallb_str is_space w2 = true -> forallb_str is_space w3 = true ->
  oh <> None \/ om <> None \/ os <> None ->
  exists l r w1' w2',
    w0 ++ group_text oh xh ++ w1 ++ group_text om xm ++ w2
       ++ group_text os xs ++ w3
    = l ++ ((group_text oh xh ++ w1') ++ (group_text om xm ++ w2')
            ++ (group_text os xs ++ "") ++ "") ++ r
    /\ forallb_str is_space l = true /\ forallb_str is_space r = true
    /\ forallb_str is_space w1' = true /\ forallb_str is_space w2' = true
    /\ (oh = None -> w1' = "") /\ (om = None -> w2' = "")
    /\ (os = None -> w2' = "" /\ (om = None -> w1' = "")).
Proof.
  intros S0 S1 S2 S3 Hsome.
  destruct oh as [dh|], om as [dm|], os as [ds|].
  - exists w0, w3, w1, w2.
    split; [|repeat split; auto; discriminate].
    cbn [group_text]. rewrite !append_assoc, ?append_nil_r. reflexivity.
  - exists w0, (w2 ++ w3), w1, "".
    split; [|repeat split; auto using spaces_app; discriminate].
    cbn [group_text]. rewrite !append_assoc, ?append_nil_r. reflexivity.
  - exists w0, w3, (w1 ++ w2), "".
    split; [|repeat split; auto using spaces_app; discriminate].
    cbn [group_text]. rewrite !append_assoc, ?append_nil_r. reflexivity.
  - exists w0, (w1 ++ w2 ++ w3), "", "".
    split; [|repeat split; auto using spaces_app; discriminate].
    cbn [group_text]. rewrite !append_assoc, ?append_nil_r. reflexivity.
  - exists (w0 ++ w1), w3, "", w2.
    split; [|repeat split; auto using spaces_app; discriminate].
    cbn [group_text]. rewrite !append_assoc, ?append_nil_r. reflexivity.
  - exists (w0 ++ w1), (w2 ++ w3), "", "".
    split; [|repeat split; auto using spaces_app; discriminate].
    cbn [group_text]. rewrite !append_assoc, ?append_nil_r. reflexivity.
  - exists (w0 ++ w1 ++ w2), w3, "", "".
    split; [|repeat split; auto using spaces_app; discriminate].
    cbn [group_text]. rewrite !append_assoc, ?append_nil_r. reflexivity.
  - exfalso. intuition congruence.
Qed.

(** The suffix form with white space before, between and after the
    groups. *)
Lemma parse_duration_suffix_reading (value : string) (n : Z) :
  suffix_reading value n -> parse_duration value = Ok n.
Proof.
  intros (w0 & w1 & w2 & w3 & oh & om & os & xh & xm & xs & -> & S0 & S1 & S2
          & S3 & Hh & Hm & Hs & Uh & Um & Us & Hsome & ->).
  destruct (reading_core w0 w1 w2 w3 oh om os xh xm xs S0 S1 S2 S3 Hsome)
    as (l & r & w1' & w2' & -> & Sl & Sr & S1' & S2' & N1 & N2 & N3).
  set (core := (group_text oh xh ++ w1') ++ (group_text om xm ++ w2')
               ++ (group_text os xs ++ "") ++ "").
  assert (E : parse_duration (l ++ core ++ r) = parse_duration core).
  { unfold parse_duration. cbv zeta. rewrite strip_surrounded by assumption.
    reflexivity. }
  rewrite E. apply parse_duration_spaced; assumption.
Qed.

(** *** What the pattern can match *)

Lemma star_inv (p : ascii -> bool) (caps : captures) (k : cont)
  (res : captures) : forall (s : string) (pos : nat),
  star p pos s caps k = Some res ->
  exists consumed rest,
    s = consumed ++ rest /\ forallb_str p consumed = true
    /\ k (pos + String.length consumed)%nat rest caps = Some res.
Proof.
  induction s as [|c s IH]; intros pos; cbn [star].
  - intros H. exists "", "". rewrite Nat.add_0_r. auto.
  - assert (Hstop : k pos (String c s) caps = Some res ->
                    exists consumed rest,
                      String c s = consumed ++ rest
                      /\ forallb_str p consumed = true
                      /\ k (pos + String.length consumed)%nat rest caps
                         = Some res).
    { intros H. exists "", (String c s). rewrite Nat.add_0_r. auto. }
    destruct (p c) eqn:Hc; [|exact Hstop].
    destruct (star p (S pos) s caps k) as [r|] eqn:E; [|exact Hstop].
    intros [= <-]. destruct (IH (S pos) E) as (cs & rest & -> & Hp & Hk).
    exists (String c cs), rest. cbn [append forallb_str String.length].
    rewrite Hc, Hp, Nat.add_succ_r. auto.
Qed.

Lemma group_inv whole name u pos s caps k res :
  run whole (Group name (Plus is_decimal) >> Lit u) pos s caps k = Some res ->
  exists d x rest,
    s = d ++ String x rest /\ isdecimal d = true
    /\ Ascii.eqb (lower_char x) (lower_char u) = true
    /\ k (pos + String.length d + 1)%nat rest
         ((name, substring pos (String.length d) whole) :: caps) = Some res.
Proof.
  cbn [run]. destruct s as [|c s]; [discriminate|].
  destruct (is_decimal c) eqn:Hc; [|discriminate]. intros H.
  apply star_inv in H as (cs & rest & -> & Hcs & H).
  destruct rest as [|x rest]; [discriminate|].
  destruct (Ascii.eqb (lower_char x) (lower_char u)) eqn:Hx; [|discriminate].
  exists (String c cs), x, rest. split; [reflexivity|].
  split; [unfold isdecimal; cbn; rewrite Hc, Hcs; reflexivity|].
  split; [exact Hx|]. cbn [String.length].
  replace (pos + S (String.length cs) + 1)%nat
    with (S (S pos + String.length cs)) by lia.
  replace (S (String.length cs))
    with (S pos + String.length cs - pos)%nat by lia.
  exact H.
Qed.

Lemma run_star whole p pos s caps k :
  run whole (Star p) pos s caps k = star p pos s caps k.
Proof. reflexivity. Qed.

(** One group of the pattern and the white space after it. *)
Lemma stage_inv whole name u R pre s caps k res :
  whole = pre ++ s -> lower_char u = u ->
  run whole (Opt (Group name (Plus is_decimal) >> Lit u) >> Star is_space >> R)
    (String.length pre) s caps k = Some res ->
  exists o x w post,
    s = (group_text o x ++ w) ++ post
    /\ group_digits o /\ unit_letter u x
    /\ forallb_str is_space w = true
    /\ run whole R (String.length (pre ++ group_text o x ++ w)) post
         (entry name o ++ caps)%list k = Some res.
Proof.
  intros Hw Hu. rewrite run_cat. cbn [run].
  set (K := fun pos' s' caps' =>
              star is_space pos' s' caps'
                (fun pos'' s'' caps'' => run whole R pos'' s'' caps'' k)).
  change (match run whole (Group name (Plus is_decimal) >> Lit u)
                  (String.length pre) s caps K with
          | Some r => Some r
          | None => K (String.length pre) s caps
          end = Some res -> exists o x w post,
            s = (group_text o x ++ w) ++ post
            /\ group_digits o /\ unit_letter u x
            /\ forallb_str is_space w = true
            /\ run whole R (String.length (pre ++ group_text o x ++ w)) post
                 (entry name o ++ caps)%list k = Some res).
  destruct (run whole (Group name (Plus is_decimal) >> Lit u)
              (String.length pre) s caps K) as [r|] eqn:E.
  - intros [= ->]. apply group_inv in E as (d & x & rest & -> & Hd & Hx & E).
    unfold K in E. apply star_inv in E as (w & post & -> & Hsp & E).
    exists (Some d), x, w, post. cbn [group_text group_digits entry app].
    split; [rewrite !append_assoc; reflexivity|]. split; [exact Hd|].
    split; [unfold unit_letter; apply Ascii.eqb_eq in Hx; congruence|].
    split; [exact Hsp|].
    assert (Es : substring (String.length pre) (String.length d) whole = d).
    { rewrite Hw. apply substring_middle. }
    rewrite Es in E. rewrite !length_append. cbn [String.length].
    replace (String.length pre + (String.length d + 1 + String.length w))%nat
      with (String.length pre + String.length d + 1 + String.length w)%nat
      by lia.
    exact E.
  - intros H. unfold K in H. apply star_inv in H as (w & post & -> & Hsp & H).
    exists None, u, w, post. cbn [group_text group_digits entry app append].
    split; [reflexivity|]. split; [exact I|]. split; [exact Hu|].
    split; [exact Hsp|]. rewrite length_append. exact H.
Qed.

(** What the pattern matches is white space, the groups present in their
    order with white space after each, and at most a newline. *)
Lemma match_suffix_inv (value : string) (caps : captures) :
  Re.rmatch DURATION_PATTERN value = Some caps ->
  exists (w0 w1 w2 w3 tail : string) (oh om os : option string)
    (xh xm xs : ascii),
    value = w0 ++ (group_text oh xh ++ w1) ++ (group_text om xm ++ w2)
               ++ (group_text os xs ++ w3) ++ tail
    /\ forallb_str is_space w0 = true /\ forallb_str is_space w1 = true
    /\ forallb_str is_space w2 = true /\ forallb_str is_space w3 = true
    /\ at_end tail
    /\ group_digits oh /\ group_digits om /\ group_digits os
    /\ unit_letter "h" xh /\ unit_letter "m" xm /\ unit_letter "s" xs
    /\ caps = (entry "seconds" os ++ entry "minutes" om
               ++ entry "hours" oh)%list.
Proof.
  unfold Re.rmatch, DURATION_PATTERN. rewrite run_cat, run_bol. cbv beta.
  rewrite run_cat, run_star. intros H.
  apply star_inv in H as (w0 & s0 & E0 & S0 & H). cbn [Nat.add] in H.
  apply (stage_inv value "hours" "h" _ w0) in H
    as (oh & xh & w1 & s1 & E1 & Hh & Uh & S1 & H); [|congruence|reflexivity].
  apply (stage_inv value "minutes" "m") in H
    as (om & xm & w2 & s2 & E2 & Hm & Um & S2 & H);
    [|subst; rewrite !append_assoc; reflexivity|reflexivity].
  apply (stage_inv value "seconds" "s") in H
    as (os & xs & w3 & s3 & E3 & Hs & Us & S3 & H);
    [|subst; rewrite !append_assoc; reflexivity|reflexivity].
  assert (Hend : at_end s3 /\ caps = (entry "seconds" os ++ entry "minutes" om
                                      ++ entry "hours" oh)%list).
  { cbn [run] in H. rewrite app_nil_r in H.
    destruct s3 as [|c [|c' s3]].
    - injection H as <-. split; [left; reflexivity|]. reflexivity.
    - destruct (Ascii.eqb_spec c newline) as [->|]; [|discriminate].
      injection H as <-. split; [right; reflexivity|]. reflexivity.
    - discriminate. }
  destruct Hend as [Hend Hcaps].
  exists w0, w1, w2, w3, s3, oh, om, os, xh, xm, xs.
  split; [subst; reflexivity|]. repeat split; assumption.
Qed.

Lemma at_end_spaces (tail : string) :
  at_end tail -> forallb_str is_space tail = true.
Proof. intros [->| ->]; reflexivity. Qed.

Lemma suffix_form_inv (value : string) (n : Z) :
  suffix_form value = Ok n ->
  exists (w0 w1 w2 w3 : string) (oh om os : option string) (xh xm xs : ascii),
    value = w0 ++ group_text oh xh ++ w1 ++ group_text om xm ++ w2
               ++ group_text os xs ++ w3
    /\ forallb_str is_space w0 = true /\ forallb_str is_space w1 = true
    /\ forallb_str is_space w2 = true /\ forallb_str is_space w3 = true
    /\ group_digits oh /\ group_digits om /\ group_digits os
    /\ unit_letter "h" xh /\ unit_letter "m" xm /\ unit_letter "s" xs
    /\ n = group_value oh * 3600 + group_value om * 60 + group_value os.
Proof.
  unfold suffix_form.
  destruct (Re.rmatch DURATION_PATTERN value) as [caps|] eqn:E; [|discriminate].
  apply match_suffix_inv in E
    as (w0 & w1 & w2 & w3 & tail & oh & om & os & xh & xm & xs & -> & S0 & S1
        & S2 & S3 & Hend & Hh & Hm & Hs & Uh & Um & Us & ->).
  destruct (group_or_zero_entries oh om os Hh Hm Hs) as (-> & -> & ->).
  cbn [bind]. intros [= <-].
  exists w0, w1, w2, (w3 ++ tail), oh, om, os, xh, xm, xs.
  split; [rewrite !append_assoc; reflexivity|].
  repeat split; auto using spaces_app, at_end_spaces.
Qed.

Lemma lstrip_decompose (s : string) :
  exists l, s = l ++ lstrip s /\ forallb_str is_space l = true.
Proof.
  induction s as [|c s (l & E & Hl)]; [exists ""; auto|].
  cbn [lstrip]. destruct (is_space c) eqn:Hc.
  - exists (String c l). cbn [append forallb_str].
    rewrite Hc, Hl, <- E. auto.
  - exists "". auto.
Qed.

Lemma rstrip_decompose (s : string) :
  exists r, s = rstrip s ++ r /\ forallb_str is_space r = true.
Proof.
  induction s as [|c s (r & E & Hr)]; [exists ""; auto|].
  cbn [rstrip]. cbv zeta.
  destruct (is_space c && is_empty (rstrip s)) eqn:Hc.
  - apply andb_true_iff in Hc as [Hc He].
    destruct (rstrip s); [|discriminate]. cbn [append] in E. subst s.
    exists (String c r). cbn [append forallb_str]. rewrite Hc, Hr. auto.
  - exists r. cbn [append]. rewrite <- E. auto.
Qed.

Lemma strip_decompose (s : string) :
  exists l r,
    s = l ++ strip s ++ r
    /\ forallb_str is_space l = true /\ forallb_str is_space r = true.
Proof.
  destruct (lstrip_decompose s) as (l & El & Hl).
  destruct (rstrip_decompose (lstrip s)) as (r & Er & Hr).
  exists l, r. unfold strip. rewrite <- Er, <- El. auto.
Qed.

Lemma strip_spaces (s : string) :
  forallb_str is_space s = true -> strip s = "".
Proof. intros H. unfold strip. rewrite lstrip_all_spaces by exact H. reflexivity. Qed.

Lemma colon_reading_contains (value : string) (n : Z) :
  colon_reading value n -> contains ":" value = true.
Proof.
  intros H. destruct (contains ":" value) eqn:E; [reflexivity|].
  unfold colon_reading in H. rewrite (split_none ":" value E) in H.
  destruct H as [(m & s0 & H & _)|(h & m & s0 & H & _)]; discriminate.
Qed.

(** X19.  Among the texts whose characters are all below U+0100,
    [parse_duration] accepts three kinds of text and no other.  Stripped,
    an accepted text is two or three components of decimal digits between
    colons, white space allowed around each; or a run of decimal digits,
    read as seconds; or, white space allowed before, between and after
    them, the groups of hours, minutes and seconds in that order, at least
    one of them, each a run of decimal digits and its letter in either
    case; every other text raises.  And every text of these kinds of at
    most 4300 characters, which keeps each run of digits within the limit
    that the interpreter puts on the text of an integer, is accepted and
    read as it should. *)
Theorem parse_duration_accepts_exactly :
  forall (value : string) (n : Z),
    let reading :=
      colon_reading (strip value) n
      \/ (isdecimal (strip value) = true /\ n = decimal_value (strip value))
      \/ suffix_reading value n in
    (parse_duration value = Ok n -> reading)
    /\ (Vocabulary.short value -> reading -> parse_duration value = Ok n).
Proof.
  intros value n reading. unfold reading. split.
  - unfold parse_duration. cbv zeta.
    destruct (is_empty (strip value)) eqn:Hne; [discriminate|].
    destruct (contains ":" (strip value)) eqn:Hc.
    { intros H. left. apply colon_form_ok_iff, H. }
    destruct (isdigit (strip value)) eqn:Hd.
    { intros H. right. left. apply int_ok_inv, H. }
    intros H. right. right.
    apply suffix_form_inv in H
      as (w0 & w1 & w2 & w3 & oh & om & os & xh & xm & xs & E & S0 & S1 & S2
          & S3 & Hh & Hm & Hs & Uh & Um & Us & ->).
    destruct (strip_decompose value) as (l & r & Ev & Sl & Sr).
    exists (l ++ w0), w1, w2, (w3 ++ r), oh, om, os, xh, xm, xs.
    split; [rewrite Ev at 1; rewrite E, !append_assoc; reflexivity|].
    repeat split; auto using spaces_app.
    destruct oh as [dh|]; [left; discriminate|].
    destruct om as [dm|]; [right; left; discriminate|].
    destruct os as [ds|]; [right; right; discriminate|].
    exfalso. cbn [group_text append] in E.
    assert (Hs' : strip (strip value) = "").
    { rewrite E. apply strip_spaces. auto using spaces_app. }
    rewrite strip_idempotent in Hs'. rewrite Hs' in Hne. discriminate.
  - intros _ [H|[[Hd ->]|H]].
    + pose proof (colon_reading_contains _ _ H) as Hc.
      rewrite parse_duration_colon;
        [apply colon_form_ok_iff, H|apply (contains_not_empty ":"), Hc|exact Hc].
    + unfold parse_duration. cbv zeta.
      destruct (isdecimal_inv _ Hd) as (c & d' & E & _). rewrite E. cbn [is_empty].
      rewrite <- E.
      rewrite (contains_forallb ":" is_decimal),
        (isdecimal_isdigit _ Hd), (int_decimal _ Hd);
        auto using decimal_not_colon, isdecimal_forall.
    + apply parse_duration_suffix_reading, H.
Qed.

End SuffixCoverage.

Lemma parse_duration_accepts_exactly_witness :
  Vocabulary.short " 1H 30m"
  /\ Accepts.suffix_reading " 1H 30m" 5400
  /\ parse_duration " 1H 30m" = Ok 5400%Z
  /\ parse_duration " 90 " = Ok 90%Z
  /\ (Accepts.colon_reading (PyStr.strip " 90 ") 90
      \/ (PyStr.isdecimal (PyStr.strip " 90 ") = true
          /\ 90%Z = PyStr.decimal_value (PyStr.strip " 90 "))
      \/ Accepts.suffix_reading " 90 " 90).
Proof.
  assert (Hs : Vocabulary.short " 1H 30m")
    by (unfold Vocabulary.short, Vocabulary.int_max_str_digits; simpl; lia).
  assert (H : Accepts.suffix_reading " 1H 30m" 5400).
  { exists " ", " ", "", "", (Some "1"), (Some "30"), None,
      "H"%char, "m"%char, "s"%char.
    repeat split; try reflexivity. left. discriminate. }
  split; [exact Hs|]. split; [exact H|]. split; [|split].
  - apply (proj2 (parse_duration_accepts_exactly " 1H 30m" 5400) Hs).
    right. right. exact H.
  - reflexivity.
  - exact (proj1 (parse_duration_accepts_exactly " 90 " 90) eq_refl).
Defined.

(** ** The timer *)

Section TimerCoverage.
Import FormatFacts.

Context {R : Rounding}.

#[local] Existing Instance rnd_proper.
#[local] Existing Instance fadd_proper.
#[local] Existing Instance fsub_proper.
#[local] Existing Instance fmul_proper.
#[local] Existing Instance fdiv_proper.
#[local] Existing Instance py_min_proper.
#[local] Existing Instance format_time_proper.
#[local] Existing Instance percent_proper.

(** *** Whole seconds *)

Lemma trunc_whole_and_half (n : Z) :
  (0 <= n)%Z -> trunc (inject_Z n + (1 # 2)) = n.
Proof.
  intros Hn. unfold trunc, inject_Z, Qplus. cbn [Qnum Qden].
  rewrite Z.quot_div_nonneg by lia.
  change (Z.pos (1 * 2)) with 2%Z.
  replace (n * 2 + 1 * 1)%Z with (1 + n * 2)%Z by lia.
  rewrite Z.div_add by lia. reflexivity.
Qed.

Lemma format_time_whole (n : Z) :
  (0 <= n < 2 ^ 52)%Z -> format_time (inject_Z n) = clock n.
Proof.
  intros Hn. apply (format_time_halves (inject_Z n) (2 * n + 1)).
  - change (2 ^ (-1)) with (1 # 2). rewrite inject_Z_plus, inject_Z_mult.
    change (inject_Z 2) with 2. change (inject_Z 1) with 1. lra.
  - change (2 ^ 53)%Z with (2 * 2 ^ 52)%Z. lia.
  - rewrite trunc_whole_and_half, Z.max_r by lia. reflexivity.
Qed.

(** X4.  A whole number of seconds, from 0 up to [2^52], is shown as its
    own clock text, and that text parses back to the same number: what
    [parse_duration] returns and [format_time] shows agree. *)
Theorem whole_seconds_round_trip :
  forall n : Z,
    (0 <= n < 2 ^ 52)%Z ->
    format_time (inject_Z n) = clock n
    /\ parse_duration (format_time (inject_Z n)) = Ok n.
Proof.
  intros n Hn. rewrite format_time_whole by exact Hn.
  split; [reflexivity|apply parse_clock; lia].
Qed.

(** The seconds [format_time] shows do not go up when its argument goes
    down. *)
Lemma shown_seconds_monotone (x y : Q) :
  x <= y ->
  (Z.max 0 (trunc (fadd x (1 # 2))) <= Z.max 0 (trunc (fadd y (1 # 2))))%Z.
Proof.
  intros H. apply Z.max_le_compat_l, trunc_monotone.
  unfold fadd. apply rnd_monotone. lra.
Qed.

Lemma parse_format_time (x : Q) :
  parse_duration (format_time x) = Ok (Z.max 0 (trunc (fadd x (1 # 2)))).
Proof. unfold format_time. apply parse_clock, Z.le_max_l. Qed.

(** *** Frame after frame *)

Lemma loop_frames_sorted (Rel : Frame -> Frame -> Prop) (duration : Z)
  (label : string) (tick : Q) :
  (forall last now key st st',
     clock_inv last st -> last <= now ->
     handle_key now key st = Some st' ->
     Rel (frame_at duration label last st) (frame_at duration label now st')) ->
  forall (readings : list Reading) (last : Q) (st : TimerState),
    Sorted Qle (last :: map fst readings) -> clock_inv last st ->
    Sorted Rel (frames (fst (loop duration label tick st readings)))
    /\ HdRel Rel (frame_at duration label last st)
         (frames (fst (loop duration label tick st readings))).
Proof.
  intros Hstep.
  induction readings as [|[now key] readings IH]; intros last st Hs Hi.
  - split; constructor.
  - cbn [map fst] in Hs. apply Sorted_inv in Hs as [Hs Hh].
    apply HdRel_inv in Hh.
    rewrite loop_step. destruct (handle_key now key st) as [st'|] eqn:Hk;
      [|split; constructor].
    pose proof (handle_key_inv last now key st st' Hi Hh Hk) as Hi'.
    destruct (IH now st' Hs Hi') as [IH1 IH2].
    destruct (Qle_bool (remaining_at duration now st') 0); cbn [fst frames].
    + split; [repeat constructor|]. constructor. eapply Hstep; eauto.
    + split; [constructor; auto|]. constructor. eapply Hstep; eauto.
Qed.

Lemma run_timer_frames (duration : Z) (label : string) (tick clock0 : Q)
  (readings : list Reading) :
  frames (fst (run_timer duration label tick clock0 readings)) =
  frames (fst (loop duration label tick
                 {| start := clock0; elapsed_before_pause := 0;
                    paused := false |} readings)).
Proof.
  rewrite run_timer_events. cbv zeta. cbn [fst frames].
  destruct (snd (loop duration label tick _ readings)); try reflexivity.
  rewrite frames_app. cbn [frames]. apply app_nil_r.
Qed.

Lemma clock_inv_start (clock0 : Q) :
  clock_inv clock0
    {| start := clock0; elapsed_before_pause := 0; paused := false |}.
Proof. split; [|split]; cbn; intros; first [apply Qle_refl | apply rnd_0]. Qed.

Lemma run_timer_frames_sorted (Rel : Frame -> Frame -> Prop) (duration : Z)
  (label : string) (tick clock0 : Q) (readings : list Reading) :
  (forall last now key st st',
     clock_inv last st -> last <= now ->
     handle_key now key st = Some st' ->
     Rel (frame_at duration label last st) (frame_at duration label now st')) ->
  Sorted Qle (clock0 :: map fst readings) ->
  Sorted Rel (frames (fst (run_timer duration label tick clock0 readings))).
Proof.
  intros Hstep Hs. rewrite run_timer_frames.
  apply (loop_frames_sorted Rel duration label tick Hstep readings clock0);
    [exact Hs|apply clock_inv_start].
Qed.

Lemma remaining_step_monotone (duration : Z) (last now : Q)
  (key : option string) (st st' : TimerState) :
  clock_inv last st -> last <= now -> handle_key now key st = Some st' ->
  remaining_at duration now st' <= remaining_at duration last st.
Proof.
  intros Hi Hn Hk. unfold remaining_at, fsub. apply rnd_monotone.
  pose proof (elapsed_step_monotone last now key st st' Hi Hn Hk). lra.
Qed.

(** X5.  On a clock whose readings never go back, the clock text of a run
    never counts upward: read as a duration, each frame's text is at most
    that of the frame before, through pauses and resumptions alike. *)
Theorem clock_text_never_counts_up :
  forall duration label tick clock0 readings,
    Sorted Qle (clock0 :: map fst readings) ->
    Sorted clock_step
      (frames (fst (run_timer duration label tick clock0 readings))).
Proof.
  intros duration label tick clock0 readings.
  apply run_timer_frames_sorted.
  intros last now key st st' Hi Hn Hk. unfold clock_step, frame_at.
  cbn [header time_text build_header].
  eexists _, _. split; [apply parse_format_time|].
  split; [apply parse_format_time|].
  apply shown_seconds_monotone.
  apply (remaining_step_monotone duration last now key st st'); assumption.
Qed.

(** X6.  On a clock whose readings never go back, the progress task never
    moves backward: each redraw sets [completed] to at least what the one
    before set. *)
Theorem progress_never_goes_back :
  forall duration label tick clock0 readings,
    Sorted Qle (clock0 :: map fst readings) ->
    Sorted completed_step
      (frames (fst (run_timer duration label tick clock0 readings))).
Proof.
  intros duration label tick clock0 readings.
  apply run_timer_frames_sorted.
  intros last now key st st' Hi Hn Hk. unfold completed_step, frame_at.
  cbn [completed]. rewrite !py_min_Qmin. apply Q.min_le_compat_r.
  apply (elapsed_step_monotone last now key st st'); assumption.
Qed.

Lemma loop_frames_forall (P : Frame -> Prop) (duration : Z) (label : string)
  (tick : Q) :
  (forall now st, clock_inv now st -> P (frame_at duration label now st)) ->
  forall (readings : list Reading) (last : Q) (st : TimerState),
    Sorted Qle (last :: map fst readings) -> clock_inv last st ->
    Forall P (frames (fst (loop duration label tick st readings))).
Proof.
  intros HP.
  induction readings as [|[now key] readings IH]; intros last st Hs Hi.
  - constructor.
  - cbn [map fst] in Hs. apply Sorted_inv in Hs as [Hs Hh].
    apply HdRel_inv in Hh.
    rewrite loop_step. destruct (handle_key now key st) as [st'|] eqn:Hk;
      [|constructor].
    pose proof (handle_key_inv last now key st st' Hi Hh Hk) as Hi'.
    specialize (IH now st' Hs Hi').
    destruct (Qle_bool (remaining_at duration now st') 0); cbn [fst frames].
    + repeat constructor. apply HP, Hi'.
    + constructor; [apply HP, Hi'|exact IH].
Qed.

Lemma of_int_float (n : Z) : rnd (of_int n) == of_int n.
Proof. unfold of_int. apply rnd_idempotent. Qed.

Lemma percent_nonneg (remaining : Q) (total : Z) :
  (0 < total)%Z -> remaining <= of_int total -> 0 <= percent remaining total.
Proof.
  intros Ht Hr. unfold percent.
  destruct (Z.eqb_spec total 0) as [E|_]; [lia|].
  pose proof (of_int_positive total Ht) as Hp.
  rewrite py_min_Qmin. apply Q.min_glb; [lra|].
  assert (H1 : fdiv remaining (of_int total) <= 1).
  { unfold fdiv. apply Qle_trans with (rnd 1); [|rewrite rnd_1; lra].
    apply rnd_monotone. apply Qle_shift_div_r; lra. }
  assert (H2 : 0 <= fsub 1 (fdiv remaining (of_int total))).
  { apply fsub_nonneg, H1. }
  unfold fmul. apply Qle_trans with (rnd 0); [rewrite rnd_0; lra|].
  apply rnd_monotone. set (z := fsub 1 _) in *. lra.
Qed.

Lemma frame_at_in_scale (duration : Z) (label : string) (now : Q)
  (st : TimerState) :
  (0 < duration)%Z -> clock_inv now st ->
  in_scale (frame_at duration label now st).
Proof.
  intros Hd Hi. pose proof (elapsed_at_nonneg now st Hi) as He.
  unfold in_scale. rewrite percent_frame_at. cbn [frame_at completed].
  split; [split|].
  - apply percent_nonneg; [exact Hd|].
    unfold fsub.
    apply Qle_trans with (rnd (of_int duration));
      [|rewrite of_int_float; lra].
    apply rnd_monotone. lra.
  - apply percent_le_100.
  - rewrite py_min_Qmin. apply Q.min_glb; [exact He|].
    change 0 with (inject_Z 0). rewrite <- Zle_Qle. lia.
Qed.

(** X7.  For a positive duration, and on a clock whose readings never go
    back, every frame of a run stays within the scale of the display: the
    percentage is from 0 to 100 and the progress is not negative. *)
Theorem frames_stay_in_scale :
  forall duration label tick clock0 readings,
    (0 < duration)%Z ->
    Sorted Qle (clock0 :: map fst readings) ->
    Forall in_scale
      (frames (fst (run_timer duration label tick clock0 readings))).
Proof.
  intros duration label tick clock0 readings Hd Hs.
  rewrite run_timer_frames.
  apply (loop_frames_forall in_scale duration label tick) with (last := clock0);
    [|exact Hs|apply clock_inv_start].
  intros now st. apply frame_at_in_scale, Hd.
Qed.

(** *** When the time is up *)

Lemma rnd_100 : rnd 100 == 100.
Proof. apply (rnd_integer 100). reflexivity. Qed.

Lemma percent_expired (remaining : Q) (total : Z) :
  (0 < total)%Z -> remaining <= 0 -> percent remaining total = 100.
Proof.
  intros Ht Hr. unfold percent.
  destruct (Z.eqb_spec total 0) as [E|_]; [lia|].
  pose proof (of_int_positive total Ht) as Hp.
  assert (H1 : fdiv remaining (of_int total) <= 0).
  { unfold fdiv. apply Qle_trans with (rnd 0); [|rewrite rnd_0; lra].
    apply rnd_monotone. apply Qle_shift_div_r; lra. }
  assert (H2 : 1 <= fsub 1 (fdiv remaining (of_int total))).
  { unfold fsub. apply Qle_trans with (rnd 1); [rewrite rnd_1; lra|].
    apply rnd_monotone. lra. }
  assert (H3 : 100 <= fmul (fsub 1 (fdiv remaining (of_int total))) 100).
  { unfold fmul. apply Qle_trans with (rnd 100); [rewrite rnd_100; lra|].
    apply rnd_monotone. set (z := fsub 1 _) in *. lra. }
  unfold py_min, Qltb.
  destruct (fmul _ 100 ?= 100) eqn:E; try reflexivity.
  apply Qlt_alt in E. lra.
Qed.

Lemma main_ran (duration label : string) (tick clock0 : Q)
  (readings : list Reading) (events : list Event) (exit : Exit) :
  main duration label tick clock0 readings = Ran events exit ->
  exists seconds : Z,
    parse_duration duration = Ok seconds /\ (0 < seconds)%Z
    /\ run_timer seconds label tick clock0 readings = (events, exit).
Proof.
  unfold main, validate_duration.
  destruct (parse_duration duration) as [seconds|[msg]]; cbn [bind];
    [|discriminate].
  destruct (Z.leb_spec seconds 0) as [Hle|Hlt]; cbn [bind]; [discriminate|].
  destruct (Qle_bool tick 0); [discriminate|].
  destruct (run_timer seconds label tick clock0 readings) as [ev ex] eqn:Er.
  intros [= <- <-]. exists seconds. auto.
Qed.

(** X8.  When a timer started by [main] runs out, its last frame shows
    the clock at "00:00" and the percentage at 100, and the message
    follows it at once. *)
Theorem expiry_shows_zero_and_full :
  forall duration label tick clock0 readings events,
    main duration label tick clock0 readings = Ran events Broke ->
    exists before f,
      events = (before ++ [Update f; Message "Time's up!"])%list
      /\ time_text (header f) = "00:00"
      /\ header_percent (header f) = 100.
Proof.
  intros duration label tick clock0 readings events Hm.
  apply main_ran in Hm as (seconds & _ & Hpos & Hr).
  pose proof (run_timer_events seconds label tick clock0 readings) as He.
  cbv zeta in He. rewrite Hr in He.
  destruct (loop seconds label tick _ readings) as [ev ex] eqn:El.
  cbn [fst snd] in He. injection He as He Hx. subst ex.
  pose proof (loop_broke seconds label tick readings
                {| start := clock0; elapsed_before_pause := 0;
                   paused := false |}) as Hb.
  rewrite El in Hb. cbn [fst snd] in Hb.
  destruct (Hb eq_refl) as (before & now & st' & -> & Hrem).
  exists (Add_task seconds :: before), (frame_at seconds label now st').
  split; [|split].
  - rewrite He, <- app_assoc. reflexivity.
  - cbn [frame_at header build_header time_text].
    apply format_time_nonpositive, Hrem.
  - rewrite percent_frame_at. apply percent_expired; [exact Hpos|exact Hrem].
Qed.





(** *** The time spent running *)

Lemma exact_elapsed_at (now : Q) (st : TimerState) :
  exact_elapsed now st ->
  elapsed_at now st ==
    elapsed_before_pause st + (if paused st then 0 else now - start st).
Proof.
  unfold exact_elapsed, elapsed_at, exact, fadd, fsub.
  destruct (paused st); [intros _; ring|].
  intros H. destruct (H eq_refl) as [E1 E2]. rewrite E1. exact E2.
Qed.

Lemma elapsed_step_local (last now : Q) (key : option string)
  (st st' : TimerState) :
  handle_key now key st = Some st' ->
  exact_elapsed last st -> exact_elapsed now st -> exact_elapsed now st' ->
  elapsed_at now st' ==
    elapsed_at last st + (if paused st then 0 else now - last).
Proof.
  intros Hk Hl Hn Hn'.
  rewrite (exact_elapsed_at last st Hl), (exact_elapsed_at now st' Hn').
  destruct (handle_key_cases now key st st' Hk) as [E|[[P E]|[P E]]];
    subst st'.
  - destruct (paused st); ring.
  - pose proof (exact_elapsed_at now st Hn) as E. rewrite P in E |- *.
    cbn [pause_at paused elapsed_before_pause]. unfold elapsed_at in E.
    rewrite P in E. rewrite E. ring.
  - rewrite P. cbn [resume_at paused elapsed_before_pause start]. ring.
Qed.

Lemma exact_remaining_at (duration : Z) (now : Q) (st : TimerState) :
  exact (inject_Z duration) ->
  exact (inject_Z duration - elapsed_at now st) ->
  remaining_at duration now st == inject_Z duration - elapsed_at now st.
Proof.
  unfold exact, remaining_at, fsub, of_int. intros Hd Hr.
  rewrite Hd. exact Hr.
Qed.

Lemma exact_elapsed_start (clock0 : Q) :
  exact_elapsed clock0
    {| start := clock0; elapsed_before_pause := 0; paused := false |}.
Proof.
  intros _. cbn [start elapsed_before_pause]. unfold exact.
  assert (E : clock0 - clock0 == 0) by ring.
  assert (E' : 0 + (clock0 - clock0) == 0) by ring.
  split; [rewrite E|rewrite E']; apply rnd_0.
Qed.

Lemma loop_broke_running (duration : Z) (label : string) (tick : Q)
  (readings : list Reading) : forall (last : Q) (st : TimerState),
  exact (inject_Z duration) -> exact_elapsed last st ->
  each_iteration (exact_clock duration) duration st readings ->
  snd (loop duration label tick st readings) = Broke ->
  exists n : nat,
    inject_Z duration
    <= elapsed_at last st + running_time st last (firstn n readings).
Proof.
  induction readings as [|[now key] readings IH]; intros last st Hd Hl;
    [discriminate|].
  rewrite loop_step. cbn [each_iteration].
  destruct (handle_key now key st) as [st1|] eqn:Hk; [|discriminate].
  intros [(Hn & Hn' & Hr) Hrest].
  pose proof (elapsed_step_local last now key st st1 Hk Hl Hn Hn') as He.
  pose proof (exact_remaining_at duration now st1 Hd Hr) as Er.
  destruct (Qle_bool (remaining_at duration now st1) 0) eqn:E.
  - intros _. exists 1%nat. cbn [firstn running_time]. rewrite Hk.
    apply Qle_bool_iff in E. rewrite Er in E. cbn [running_time]. lra.
  - cbn [snd]. intros Hb. destruct (IH now st1 Hd Hn' Hrest Hb) as (n & Hn1).
    exists (S n). cbn [firstn running_time]. rewrite Hk. lra.
Qed.

Lemma loop_waiting_running (duration : Z) (label : string) (tick : Q)
  (readings : list Reading) : forall (last : Q) (st st' : TimerState),
  exact (inject_Z duration) -> exact_elapsed last st ->
  each_iteration (exact_clock duration) duration st readings ->
  readings <> [] ->
  snd (loop duration label tick st readings) = Waiting st' ->
  elapsed_at last st + running_time st last readings < inject_Z duration.
Proof.
  induction readings as [|[now key] readings IH];
    intros last st st' Hd Hl Hex Hne; [congruence|].
  revert Hex. rewrite loop_step. cbn [running_time each_iteration].
  destruct (handle_key now key st) as [st1|] eqn:Hk; [|discriminate].
  intros [(Hn & Hn' & Hr) Hrest].
  pose proof (elapsed_step_local last now key st st1 Hk Hl Hn Hn') as He.
  pose proof (exact_remaining_at duration now st1 Hd Hr) as Er.
  destruct (Qle_bool (remaining_at duration now st1) 0) eqn:E; [discriminate|].
  cbn [snd]. intros Hw. destruct readings as [|r readings].
  - cbn [running_time].
    assert (Hr' : ~ remaining_at duration now st1 <= 0).
    { intros H. apply Qle_bool_iff in H. congruence. }
    rewrite Er in Hr'. lra.
  - assert (Hne' : r :: readings <> []) by discriminate.
    pose proof (IH now st1 st' Hd Hn' Hrest Hne' Hw). lra.
Qed.

(** X10.  On a run whose own additions and subtractions lose nothing
    (the conversion of the duration, what each pause banks, the elapsed
    and the remaining time of each iteration), the timer runs out neither
    early nor late: a run that has expired had, by one of its readings,
    spent at least the duration running, pauses not counted; and a run
    still going after its last reading has spent less than the duration
    running. *)
Theorem expires_on_running_time :
  forall duration label tick clock0 readings,
    exact (inject_Z duration) ->
    each_iteration (exact_clock duration) duration
      {| start := clock0; elapsed_before_pause := 0; paused := false |}
      readings ->
    (snd (run_timer duration label tick clock0 readings) = Broke ->
     exists n : nat,
       inject_Z duration
       <= running_time
            {| start := clock0; elapsed_before_pause := 0; paused := false |}
            clock0 (firstn n readings))
    /\ (forall st,
          readings <> [] ->
          snd (run_timer duration label tick clock0 readings) = Waiting st ->
          running_time
            {| start := clock0; elapsed_before_pause := 0; paused := false |}
            clock0 readings
          < inject_Z duration).
Proof.
  intros duration label tick clock0 readings Hd Hex. rewrite run_timer_exit.
  set (st0 := {| start := clock0; elapsed_before_pause := 0;
                 paused := false |}) in *.
  pose proof (exact_elapsed_start clock0) as Hs. fold st0 in Hs.
  assert (H0 : elapsed_at clock0 st0 == 0).
  { rewrite (exact_elapsed_at clock0 st0 Hs). unfold st0. cbn. ring. }
  split.
  - intros Hb.
    destruct (loop_broke_running duration label tick readings clock0 st0
                Hd Hs Hex Hb) as (n & Hn).
    exists n. lra.
  - intros st Hne Hw.
    pose proof (loop_waiting_running duration label tick readings clock0 st0
                  st Hd Hs Hex Hne Hw). lra.
Qed.

(** *** The two percentages *)

Lemma frame_at_share (duration : Z) (label : string) (now : Q)
  (st st' : TimerState) :
  exact_percent duration now st st' -> (0 < duration)%Z ->
  percent_is_share duration (frame_at duration label now st').
Proof.
  intros (Hd & Hr & Hq1 & Hq2 & Hq3) Hp. unfold percent_is_share.
  rewrite percent_frame_at.
  cbn [frame_at completed]. unfold percent.
  destruct (Z.eqb_spec duration 0) as [E|_]; [lia|].
  rewrite !py_min_Qmin. unfold exact in *. unfold fmul, fsub, fdiv, of_int.
  rewrite Hd, Hr, Hq1, Hq2, Hq3.
  set (e := elapsed_at now st').
  assert (Hq : 0 < inject_Z duration).
  { change 0 with (inject_Z 0). rewrite <- Zlt_Qlt. exact Hp. }
  set (d := inject_Z duration) in *.
  assert (E1 : (1 - (d - e) / d) * 100 == e / d * 100) by (field; lra).
  rewrite E1.
  destruct (Qlt_le_dec e d) as [Hlt|Hle].
  - rewrite (Q.min_l e d) by lra.
    apply Q.min_r. apply Qle_trans with (d / d * 100).
    + apply Qmult_le_compat_r; [|lra].
      apply Qmult_le_compat_r; [lra|]. apply Qinv_le_0_compat. lra.
    + assert (E2 : d / d * 100 == 100) by (field; lra). rewrite E2. lra.
  - rewrite (Q.min_r e d) by exact Hle.
    assert (E2 : d / d * 100 == 100) by (field; lra). rewrite E2.
    apply Q.min_l. apply Qle_trans with (d / d * 100); [rewrite E2; lra|].
    apply Qmult_le_compat_r; [|lra].
    apply Qmult_le_compat_r; [exact Hle|]. apply Qinv_le_0_compat. lra.
Qed.

(** X20.  For a positive duration, on a run where the arithmetic of the
    percentage loses nothing (the conversion of the duration, the
    remaining time, its share of the duration, what is left of 1 and the
    product by 100, at each iteration), the two percentages of every
    frame agree: the one in the header is the progress given to the bar,
    as a share of the duration. *)
Theorem header_and_bar_agree :
  forall duration label tick clock0 readings,
    (0 < duration)%Z ->
    each_iteration (exact_percent duration) duration
      {| start := clock0; elapsed_before_pause := 0; paused := false |}
      readings ->
    Forall (percent_is_share duration)
      (frames (fst (run_timer duration label tick clock0 readings))).
Proof.
  intros duration label tick clock0 readings Hd.
  rewrite run_timer_frames.
  set (st0 := {| start := clock0; elapsed_before_pause := 0;
                 paused := false |}).
  generalize st0. clear st0.
  induction readings as [|[now key] readings IH]; intros st; [constructor|].
  rewrite loop_step. cbn [each_iteration].
  destruct (handle_key now key st) as [st'|]; [|constructor].
  specialize (IH st'). intros [Hx Hrest].
  destruct (Qle_bool (remaining_at duration now st') 0); cbn [fst frames].
  - repeat constructor. eapply frame_at_share; eassumption.
  - constructor; [eapply frame_at_share; eassumption|exact (IH Hrest)].
Qed.

(** *** Redraws and sleeps *)

Lemma loop_paced (duration : Z) (label : string) (tick : Q)
  (readings : list Reading) : forall st : TimerState,
  exists (fs : list Frame) (f : Frame),
    fst (loop duration label tick st readings) =
      (paced tick fs
       ++ match snd (loop duration label tick st readings) with
          | Broke => [Update f]
          | _ => []
          end)%list
    /\ (List.length (frames (fst (loop duration label tick st readings)))
        <= List.length readings)%nat.
Proof.
  induction readings as [|[now key] readings IH]; intros st.
  - exists [], (frame_at duration label 0 st). split; [reflexivity|cbn; lia].
  - rewrite loop_step. destruct (handle_key now key st) as [st'|].
    + destruct (Qle_bool (remaining_at duration now st') 0).
      * exists [], (frame_at duration label now st').
        split; [reflexivity|cbn; lia].
      * destruct (IH st') as (fs & f & E & Hl).
        exists (frame_at duration label now st' :: fs), f.
        cbn [fst snd frames List.length]. split; [|lia].
        rewrite E at 1. reflexivity.
    + exists [], (frame_at duration label now st).
      split; [reflexivity|cbn; lia].
Qed.

(** A loop that has not been left has drawn and slept once for each
    reading of the clock. *)
Lemma loop_waiting_paced (duration : Z) (label : string) (tick : Q)
  (readings : list Reading) : forall (st st1 : TimerState) events,
  loop duration label tick st readings = (events, Waiting st1) ->
  events = paced tick (frames events)
  /\ List.length (frames events) = List.length readings.
Proof.
  induction readings as [|[now key] readings IH]; intros st st1 events.
  - intros [= <- _]. split; reflexivity.
  - rewrite loop_step. destruct (handle_key now key st) as [st'|];
      [|discriminate].
    destruct (Qle_bool (remaining_at duration now st') 0); [discriminate|].
    destruct (loop duration label tick st' readings) as [ev ex] eqn:E.
    cbn [fst snd]. intros [= <- ->].
    destruct (IH st' st1 ev E) as [Hp Hl].
    cbn [frames List.length]. split; [|congruence].
    unfold paced. cbn [flat_map app]. fold (paced tick (frames ev)).
    congruence.
Qed.

(** X11.  Within the range of its arithmetic, a run that is still going
    after some readings of the clock has shown, after the opening of the
    progress task, one redraw and one sleep of [tick] for each of them.
    An iteration that is not left by [q] and finds time remaining adds
    its redraw and then a sleep of [tick]; one that finds no time
    remaining adds its redraw, no sleep, and the message.  So the events
    of any run are the opening of the task, a redraw and a sleep for each
    iteration that goes on and, only when the time is up, a last redraw
    and the message. *)
Theorem redraws_and_sleeps_alternate :
  (forall duration label tick clock0 before events st,
     in_range duration tick ->
     loop duration label tick
       {| start := clock0; elapsed_before_pause := 0; paused := false |}
       before = (events, Waiting st) ->
     run_timer duration label tick clock0 before
     = (Add_task duration :: paced tick (frames events), Waiting st)
     /\ List.length (frames events) = List.length before)
  /\ (forall duration label tick clock0 before now key rest events st st',
        in_range duration tick ->
        loop duration label tick
          {| start := clock0; elapsed_before_pause := 0; paused := false |}
          before = (events, Waiting st) ->
        handle_key now key st = Some st' ->
        exists after,
          fst (run_timer duration label tick clock0
                 (before ++ (now, key) :: rest)%list)
          = (Add_task duration
               :: paced tick (frames events)
               ++ Update (frame_at duration label now st') :: after)%list
          /\ (remaining_at duration now st' <= 0 ->
              after = [Message "Time's up!"])
          /\ (~ remaining_at duration now st' <= 0 ->
              exists later, after = Sleep tick :: later))
  /\ (forall duration label tick clock0 readings,
      exists (fs : list Frame) (f : Frame),
        fst (run_timer duration label tick clock0 readings) =
          (Add_task duration
           :: paced tick fs
           ++ closing (snd (run_timer duration label tick clock0 readings)) f)
          %list
        /\ (List.length
              (frames (fst (run_timer duration label tick clock0 readings)))
            <= List.length readings)%nat).
Proof.
  split.
  { intros duration label tick clock0 before events st _ H.
    destruct (loop_waiting_paced _ _ _ _ _ _ _ H) as [Hp Hl].
    split; [|exact Hl].
    rewrite run_timer_events. cbv zeta. rewrite H. cbn [fst snd].
    congruence. }
  split.
  { intros duration label tick clock0 before now key rest events st st'
      _ H Hk.
    destruct (loop_waiting_paced _ _ _ _ _ _ _ H) as [Hp _].
    rewrite (run_timer_app duration label tick clock0 before _ events st H).
    rewrite loop_step, Hk. cbn [fst]. rewrite <- Hp.
    destruct (Qle_bool (remaining_at duration now st') 0) eqn:E;
      cbn [fst snd].
    - exists [Message "Time's up!"]. split; [|split].
      + rewrite <- app_assoc. reflexivity.
      + reflexivity.
      + intros Hn. apply Qle_bool_iff in E. contradiction.
    - exists (Sleep tick
              :: match snd (loop duration label tick st' rest) with
                 | Broke => (fst (loop duration label tick st' rest)
                             ++ [Message "Time's up!"])%list
                 | _ => fst (loop duration label tick st' rest)
                 end).
      split; [|split].
      + destruct (snd (loop duration label tick st' rest));
          rewrite <- ?app_assoc; cbn [app]; reflexivity.
      + intros Hr. apply Qle_bool_iff in Hr. congruence.
      + intros _. eexists. reflexivity. }
  intros duration label tick clock0 readings.
  rewrite run_timer_frames, run_timer_exit, run_timer_events. cbv zeta.
  destruct (loop_paced duration label tick readings
              {| start := clock0; elapsed_before_pause := 0;
                 paused := false |}) as (fs & f & E & Hl).
  exists fs, f. split; [|exact Hl]. cbn [fst]. f_equal.
  destruct (loop duration label tick _ readings) as [ev ex].
  cbn [fst snd] in *. subst ev.
  destruct ex; cbn [closing]; rewrite <- ?app_assoc; reflexivity.
Qed.

End TimerCoverage.

Lemma redraws_and_sleeps_alternate_witness :
  let first := frame_at (R := exact_arithmetic) 3 "x" 101 sample_started in
  in_range 3 (1 # 10)
  /\ loop (R := exact_arithmetic) 3 "x" (1 # 10) sample_started [(101, None)]
     = ([Update first; Sleep (1 # 10)], Waiting sample_started)
  /\ handle_key 102 (Some "z") sample_started = Some sample_started
  /\ ~ remaining_at (R := exact_arithmetic) 3 102 sample_started <= 0
  /\ (run_timer (R := exact_arithmetic) 3 "x" (1 # 10) 100 [(101, None)]
      = (Add_task 3 :: paced (1 # 10) [first], Waiting sample_started)
      /\ List.length [first] = List.length [(101, None : option string)])
  /\ exists after,
       fst (run_timer (R := exact_arithmetic) 3 "x" (1 # 10) 100
              ([(101, None)] ++ (102, Some "z") :: [(104, None)])%list)
       = (Add_task 3
            :: paced (1 # 10) [first]
            ++ Update (frame_at 3 "x" 102 sample_started) :: after)%list
       /\ (remaining_at (R := exact_arithmetic) 3 102 sample_started <= 0 ->
           after = [Message "Time's up!"])
       /\ (~ remaining_at (R := exact_arithmetic) 3 102 sample_started <= 0 ->
           exists later, after = Sleep (1 # 10) :: later).
Proof.
  intros first.
  destruct (@redraws_and_sleeps_alternate exact_arithmetic)
    as (Hgoing & Hnext & _).
  assert (Hl : loop (R := exact_arithmetic) 3 "x" (1 # 10) sample_started
                 [(101, None)]
               = ([Update first; Sleep (1 # 10)], Waiting sample_started))
    by reflexivity.
  split; [exact sample_in_range|]. split; [exact Hl|].
  split; [reflexivity|]. split; [intros H; apply Qle_bool_iff in H; discriminate|].
  split.
  - exact (Hgoing 3%Z "x" (1 # 10) 100 [(101, None)] _ sample_started
             sample_in_range Hl).
  - exact (Hnext 3%Z "x" (1 # 10) 100 [(101, None)] 102 (Some "z")
             [(104, None)] _ sample_started sample_started
             sample_in_range Hl eq_refl).
Defined.

Lemma whole_seconds_round_trip_witness :
  (0 <= 3725 < 2 ^ 52)%Z
  /\ format_time (R := exact_arithmetic) (inject_Z 3725) = clock 3725
  /\ parse_duration (format_time (R := exact_arithmetic) (inject_Z 3725))
     = Ok 3725%Z.
Proof.
  assert (H : (0 <= 3725 < 2 ^ 52)%Z) by (split; [lia|reflexivity]).
  split; [exact H|]. apply (@whole_seconds_round_trip exact_arithmetic), H.
Defined.

Lemma sample_clock_sorted : Sorted Qle (100 :: map fst sample_readings).
Proof.
  repeat first [apply Sorted_cons | apply Sorted_nil | apply HdRel_cons
               | apply HdRel_nil | (apply Qle_bool_iff; reflexivity)].
Defined.

Lemma clock_text_never_counts_up_witness :
  Sorted Qle (100 :: map fst sample_readings)
  /\ Sorted clock_step
       (frames (fst (run_timer (R := exact_arithmetic) 3 "x" (1 # 10) 100
                       sample_readings))).
Proof.
  split; [exact sample_clock_sorted|].
  apply (@clock_text_never_counts_up exact_arithmetic), sample_clock_sorted.
Defined.

Lemma progress_never_goes_back_witness :
  Sorted Qle (100 :: map fst sample_readings)
  /\ Sorted completed_step
       (frames (fst (run_timer (R := exact_arithmetic) 3 "x" (1 # 10) 100
                       sample_readings))).
Proof.
  split; [exact sample_clock_sorted|].
  apply (@progress_never_goes_back exact_arithmetic), sample_clock_sorted.
Defined.

Lemma frames_stay_in_scale_witness :
  (0 < 3)%Z /\ Sorted Qle (100 :: map fst sample_readings)
  /\ Forall in_scale
       (frames (fst (run_timer (R := exact_arithmetic) 3 "x" (1 # 10) 100
                       sample_readings))).
Proof.
  split; [reflexivity|]. split; [exact sample_clock_sorted|].
  apply (@frames_stay_in_scale exact_arithmetic);
    [reflexivity|exact sample_clock_sorted].
Defined.

Lemma expiry_shows_zero_and_full_witness :
  exists before f,
    [Add_task 2;
     Update (frame_at (R := exact_arithmetic) 2 "x" 101 sample_started);
     Sleep (1 # 10);
     Update (frame_at (R := exact_arithmetic) 2 "x" 102 sample_started);
     Message "Time's up!"]
    = (before ++ [Update f; Message "Time's up!"])%list
    /\ time_text (header f) = "00:00"
    /\ header_percent (header f) = 100.
Proof.
  apply (@expiry_shows_zero_and_full exact_arithmetic "00:02" "x" (1 # 10) 100
           [(101, None); (102, None)]).
  reflexivity.
Defined.


Lemma dyadic_run_exact :
  each_iteration (R := Binary64.binary64)
    (exact_clock (R := Binary64.binary64) 4) 4
    {| start := 100; elapsed_before_pause := 0; paused := false |}
    dyadic_readings.
Proof.
  vm_compute. repeat split; intros _; repeat split; reflexivity.
Defined.

Lemma dyadic_start_exact :
  each_iteration (R := Binary64.binary64)
    (exact_clock (R := Binary64.binary64) 4) 4
    {| start := 100; elapsed_before_pause := 0; paused := false |}
    (firstn 5 dyadic_readings).
Proof.
  vm_compute. repeat split; intros _; repeat split; reflexivity.
Defined.

Lemma expires_on_running_time_witness :
  let st0 := {| start := 100; elapsed_before_pause := 0; paused := false |} in
  exact (R := Binary64.binary64) (inject_Z 4)
  /\ (snd (run_timer (R := Binary64.binary64) 4 "x" (1 # 10) 100
             dyadic_readings) = Broke
      /\ exists n : nat,
           inject_Z 4
           <= running_time (R := Binary64.binary64) st0 100
                (firstn n dyadic_readings))
  /\ (firstn 5 dyadic_readings <> []
      /\ (exists st,
            snd (run_timer (R := Binary64.binary64) 4 "x" (1 # 10) 100
                   (firstn 5 dyadic_readings))
            = Waiting st)
      /\ running_time (R := Binary64.binary64) st0 100
           (firstn 5 dyadic_readings)
         < inject_Z 4).
Proof.
  intros st0. unfold st0.
  assert (Hd : exact (R := Binary64.binary64) (inject_Z 4))
    by (vm_compute; reflexivity).
  assert (Hb : snd (run_timer (R := Binary64.binary64) 4 "x" (1 # 10) 100
                      dyadic_readings) = Broke) by (vm_compute; reflexivity).
  assert (Hne : firstn 5 dyadic_readings <> []) by discriminate.
  assert (Hw : exists st,
             snd (run_timer (R := Binary64.binary64) 4 "x" (1 # 10) 100
                    (firstn 5 dyadic_readings))
             = Waiting st) by (eexists; vm_compute; reflexivity).
  split; [exact Hd|]. split.
  - split; [exact Hb|].
    exact (proj1 (@expires_on_running_time Binary64.binary64 4%Z "x" (1 # 10)
                    100 dyadic_readings Hd dyadic_run_exact) Hb).
  - split; [exact Hne|]. split; [exact Hw|].
    destruct Hw as [st Hw].
    exact (proj2 (@expires_on_running_time Binary64.binary64 4%Z "x" (1 # 10)
                    100 (firstn 5 dyadic_readings) Hd dyadic_start_exact)
             st Hne Hw).
Defined.

(** ** The display *)

Section DisplayCoverage.
Import FormatFacts.

Context {R : Rounding}.

#[local] Existing Instance rnd_proper.

(** *** The refresh rate *)

Lemma py_max_Qmax (a b : Q) : py_max a b == Qmax a b.
Proof.
  unfold py_max, Qltb. destruct (a ?= b) eqn:E.
  - apply Qeq_alt in E. rewrite Q.max_l; [reflexivity|rewrite E; apply Qle_refl].
  - apply Qlt_alt in E. rewrite Q.max_r; [reflexivity|apply Qlt_le_weak, E].
  - apply Qgt_alt in E. rewrite Q.max_l; [reflexivity|apply Qlt_le_weak, E].
Qed.

Lemma floor_tick_bounds : 51 # 1024 <= rnd (1 # 20) <= 1 # 16.
Proof.
  split.
  - apply Qle_trans with (rnd (51 # 1024)).
    + rewrite (rnd_dyadic (51 # 1024) 51 (-10));
        [apply Qle_refl|reflexivity|reflexivity|lia].
    + apply rnd_monotone. unfold Qle. cbn. lia.
  - apply Qle_trans with (rnd (1 # 16)).
    + apply rnd_monotone. unfold Qle. cbn. lia.
    + rewrite (rnd_dyadic (1 # 16) 1 (-4));
        [apply Qle_refl|reflexivity|reflexivity|lia].
Qed.

Lemma inverse_antitone (x y : Q) : 0 < x -> x <= y -> 1 / y <= 1 / x.
Proof.
  intros Hx Hy. apply Qle_shift_div_r; [lra|].
  assert (Ha : 0 < / x) by (apply Qinv_lt_0_compat, Hx).
  pose proof (Qmult_le_compat_r x y (/ x) Hy (Qlt_le_weak _ _ Ha)) as H.
  rewrite Qmult_inv_r in H by lra.
  unfold Qdiv. rewrite Qmult_1_l, Qmult_comm. exact H.
Qed.

Lemma refresh_rate (tick : Q) :
  refresh_per_second tick =
  Z.max 4 (trunc (rnd (1 / Qmax tick (rnd (1 # 20))))).
Proof.
  unfold refresh_per_second, fdiv. rewrite py_max_Qmax. reflexivity.
Qed.

(** X12.  For a tick that is a number, the refresh rate given to the
    live display is from 4 to 20 a second, whatever the rounding; it is 4
    for a tick of a quarter of a second or more; and a longer tick never
    gives a higher rate.  (A tick that is not a number is outside this
    statement: [int] raises on it.) *)
Theorem refresh_rate_bounds :
  forall tick : Q,
    (4 <= refresh_per_second tick <= 20)%Z
    /\ (1 # 4 <= tick -> refresh_per_second tick = 4%Z)
    /\ (forall tick' : Q,
          tick <= tick' ->
          (refresh_per_second tick' <= refresh_per_second tick)%Z).
Proof.
  intros tick. pose proof floor_tick_bounds as [Hlo Hhi].
  assert (Hpos : forall t, 51 # 1024 <= Qmax t (rnd (1 # 20))).
  { intros t. apply Qle_trans with (rnd (1 # 20)); [exact Hlo|].
    apply Q.le_max_r. }
  rewrite !refresh_rate. split; [|split].
  - split; [apply Z.le_max_l|]. apply Z.max_lub; [lia|].
    change (trunc (rnd (1 / Qmax tick (rnd (1 # 20)))) <= trunc (161 # 8))%Z.
    apply trunc_monotone.
    apply Qle_trans with (rnd (161 # 8)).
    + apply rnd_monotone. specialize (Hpos tick).
      apply Qle_shift_div_r; lra.
    + rewrite (rnd_dyadic (161 # 8) 161 (-3));
        [apply Qle_refl|reflexivity|reflexivity|lia].
  - intros Ht. apply Z.max_l.
    change (trunc (rnd (1 / Qmax tick (rnd (1 # 20)))) <= trunc 4)%Z.
    apply trunc_monotone.
    apply Qle_trans with (rnd 4).
    + apply rnd_monotone. specialize (Hpos tick).
      pose proof (Q.le_max_l tick (rnd (1 # 20))).
      apply Qle_shift_div_r; lra.
    + rewrite (rnd_integer 4) by reflexivity. apply Qle_refl.
  - intros tick' Ht. rewrite refresh_rate.
    apply Z.max_le_compat_l, trunc_monotone, rnd_monotone.
    apply inverse_antitone.
    + specialize (Hpos tick). lra.
    + apply Q.max_le_compat_r, Ht.
Qed.

(** *** The line below the clock *)

Lemma prefix_length (a b : string) :
  prefix a b = true -> (String.length a <= String.length b)%nat.
Proof.
  revert b. induction a as [|c a IH]; intros b; cbn [String.length]; [lia|].
  destruct b as [|d b]; cbn [prefix String.length]; [discriminate|].
  destruct (ascii_dec c d); [|discriminate].
  intros H. apply IH in H. lia.
Qed.

Lemma prefix_refl (a : string) : prefix a a = true.
Proof.
  induction a as [|c a IH]; cbn [prefix]; [reflexivity|].
  destruct (ascii_dec c c); [exact IH|congruence].
Qed.

Lemma rfind_from_short (sub s : string) (i : Z) :
  (String.length s < String.length sub)%nat -> rfind_from sub s i = (-1)%Z.
Proof.
  revert i. induction s as [|c s IH]; intros i Hl; cbn [rfind_from].
  - destruct sub; [cbn in Hl; lia|reflexivity].
  - rewrite IH by (cbn [String.length] in Hl; lia). cbn [Z.leb Z.compare].
    destruct (prefix sub (String c s)) eqn:E; [|reflexivity].
    apply prefix_length in E. lia.
Qed.

Lemma rfind_from_end (sub pre : string) : forall i : Z,
  sub <> "" -> (0 <= i)%Z ->
  rfind_from sub (pre ++ sub) i = (i + Z.of_nat (String.length pre))%Z.
Proof.
  induction pre as [|c pre IH]; intros i Hne Hi.
  - cbn [append String.length]. destruct sub as [|c sub]; [congruence|].
    cbn [rfind_from].
    rewrite rfind_from_short by (cbn [String.length]; lia).
    cbn [Z.leb Z.compare]. rewrite prefix_refl. cbn. lia.
  - cbn [append rfind_from String.length].
    rewrite IH by (auto; lia).
    destruct (Z.leb_spec 0 (i + 1 + Z.of_nat (String.length pre))); lia.
Qed.

Lemma substring_end (pre s : string) :
  substring (String.length pre) (String.length s) (pre ++ s) = s.
Proof.
  pose proof (ReFacts.substring_middle pre s "") as H.
  rewrite PyStrFacts.append_nil_r in H. exact H.
Qed.

(** X13.  The part of the line below the clock that is given the style of
    the status is exactly the status word that ends the line, whatever the
    label: a label that itself contains "Paused" or "Running" does not
    move it. *)
Theorem status_style_covers_the_status :
  forall (label : string) (percent : Q) (paused : bool),
    let status := if paused then "Paused" else "Running" in
    let plain := sub_text label percent paused in
    let span := status_span label percent paused in
    snd span = Z.of_nat (String.length plain)
    /\ fst span = (snd span - Z.of_nat (String.length status))%Z
    /\ slice plain (fst span) (snd span) = status.
Proof.
  intros label percent paused status plain span.
  set (pre := label ++ "  |  " ++ format_5_1f percent ++ "%  |  ").
  assert (Ep : plain = pre ++ status).
  { unfold plain, sub_text, pre. fold status.
    rewrite !PyStrFacts.append_assoc. reflexivity. }
  assert (Ef : fst span = Z.of_nat (String.length pre)).
  { unfold span, status_span. fold status. fold plain. cbn [fst].
    unfold rfind. rewrite Ep, rfind_from_end; [lia| |lia].
    unfold status. destruct paused; discriminate. }
  assert (Es : snd span = Z.of_nat (String.length plain)) by reflexivity.
  assert (El : String.length plain
               = (String.length pre + String.length status)%nat).
  { rewrite Ep. apply PyStrFacts.length_append. }
  split; [exact Es|]. split; [lia|].
  unfold slice. rewrite Ef, Es, El.
  replace (Z.to_nat (Z.of_nat (String.length pre + String.length status)
                     - Z.of_nat (String.length pre)))
    with (String.length status) by lia.
  rewrite Nat2Z.id, Ep. apply substring_end.
Qed.

Lemma round_half_even_near (q : Q) :
  Qabs (inject_Z (round_half_even q) - q) <= 1 # 2.
Proof.
  unfold round_half_even. cbv zeta.
  pose proof (Qfloor_le q) as Hlo. pose proof (Qlt_floor q) as Hhi.
  rewrite inject_Z_plus in Hhi. change (inject_Z 1) with 1 in Hhi.
  destruct (Qcompare (q - inject_Z (Qfloor q)) (1 # 2)) eqn:E.
  - apply Qeq_alt in E.
    destruct (Z.even (Qfloor q)); [|rewrite inject_Z_plus;
                                     change (inject_Z 1) with 1];
      set (f := inject_Z (Qfloor q)) in *; apply Qabs_Qle_condition; lra.
  - apply Qlt_alt in E.
    set (f := inject_Z (Qfloor q)) in *. apply Qabs_Qle_condition; lra.
  - apply Qgt_alt in E. rewrite inject_Z_plus. change (inject_Z 1) with 1.
    set (f := inject_Z (Qfloor q)) in *. apply Qabs_Qle_condition; lra.
Qed.

Lemma round_half_even_range (q : Q) (n : Z) :
  (0 <= n)%Z -> 0 <= q <= inject_Z n -> (0 <= round_half_even q <= n)%Z.
Proof.
  intros Hn [H0 H1]. unfold round_half_even. cbv zeta.
  assert (Hf0 : (0 <= Qfloor q)%Z).
  { rewrite <- (Qfloor_Z 0). apply Qfloor_resp_le, H0. }
  assert (Hf1 : (Qfloor q <= n)%Z).
  { rewrite <- (Qfloor_Z n). apply Qfloor_resp_le, H1. }
  assert (Hup : 1 # 2 <= q - inject_Z (Qfloor q) -> (Qfloor q + 1 <= n)%Z).
  { intros Hr. destruct (Z.eq_dec (Qfloor q) n) as [E|]; [|lia].
    rewrite E in Hr. lra. }
  destruct (Qcompare (q - inject_Z (Qfloor q)) (1 # 2)) eqn:E.
  - apply Qeq_alt in E. destruct (Z.even (Qfloor q)); [lia|].
    split; [lia|]. apply Hup. rewrite E. apply Qle_refl.
  - lia.
  - apply Qgt_alt in E. split; [lia|]. apply Hup, Qlt_le_weak, E.
Qed.

Lemma tenths_text_width (tenths : Z) :
  (0 <= tenths <= 1000)%Z ->
  String.length (rjust 5 (tenths_text tenths)) = 5%nat.
Proof.
  intros Ht.
  assert (H : forallb
                (fun k => Nat.eqb (String.length
                                     (rjust 5 (tenths_text (Z.of_nat k)))) 5)
                (seq 0 1001) = true) by (vm_compute; reflexivity).
  rewrite forallb_forall in H.
  specialize (H (Z.to_nat tenths)). rewrite Z2Nat.id in H by lia.
  apply Nat.eqb_eq, H, in_seq. lia.
Qed.

Lemma format_5_1f_tenths (p : Q) :
  0 <= p ->
  format_5_1f p = rjust 5 (tenths_text (round_half_even (p * 10))).
Proof.
  intros Hp. unfold format_5_1f, format_1f, tenths_text. cbv zeta.
  assert (E : Qltb p 0 = false).
  { unfold Qltb. destruct (p ?= 0) eqn:E; try reflexivity.
    apply Qlt_alt in E. lra. }
  rewrite E.
  assert (Ea : Qabs p = p).
  { destruct p as [n d]. unfold Qle in Hp. cbn in Hp.
    unfold Qabs. rewrite Z.abs_eq by lia. reflexivity. }
  rewrite Ea. reflexivity.
Qed.

Lemma percent_text_fits_range (f : Frame) :
  0 <= header_percent (header f) <= 100 -> percent_text_fits f.
Proof.
  intros [H0 H1]. unfold percent_text_fits. cbv zeta.
  set (p := header_percent (header f)) in *.
  assert (Ht : (0 <= round_half_even (p * 10) <= 1000)%Z).
  { apply round_half_even_range; [lia|].
    change (inject_Z 1000) with 1000. lra. }
  rewrite format_5_1f_tenths by exact H0.
  split; [apply tenths_text_width, Ht|].
  exists (round_half_even (p * 10)). split; [exact Ht|]. split; [|reflexivity].
  pose proof (round_half_even_near (p * 10)) as Hn.
  apply Qabs_Qle_condition in Hn. apply Qabs_Qle_condition.
  set (t := inject_Z (round_half_even (p * 10))) in *.
  assert (Ed : t / 10 == t * (1 # 10)) by (unfold Qdiv; reflexivity).
  rewrite Ed. lra.
Qed.

Lemma loop_frames_scale (duration : Z) (label : string) (tick clock0 : Q)
  (readings : list Reading) :
  (0 < duration)%Z -> Sorted Qle (clock0 :: map fst readings) ->
  Forall in_scale
    (frames (fst (run_timer duration label tick clock0 readings))).
Proof.
  intros Hd Hs. rewrite run_timer_frames.
  apply (loop_frames_forall in_scale duration label tick) with (last := clock0);
    [|exact Hs|apply clock_inv_start].
  intros now st. apply frame_at_in_scale, Hd.
Qed.

(** X14.  For a positive duration, and on a clock whose readings never go
    back, the percentage of every frame is written in exactly five
    characters, so the line below the clock keeps its width, and what is
    written is the number of tenths nearest to the percentage, no further
    than 0.05 from it. *)
Theorem percentage_text_keeps_its_width :
  forall duration label tick clock0 readings,
    (0 < duration)%Z ->
    Sorted Qle (clock0 :: map fst readings) ->
    Forall percent_text_fits
      (frames (fst (run_timer duration label tick clock0 readings))).
Proof.
  intros duration label tick clock0 readings Hd Hs.
  pose proof (loop_frames_scale duration label tick clock0 readings Hd Hs) as H.
  eapply Forall_impl; [|exact H].
  intros f [Hp _]. apply percent_text_fits_range, Hp.
Qed.

End DisplayCoverage.

Lemma percentage_text_keeps_its_width_witness :
  (0 < 3)%Z /\ Sorted Qle (100 :: map fst sample_readings)
  /\ Forall percent_text_fits
       (frames (fst (run_timer (R := exact_arithmetic) 3 "x" (1 # 10) 100
                       sample_readings))).
Proof.
  split; [reflexivity|]. split; [exact sample_clock_sorted|].
  apply (@percentage_text_keeps_its_width exact_arithmetic);
    [reflexivity|exact sample_clock_sorted].
Defined.

(** ** The big clock *)

Section BigTimeCoverage.

Variable BIG_GLYPHS : N -> option (list text).

Local Open Scope nat_scope.

Lemma add_glyph_fits (glyph : list text) : forall lines : list text,
  List.length glyph <= List.length lines ->
  exists lines',
    add_glyph lines glyph = inr lines'
    /\ List.length lines' = List.length lines.
Proof.
  induction glyph as [|row glyph IH]; intros lines Hl; cbn [add_glyph].
  - exists lines. auto.
  - destruct lines as [|line lines]; cbn [List.length] in *; [lia|].
    destruct (IH lines) as (rest & -> & Hr); [lia|].
    eexists. split; [reflexivity|]. cbn [List.length]. lia.
Qed.

Lemma add_glyph_too_tall (glyph : list text) : forall lines : list text,
  List.length lines < List.length glyph ->
  add_glyph lines glyph = inl IndexError.
Proof.
  induction glyph as [|row glyph IH]; intros lines Hl; cbn [List.length] in Hl;
    [lia|].
  cbn [add_glyph]. destruct lines as [|line lines]; [reflexivity|].
  cbn [List.length] in Hl. rewrite IH by lia. reflexivity.
Qed.




Lemma add_glyphs_succeed (height : nat) (blank : list text)
  (time_str : text) :
  BIG_GLYPHS 32%N = Some blank ->
  forall lines : list text,
  List.length lines = height ->
  ((exists lines', add_glyphs BIG_GLYPHS time_str lines = inr lines')
   <-> Forall (fits BIG_GLYPHS height) time_str).
Proof.
  intros Hb. induction time_str as [|ch rest IH]; intros lines Hl.
  - split; [constructor|]. intros _. exists lines. reflexivity.
  - cbn [add_glyphs]. unfold subscript. rewrite Hb, Forall_cons_iff. cbv zeta.
    unfold fits at 1, drawn. rewrite Hb.
    set (glyph := match BIG_GLYPHS ch with
                  | Some glyph => glyph
                  | None => blank
                  end).
    assert (Hd : match BIG_GLYPHS ch with
                 | Some glyph => Some glyph
                 | None => Some blank
                 end = Some glyph).
    { unfold glyph. destruct (BIG_GLYPHS ch); reflexivity. }
    rewrite Hd.
    destruct (le_lt_dec (List.length glyph) height) as [Hle|Hgt].
    + destruct (add_glyph_fits glyph lines) as (lines1 & E1 & Hl1); [lia|].
      rewrite E1, (IH lines1) by lia. tauto.
    + rewrite add_glyph_too_tall by lia.
      split; [intros (? & [=])|intros [? _]; lia].
Qed.

(** X16.  The big clock can be drawn exactly when the table has a glyph
    for "0" and, unless the text is empty, one for the blank, and the
    glyph drawn for each character is no taller than that of "0".  The
    blank is needed even when no character of the text lacks a glyph; a
    missing key is reported for "0" before the blank. *)
Theorem big_clock_drawn_exactly_when :
  forall time_str : text,
    ((exists rendered, render_big_time BIG_GLYPHS time_str = inr rendered)
     <-> exists zero,
           BIG_GLYPHS 48%N = Some zero
           /\ (time_str = []
               \/ (BIG_GLYPHS 32%N <> None
                   /\ Forall (fits BIG_GLYPHS (List.length zero)) time_str)))
    /\ (BIG_GLYPHS 48%N = None ->
        render_big_time BIG_GLYPHS time_str = inl (KeyError 48))
    /\ (BIG_GLYPHS 48%N <> None -> BIG_GLYPHS 32%N = None -> time_str <> [] ->
        render_big_time BIG_GLYPHS time_str = inl (KeyError 32)).
Proof.
  intros time_str. unfold render_big_time, big_lines, subscript.
  split; [|split].
  - destruct (BIG_GLYPHS 48%N) as [zero|] eqn:H0.
    + assert (Hr : (exists lines',
                      add_glyphs BIG_GLYPHS time_str
                        (repeat [gap] (List.length zero)) = inr lines')
                   <-> time_str = []
                       \/ (BIG_GLYPHS 32%N <> None
                           /\ Forall (fits BIG_GLYPHS (List.length zero))
                                time_str)).
      { destruct (BIG_GLYPHS 32%N) as [blank|] eqn:Hb.
        - rewrite (add_glyphs_succeed (List.length zero) blank time_str Hb)
            by apply repeat_length.
          split; [intros H; right; split; [discriminate|exact H]|].
          intros [->|[_ H]]; [constructor|exact H].
        - destruct time_str as [|ch rest].
          + split; [auto|]. intros _. eexists. reflexivity.
          + cbn [add_glyphs]. unfold subscript. rewrite Hb.
            split; [intros (? & [=])|].
            intros [[=]|[H _]]. congruence. }
      split.
      * intros (rendered & E).
        destruct (add_glyphs BIG_GLYPHS time_str _) as [e|lines] eqn:El;
          [discriminate|].
        exists zero. split; [reflexivity|]. apply Hr. eauto.
      * intros (zero' & [= <-] & H). apply Hr in H as (lines & ->). eauto.
    + split; [intros (? & [=])|intros (? & [=] & _)].
  - intros ->. reflexivity.
  - intros H0 Hb Hne. destruct (BIG_GLYPHS 48%N) as [zero|]; [|congruence].
    destruct time_str as [|ch rest]; [congruence|].
    cbn [add_glyphs]. unfold subscript. rewrite Hb. reflexivity.
Qed.

Lemma add_glyphs_blank (ch : N) (time_str rest : text) :
  BIG_GLYPHS ch = None ->
  forall lines : list text,
    add_glyphs BIG_GLYPHS (time_str ++ ch :: rest)%list lines =
    add_glyphs BIG_GLYPHS (time_str ++ 32%N :: rest)%list lines.
Proof.
  intros Hc. induction time_str as [|c time_str IH]; intros lines.
  - cbn [app add_glyphs]. unfold subscript. rewrite Hc.
    destruct (BIG_GLYPHS 32%N); reflexivity.
  - cbn [app add_glyphs]. destruct (subscript BIG_GLYPHS 32); [reflexivity|].
    cbv zeta. destruct (add_glyph lines _); [reflexivity|apply IH].
Qed.

(** X17.  A character with no glyph in the table is drawn as the blank:
    the big clock of a text is that of the text with the blank in place
    of such a character, failures included. *)
Theorem glyphless_character_drawn_blank :
  forall (ch : N) (before after : text),
    BIG_GLYPHS ch = None ->
    render_big_time BIG_GLYPHS (before ++ ch :: after)%list =
    render_big_time BIG_GLYPHS (before ++ 32%N :: after)%list.
Proof.
  intros ch before after Hc. unfold render_big_time, big_lines.
  destruct (subscript BIG_GLYPHS 48); [reflexivity|].
  rewrite (add_glyphs_blank ch before after Hc). reflexivity.
Qed.

End BigTimeCoverage.



Lemma glyphless_character_drawn_blank_witness :
  render_big_time sample_glyphs ([48] ++ 58 :: [48])%N%list =
  render_big_time sample_glyphs ([48] ++ 32 :: [48])%N%list.
Proof.
  apply (glyphless_character_drawn_blank sample_glyphs 58%N [48%N] [48%N]).
  reflexivity.
Defined.

(** ** The key reader *)

Section KeyReaderCoverage.

Variable Attrs : Type.
Variable cbreak : Attrs -> Attrs.

(** X18.  The key reader leaves the terminal as it found it.  Off
    Windows, on a terminal, the body runs with the terminal in the mode
    [setcbreak] gives, and however the body leaves the terminal's
    attributes, they are afterwards what they were before the reader was
    entered.  When standard input is not a terminal, entering fails and
    the body does not run.  On Windows the reader does nothing to the
    terminal, and a reader that was never entered restores nothing. *)
Theorem key_reader_restores_terminal :
  (forall fileno body (before : Attrs) (during : Attrs),
     body (Build_KeyReader Attrs false (Some fileno) (Some before))
          (Some (cbreak before)) = Some during ->
     with_KeyReader Attrs cbreak false fileno body (Some before)
       = inr (Some before))
  /\ (forall fileno body,
        with_KeyReader Attrs cbreak false fileno body None
          = inl termios_error)
  /\ (forall fileno body t,
        with_KeyReader Attrs cbreak true fileno body t
          = inr (body (KeyReader_init Attrs true) t))
  /\ (forall win32 t,
        KeyReader_exit Attrs (KeyReader_init Attrs win32) t = inr t).
Proof.
  split; [|split; [|split]].
  - intros fileno body before during Hb.
    unfold with_KeyReader, KeyReader_enter, KeyReader_init, setcbreak.
    cbn [_use_windows tcgetattr tcsetattr]. rewrite Hb. reflexivity.
  - reflexivity.
  - reflexivity.
  - intros [] t; reflexivity.
Qed.

End KeyReaderCoverage.

Lemma key_reader_restores_terminal_witness :
  with_KeyReader Z (fun a => Z.land a 5) false 0
    (fun _ t => option_map (Z.add 1) t) (Some 7%Z) = inr (Some 7%Z).
Proof.
  pose proof (key_reader_restores_terminal Z (fun a => Z.land a 5)) as [H _].
  apply (H 0%Z (fun _ t => option_map (Z.add 1) t) 7%Z 6%Z). reflexivity.
Defined.

Lemma dyadic_percent_exact :
  each_iteration (R := Binary64.binary64)
    (exact_percent (R := Binary64.binary64) 4) 4
    {| start := 100; elapsed_before_pause := 0; paused := false |}
    dyadic_readings.
Proof.
  vm_compute. repeat split; reflexivity.
Defined.

Lemma header_and_bar_agree_witness :
  (0 < 4)%Z
  /\ Forall (percent_is_share 4)
       (frames (fst (run_timer (R := Binary64.binary64) 4 "x" (1 # 10) 100
                       dyadic_readings))).
Proof.
  split; [reflexivity|].
  apply (@header_and_bar_agree Binary64.binary64);
    [reflexivity|exact dyadic_percent_exact].
Defined.
